(** * rpg-map-builder: the layered terrain-painting engine

    A shallow embedding of [src/services/utils.ts] (the [StochasticStamp]
    singleton and the colour functions of [Utils]), of the [MapEngine]
    class, and of the parts of [App.tsx] that keep the undo history,
    scatter assets, zoom, choose the tool and pick what is under the
    pointer, followed by the properties of the specification that concern
    them and by further properties of the code.

    JavaScript numbers are modelled as exact real numbers, and as exact
    rationals in the colour functions: the properties stated over them are
    algebraic facts of the program, up to floating-point rounding, and
    [NaN] and the infinities are outside that model.  Where rounding
    decides a comparison, in the loop of [drawPathSegment] that places the
    marks of a path, the code is modelled a second time in binary64
    ([Binary64]), and the count of the marks and the bounds of the
    remainder are settled there.  A canvas is a raster of premultiplied
    RGBA pixels; what the browser's rasteriser computes for curved or
    rotated shapes is a parameter of the development. *)

From Stdlib Require Import Reals Lra Lia ZArith List String Bool Permutation.
From Stdlib Require Import FunctionalExtensionality.
From Stdlib Require Import QArith Qround Qminmax Ascii.
From Stdlib Require Lqa.
From Stdlib Require Floats.PrimFloat.
Import ListNotations.
Local Open Scope R_scope.

(** ** Numbers *)

Module JS.

(** [Math.floor] and [Math.ceil]. *)
Definition floor (x : R) : Z := (up x - 1)%Z.
Definition ceil (x : R) : Z := (- floor (- x))%Z.

(** [Math.hypot(dx, dy)]. *)
Definition hypot (dx dy : R) : R := sqrt (dx * dx + dy * dy).

(** [Math.atan2(dy, dx)]. *)
Definition atan2 (dy dx : R) : R :=
  if Rlt_dec 0 dx then atan (dy / dx)
  else if Rlt_dec dx 0 then
         if Rle_dec 0 dy then atan (dy / dx) + PI else atan (dy / dx) - PI
       else if Rlt_dec 0 dy then PI / 2
            else if Rlt_dec dy 0 then - PI / 2 else 0.

(** [a !== null ? a : b]. *)
Definition orElse (a : option R) (b : R) : R :=
  match a with Some v => v | None => b end.

(** The result of a call that may throw. *)
Inductive outcome (A : Type) : Type :=
| Returned (a : A)
| Thrown.
Arguments Returned {A} a.
Arguments Thrown {A}.

End JS.

(** ** Rasters and compositing *)

Module Raster.

(** A pixel holds premultiplied colour channels and its alpha. *)
Record pixel : Type := mkPx { red : R; green : R; blue : R; alpha : R }.

Definition transparent : pixel := mkPx 0 0 0 0.

Definition scale (k : R) (p : pixel) : pixel :=
  mkPx (k * red p) (k * green p) (k * blue p) (k * alpha p).

Definition plus (p q : pixel) : pixel :=
  mkPx (red p + red q) (green p + green q) (blue p + blue q)
       (alpha p + alpha q).

(** The values of [globalCompositeOperation] that the engine uses. *)
Inductive composite : Type :=
| SourceOver | SourceAtop | DestinationIn | DestinationOut.

(** Porter-Duff compositing of a source pixel [s] onto a destination [d]. *)
Definition blend (op : composite) (s d : pixel) : pixel :=
  match op with
  | SourceOver => plus s (scale (1 - alpha s) d)
  | SourceAtop => plus (scale (alpha d) s) (scale (1 - alpha s) d)
  | DestinationIn => scale (alpha s) d
  | DestinationOut => scale (1 - alpha s) d
  end.

(** An unbounded bitmap: what a drawing operation renders before it is
    composited ("image A" of the canvas drawing model). *)
Definition raster : Type := Z -> Z -> pixel.

Definition empty : raster := fun _ _ => transparent.

(** A canvas element or a decoded image. *)
Record Canvas : Type := mkCanvas { width : Z; height : Z; pix : raster }.

Definition Image : Type := Canvas.

Definition blank (w h : Z) : Canvas := mkCanvas w h empty.

Definition inside (c : Canvas) (x y : Z) : bool :=
  ((0 <=? x) && (x <? width c) && (0 <=? y) && (y <? height c))%Z.

(** Reading a pixel; there is nothing outside the bitmap. *)
Definition getPixel (c : Canvas) (x y : Z) : pixel :=
  if inside c x y then pix c x y else transparent.

(** The pixels covered by the rectangle [(x, y, w, h)]; a negative width
    or height extends it to the left or upwards. *)
Definition in_rect (x y w h px py : Z) : bool :=
  ((Z.min x (x + w) <=? px) && (px <? Z.max x (x + w)) &&
   (Z.min y (y + h) <=? py) && (py <? Z.max y (y + h)))%Z.

(** [clearRect(x, y, w, h)]. *)
Definition clearRect (x y w h : Z) (c : Canvas) : Canvas :=
  mkCanvas (width c) (height c)
    (fun px py => if in_rect x y w h px py then transparent else pix c px py).

(** Compositing a rendered image with the current operator and global
    alpha.  As in the drawing model of the canvas, the image is composited
    over the whole bitmap: where it is transparent, source-over,
    source-atop and destination-out leave the destination as it is and
    destination-in clears it. *)
Definition paint (op : composite) (ga : R) (a : raster) (c : Canvas) : Canvas :=
  mkCanvas (width c) (height c)
    (fun px py => blend op (scale ga (a px py)) (pix c px py)).

(** The image rendered by [drawImage(src, dx, dy)] with integer offsets. *)
Definition image_at (src : Canvas) (dx dy : Z) : raster :=
  fun px py => getPixel src (px - dx) (py - dy).

(** The image rendered by
    [drawImage(src, sx, sy, w, h, dx, dy, w, h)]. *)
Definition image_slice (src : Canvas) (sx sy w h dx dy : Z) : raster :=
  fun px py =>
    if in_rect dx dy w h px py
    then getPixel src (px - dx + sx) (py - dy + sy)
    else transparent.

(** Pixel-wise equality of what two canvases show. *)
Definition same_pixels (c1 c2 : Canvas) : Prop :=
  width c1 = width c2 /\ height c1 = height c2 /\
  forall x y, getPixel c1 x y = getPixel c2 x y.

End Raster.
Import Raster.

(** ** What is handed to the rasteriser *)

(** A value of [fillStyle]: a CSS colour, the radial gradient of
    [createRadialGradient(x0, y0, r0, x1, y1, r1)] with its colour stops, or
    a repeating pattern made from an image. *)
Inductive Style : Type :=
| Color (css : string)
| RadialGradient (x0 y0 r0 x1 y1 r1 : R) (stops : list (R * string))
| Pattern (img : Image).

(** The shapes the engine fills: the closed polygon through a list of
    points, a full circle, and the rectangle [(x, y, w, h)] drawn after
    [translate(tx, ty)] and [rotate(angle)]. *)
Inductive Shape : Type :=
| Polygon (pts : list (R * R))
| Circle (cx cy r : R)
| RotatedRect (tx ty angle x y w h : R).

(** The string [rgba(r, g, b, alpha)] that [Utils.hexToRgba] builds, kept
    as the pair of its arguments. *)
Record Rgba : Type := mkRgba { hex : string; opacity : R }.

Definition hexToRgba (hex : string) (alpha : R) : Rgba := mkRgba hex alpha.

(** ** Colours: [Utils] in [src/services/utils.ts]

    The colour functions compute with rational numbers only, so they are
    modelled over the exact rationals and can be run.  A string stands
    for a JavaScript string of code units below 256. *)

Module Utils.

Local Open Scope Q_scope.

(** [Math.round]: the nearest integer, halves upwards. *)
Definition round (x : Q) : Z := Qfloor (x + (1 # 2)).

(** The digit for a value from 0 to 15. *)
Definition hexDigit (d : Z) : ascii :=
  match d with
  | 0 => "0" | 1 => "1" | 2 => "2" | 3 => "3" | 4 => "4" | 5 => "5"
  | 6 => "6" | 7 => "7" | 8 => "8" | 9 => "9" | 10 => "a" | 11 => "b"
  | 12 => "c" | 13 => "d" | 14 => "e" | _ => "f"
  end%Z%char.

(** The digits of a natural number in base 16, before [acc]. *)
Fixpoint digits16 (fuel : nat) (n : Z) (acc : string) : string :=
  let acc' := String (hexDigit (n mod 16)) acc in
  match fuel with
  | O => acc'
  | S fuel' =>
    if (n / 16 =? 0)%Z then acc' else digits16 fuel' (n / 16) acc'
  end.

(** [n.toString(16)] for an integer [n]. *)
Definition toString16 (n : Z) : string :=
  if (n <? 0)%Z
  then String "-" (digits16 (Z.to_nat (Z.log2 (- n))) (- n) EmptyString)
  else digits16 (Z.to_nat (Z.log2 n)) n EmptyString.

(** [s.padStart(2, '0')]. *)
Definition padStart2 (s : string) : string :=
  match s with
  | EmptyString => "00"
  | String c EmptyString => String "0" s
  | _ => s
  end.

(** [toHex] of [hsvToHex]. *)
Definition toHex (x : Q) : string := padStart2 (toString16 (round (x * 255))).

(** The channels that [hsvToHex] computes, before they are formatted. *)
Definition hsvToRgb (h s v : Q) : Q * Q * Q :=
  let h := h / 360 in
  let s := s / 100 in
  let v := v / 100 in
  let i := Qfloor (h * 6) in
  let f := h * 6 - inject_Z i in
  let p := v * (1 - s) in
  let q := v * (1 - f * s) in
  let t := v * (1 - (1 - f) * s) in
  match Z.rem i 6 with
  | 0%Z => (v, t, p)
  | 1%Z => (q, v, p)
  | 2%Z => (p, v, t)
  | 3%Z => (p, q, v)
  | 4%Z => (t, p, v)
  | 5%Z => (v, p, q)
  | _ => (0, 0, 0)
  end.

(** [Utils.hsvToHex]. *)
Definition hsvToHex (h s v : Q) : string :=
  let '(r, g, b) := hsvToRgb h s v in
  ("#" ++ toHex r ++ toHex g ++ toHex b)%string.

(** White space at the start of the argument of [parseInt], among the
    characters below 256. *)
Definition isSpace (c : ascii) : bool :=
  let n := nat_of_ascii c in
  ((n =? 9) || (n =? 10) || (n =? 11) || (n =? 12) || (n =? 13) ||
   (n =? 32) || (n =? 160))%nat.

Fixpoint skipSpace (s : string) : string :=
  match s with
  | String c s' => if isSpace c then skipSpace s' else s
  | EmptyString => s
  end.

(** The value of a hexadecimal digit, in either case. *)
Definition digitValue (c : ascii) : option Z :=
  let n := Z.of_nat (nat_of_ascii c) in
  if ((48 <=? n) && (n <=? 57))%Z then Some (n - 48)%Z
  else if ((97 <=? n) && (n <=? 102))%Z then Some (n - 87)%Z
  else if ((65 <=? n) && (n <=? 70))%Z then Some (n - 55)%Z
  else None.

(** The value of the longest prefix of hexadecimal digits; [acc] is the
    value so far, [None] before the first digit. *)
Fixpoint hexPrefix (s : string) (acc : option Z) : option Z :=
  match s with
  | String c s' =>
    match digitValue c with
    | Some d =>
      hexPrefix s' (Some (16 * match acc with Some a => a | None => 0 end + d)%Z)
    | None => acc
    end
  | EmptyString => acc
  end.

(** [parseInt(s, 16)]; [None] is [NaN]. *)
Definition parseInt16 (s : string) : option Z :=
  let s := skipSpace s in
  let '(sign, s) :=
    match s with
    | String "-" s' => ((-1)%Z, s')
    | String "+" s' => (1%Z, s')
    | _ => (1%Z, s)
    end in
  let s :=
    match s with
    | String "0" (String "x" s') => s'
    | String "0" (String "X" s') => s'
    | _ => s
    end in
  option_map (Z.mul sign) (hexPrefix s None).

Record HSV : Type := mkHSV { h : Q; s : Q; v : Q }.

(** What [hexToHsv] computes from the three parsed channels. *)
Definition rgbToHsv (r g b : Z) : HSV :=
  let r := inject_Z r / 255 in
  let g := inject_Z g / 255 in
  let b := inject_Z b / 255 in
  let max := Qmax r (Qmax g b) in
  let min := Qmin r (Qmin g b) in
  let v := max in
  let d := max - min in
  let s := if Qeq_bool max 0 then 0 else d / max in
  let h :=
    if negb (Qeq_bool max min) then
      (if Qeq_bool max r
       then (g - b) / d + (if negb (Qle_bool b g) then 6 else 0)
       else if Qeq_bool max g then (b - r) / d + 2
            else if Qeq_bool max b then (r - g) / d + 4
                 else 0) / 6
    else 0 in
  mkHSV (inject_Z (round (h * 360))) (inject_Z (round (s * 100)))
        (inject_Z (round (v * 100))).

(** [Utils.hexToHsv]; [None] when a channel is [NaN]. *)
Definition hexToHsv (hex : string) : option HSV :=
  match parseInt16 (substring 1 2 hex), parseInt16 (substring 3 2 hex),
        parseInt16 (substring 5 2 hex) with
  | Some r, Some g, Some b => Some (rgbToHsv r g b)
  | _, _, _ => None
  end.

(** [Utils.lightenColor]; [None] when the colour has a [NaN] channel. *)
Definition lightenColor (hex : string) (amount : Q) : option string :=
  match hexToHsv hex with
  | Some hsv =>
    let v' := Qmin 100 (v hsv + amount) in
    let s' := Qmax 0 (s hsv - amount / 2) in
    Some (hsvToHex (h hsv) s' v')
  | None => None
  end.

End Utils.

(** ** Application state read by the engine ([src/types.ts]) *)

Inductive PaintMode : Type :=
| terrain | river | sea | texture | path | none.

Inductive PathStyle : Type := dots | dashed.

Record AppState : Type := mkAppState {
  paintMode : PaintMode;
  terrainColor : string;
  activeTexture : option string;
  isTextureEraser : bool;
  selectedTexture : string;
  pathColor : string;
  pathSpacing : R;
  pathStyle : PathStyle;
  brushSize : R;
  brushBlur : R;
  blurWidth : R;
  roughness : R;
  isOrganicRiver : bool
}.

(** ** Engine data *)

(** A 2D context together with the canvas it draws on.  Only the drawing
    state that some call leaves changed is kept; the transform is the
    identity outside [save]/[restore] pairs. *)
Record Context2D : Type := mkCtx {
  canvas : Canvas;
  globalAlpha : R;
  globalCompositeOperation : composite;
  fillStyle : Style
}.

(** The context of a canvas whose size has just been set. *)
Definition freshContext (w h : Z) : Context2D :=
  mkCtx (blank w h) 1 SourceOver (Color "#000000").

Definition withCanvas (c : Canvas) (ctx : Context2D) : Context2D :=
  mkCtx c (globalAlpha ctx) (globalCompositeOperation ctx) (fillStyle ctx).

(** The [StochasticStamp] singleton. *)
Record StampState : Type := mkStamp {
  offCanvas : option Canvas;
  tintCanvas : option Canvas;
  lastSize : R;
  lastRoughness : R;
  lastBlurWidth : R
}.

Definition StochasticStamp0 : StampState := mkStamp None None 0 (-1) (-1).

Record RiverState : Type := mkRiver {
  currentWidthFactor : R;
  targetWidthFactor : R;
  distToNextChange : R;
  traveledSinceChange : R;
  lastX : R;
  lastY : R
}.

Record MapEngine : Type := mkEngine {
  mapCtx : option Context2D;
  waterCtx : option Context2D;
  textureLayerCtx : option Context2D;
  pathCtx : option Context2D;
  assetCtx : option Context2D;
  textCtx : option Context2D;
  maskCtx : Context2D;
  textureMaskCtx : Context2D;
  currentTextureImg : option Image;
  pathRemainder : R;
  riverState : RiverState
}.

(** [new MapEngine()]: the two mask canvases exist, at the default canvas
    size, and no layer is bound. *)
Definition newMapEngine : MapEngine :=
  mkEngine None None None None None None
           (freshContext 300 150) (freshContext 300 150)
           None 0 (mkRiver 1 1 0 0 0 0).

(** Everything a paint call can change: the engine, the stamp singleton
    and the position in the stream of [Math.random()] results. *)
Record World : Type := mkWorld {
  engine : MapEngine;
  stamp : StampState;
  seed : nat
}.

(** ** MapEngine: lifecycle and field updates *)

(** [init]: the six layer canvases are bound and, like the two mask
    canvases, sized [w] by [h], which empties them and resets their
    contexts; three of them are then cleared. *)
Definition init (w h : Z) (e : MapEngine) : MapEngine :=
  let cleared :=
    withCanvas (clearRect 0 0 w h (blank w h)) (freshContext w h) in
  mkEngine (Some (freshContext w h)) (Some cleared) (Some cleared)
           (Some (freshContext w h)) (Some (freshContext w h))
           (Some (freshContext w h))
           (freshContext w h) cleared
           (currentTextureImg e) (pathRemainder e) (riverState e).

Definition setMapCtx (c : Context2D) (e : MapEngine) : MapEngine :=
  mkEngine (Some c) (waterCtx e) (textureLayerCtx e) (pathCtx e)
           (assetCtx e) (textCtx e) (maskCtx e) (textureMaskCtx e)
           (currentTextureImg e) (pathRemainder e) (riverState e).

Definition setWaterCtx (c : Context2D) (e : MapEngine) : MapEngine :=
  mkEngine (mapCtx e) (Some c) (textureLayerCtx e) (pathCtx e)
           (assetCtx e) (textCtx e) (maskCtx e) (textureMaskCtx e)
           (currentTextureImg e) (pathRemainder e) (riverState e).

Definition setTextureLayerCtx (c : Context2D) (e : MapEngine) : MapEngine :=
  mkEngine (mapCtx e) (waterCtx e) (Some c) (pathCtx e)
           (assetCtx e) (textCtx e) (maskCtx e) (textureMaskCtx e)
           (currentTextureImg e) (pathRemainder e) (riverState e).

Definition setPath (c : Context2D) (remainder : R) (e : MapEngine) : MapEngine :=
  mkEngine (mapCtx e) (waterCtx e) (textureLayerCtx e) (Some c)
           (assetCtx e) (textCtx e) (maskCtx e) (textureMaskCtx e)
           (currentTextureImg e) remainder (riverState e).

Definition setMaskCtx (c : Context2D) (e : MapEngine) : MapEngine :=
  mkEngine (mapCtx e) (waterCtx e) (textureLayerCtx e) (pathCtx e)
           (assetCtx e) (textCtx e) c (textureMaskCtx e)
           (currentTextureImg e) (pathRemainder e) (riverState e).

Definition setTextureMaskCtx (c : Context2D) (e : MapEngine) : MapEngine :=
  mkEngine (mapCtx e) (waterCtx e) (textureLayerCtx e) (pathCtx e)
           (assetCtx e) (textCtx e) (maskCtx e) c
           (currentTextureImg e) (pathRemainder e) (riverState e).

Definition setRiverState (rs : RiverState) (e : MapEngine) : MapEngine :=
  mkEngine (mapCtx e) (waterCtx e) (textureLayerCtx e) (pathCtx e)
           (assetCtx e) (textCtx e) (maskCtx e) (textureMaskCtx e)
           (currentTextureImg e) (pathRemainder e) rs.

(** The assignment to [currentTextureImg] in [setGlobalTexture]. *)
Definition setCurrentTextureImg (img : option Image) (e : MapEngine)
  : MapEngine :=
  mkEngine (mapCtx e) (waterCtx e) (textureLayerCtx e) (pathCtx e)
           (assetCtx e) (textCtx e) (maskCtx e) (textureMaskCtx e)
           img (pathRemainder e) (riverState e).

(** [ctx.save()], a change of [globalCompositeOperation], and the
    [ctx.restore()] that ends the drawing done in between. *)
Definition withOperation (op : composite) (ctx : Context2D) : Context2D :=
  mkCtx (canvas ctx) (globalAlpha ctx) op (fillStyle ctx).

Definition restoreState (saved drawn : Context2D) : Context2D :=
  mkCtx (canvas drawn) (globalAlpha saved)
        (globalCompositeOperation saved) (fillStyle saved).

(** ** A sample platform and sample inputs *)

Module Sample.

(** A random stream that always returns one half. *)
Definition random (_ : nat) : R := 1 / 2.

(** Rounding to the nearest multiple of [2^-12], which is the spacing of
    binary64 at the size of a time in milliseconds (from [2^40] to
    [2^41]); ties go upwards. *)
Definition round64 (x : R) : R := IZR (JS.floor (x * 4096 + 1 / 2)) / 4096.

(** Every colour is white. *)
Definition css_rgb (_ : string) : R * R * R := (1, 1, 1).

(** A rasteriser without anti-aliasing: a filled circle covers, in opaque
    white, the pixels whose centre it contains; other shapes are not
    drawn. *)
Definition rasterize (sh : Shape) (_ : Style) : raster :=
  fun px py =>
    match sh with
    | Circle cx cy r =>
      if Rle_dec ((IZR px + 0.5 - cx) * (IZR px + 0.5 - cx) +
                  (IZR py + 0.5 - cy) * (IZR py + 0.5 - cy)) (r * r)
      then mkPx 1 1 1 1
      else transparent
    | _ => transparent
    end.

(** Nearest-pixel sampling of an image moved by the translation and the
    offset; the rotation is ignored. *)
Definition resample (chan : Z -> Z -> R) (w h : Z)
           (tx ty rot dx dy : R) (px py : Z) : R :=
  chan (px - JS.floor (tx + dx))%Z (py - JS.floor (ty + dy))%Z.

(** No shadows. *)
Definition shadow (_ : Canvas) (_ _ : Z) (_ _ _ : R) (_ : Rgba) : raster :=
  empty.

(** Data URLs that hold the canvas itself. *)
Definition DataURL : Type := Canvas.
Definition toDataURL (c : Canvas) : DataURL := c.
Definition decode (u : DataURL) : option Image := Some u.

(** The initial application state of the program, with a smooth brush,
    for a paint mode and a brush opacity. *)
Definition state (mode : PaintMode) (opacity : R) : AppState :=
  mkAppState mode "#2d5a27" None false "#2d5a27" "#ffffff" 2.5 dots
             15 opacity 50 0 true.

(** An engine initialised for a 720 by 360 map. *)
Definition engine0 : MapEngine := init 720 360 newMapEngine.

Definition world0 : World := mkWorld engine0 StochasticStamp0 0.

(** The same engine with a loaded 8 by 8 texture image. *)
Definition textured : MapEngine :=
  setCurrentTextureImg (Some (blank 8 8)) engine0.

End Sample.

(** ** Assets ([src/types.ts]) *)

Module Asset.

(** An asset placed on the map; [src] is [None] for [undefined]. *)
Record MapAsset : Type := mkAsset {
  id : R;
  src : option string;
  x : R;
  y : R;
  rotation : R;
  scale : R;
  flipX : bool;
  w : R;
  h : R
}.

End Asset.

(** ** Labels and tools ([src/types.ts]) *)

Module Label.

Record MapLabel : Type := mkLabel {
  id : R;
  text : string;
  x : R;
  y : R;
  rotation : R;
  curvature : R;
  size : R;
  color : string;
  hasOutline : bool
}.

End Label.

Module Tool.

Inductive ToolType : Type :=
| sculpt | river | sea | paint | path | asset | text | move.

Definition eqb (a b : ToolType) : bool :=
  match a, b with
  | sculpt, sculpt | river, river | sea, sea | paint, paint | path, path
  | asset, asset | text, text | move, move => true
  | _, _ => false
  end.

End Tool.

(** ** The application: tools, selection and hit tests ([App.tsx]) *)

(** [getPaintMode]. *)
Definition getPaintMode (tool : Tool.ToolType) : PaintMode :=
  match tool with
  | Tool.sculpt => terrain
  | Tool.river => river
  | Tool.sea => sea
  | Tool.paint => texture
  | Tool.path => path
  | _ => none
  end.

(** The part of the application state that [setTool] and [handleLoad]
    write. *)
Record ToolState : Type := mkToolState {
  activeTool : Tool.ToolType;
  toolPaintMode : PaintMode;
  selectedAssetId : option R;
  selectedLabelId : option R;
  selectedLibraryAssetIndex : option nat
}.

(** [setTool(t)]: the new state, and the settings drawer, which is
    toggled when the tool is chosen again and opened otherwise. *)
Definition setTool (t : Tool.ToolType) (s : ToolState) (isDrawerOpen : bool)
  : ToolState * bool :=
  if Tool.eqb (activeTool s) t && negb (Tool.eqb t Tool.move)
  then (s, negb isDrawerOpen)
  else (mkToolState t (getPaintMode t) None None None, true).

(** The same part of [INITIAL_STATE]. *)
Definition INITIAL_TOOL_STATE : ToolState :=
  mkToolState Tool.sculpt terrain None None None.

(** The same part of the [state] object of a saved map; a field is
    [None] when the file does not have it. *)
Record SavedToolState : Type := mkSaved {
  savedActiveTool : option Tool.ToolType;
  savedPaintMode : option PaintMode;
  savedSelectedAssetId : option (option R);
  savedSelectedLabelId : option (option R);
  savedSelectedLibraryAssetIndex : option (option nat)
}.

(** [handleLoad]: [{...INITIAL_STATE, ...data.state, activeTool:
    'sculpt', ...}]. *)
Definition handleLoad (data : SavedToolState) : ToolState :=
  let pick {A : Type} (saved : option A) (initial : A) : A :=
    match saved with Some v => v | None => initial end in
  mkToolState Tool.sculpt
              (pick (savedPaintMode data) (toolPaintMode INITIAL_TOOL_STATE))
              (pick (savedSelectedAssetId data)
                    (selectedAssetId INITIAL_TOOL_STATE))
              (pick (savedSelectedLabelId data)
                    (selectedLabelId INITIAL_TOOL_STATE))
              (pick (savedSelectedLibraryAssetIndex data)
                    (selectedLibraryAssetIndex INITIAL_TOOL_STATE)).

(** What [handleSaveFile] writes for that part of the state. *)
Definition handleSaveFile (s : ToolState) : SavedToolState :=
  mkSaved (Some (activeTool s)) (Some (toolPaintMode s))
          (Some (selectedAssetId s)) (Some (selectedLabelId s))
          (Some (selectedLibraryAssetIndex s)).

(** The tool and the paint mode agree. *)
Definition inSync (s : ToolState) : Prop :=
  toolPaintMode s = getPaintMode (activeTool s).

(** The test of [handlePointerDown] for an asset under the point
    [(px, py)]: its box, scaled but not rotated. *)
Definition overAsset (px py : R) (a : Asset.MapAsset) : bool :=
  let halfW := Asset.w a * Asset.scale a / 2 in
  let halfH := Asset.h a * Asset.scale a / 2 in
  (if Rge_dec px (Asset.x a - halfW) then true else false) &&
  (if Rle_dec px (Asset.x a + halfW) then true else false) &&
  (if Rge_dec py (Asset.y a - halfH) then true else false) &&
  (if Rle_dec py (Asset.y a + halfH) then true else false).

(** [[...state.assets].reverse().find(...)]. *)
Definition findAsset (px py : R) (assets : list Asset.MapAsset)
  : option Asset.MapAsset :=
  find (overAsset px py) (rev assets).

(** The test of [handlePointerDown] for a label near the point. *)
Definition nearLabel (px py : R) (l : Label.MapLabel) : bool :=
  if Rlt_dec (JS.hypot (Label.x l - px) (Label.y l - py)) (Label.size l * 3)
  then true else false.

(** [state.labels.find(...)]. *)
Definition findLabel (px py : R) (labels : list Label.MapLabel)
  : option Label.MapLabel :=
  find (nearLabel px py) labels.

(** ** Curved labels ([MapEngine.drawLabels]) *)

(** The loop of [drawLabels] over the characters of a curved label: the
    rotations at which they are drawn, for the widths that [measureText]
    returns for them one after the other. *)
Fixpoint charAngles (anglePerPixel currentAngle : R) (charWidths : list R)
  : list R :=
  match charWidths with
  | [] => []
  | charWidth :: rest =>
    (currentAngle + charWidth / 2 * anglePerPixel)
      :: charAngles anglePerPixel (currentAngle + charWidth * anglePerPixel)
                    rest
  end.

(** The rotations for a label of the given curvature, which is not zero
    on this branch, and the measured width of its whole text. *)
Definition curvedAngles (curvature totalWidth : R) (charWidths : list R)
  : list R :=
  let radius := 1000 / (curvature / 10) in
  let anglePerPixel := 1 / radius in
  charAngles anglePerPixel (- (totalWidth / 2) * anglePerPixel) charWidths.

(** The sum of the widths of the characters. *)
Definition sumWidths (charWidths : list R) : R := fold_right Rplus 0 charWidths.

(** ** The path loop in binary64 ([MapEngine.drawPathSegment]) *)

Module Binary64.

Import PrimFloat.
Local Open Scope float_scope.
#[local] Set Warnings "-inexact-float".

(** [Math.max(1, v)]. *)
Definition max1 (v : float) : float :=
  if is_nan v then v else if ltb 1 v then v else 1.

Section Path.

(** [Math.hypot], whose rounding the language leaves to the
    implementation. *)
Variable hypot : float -> float -> float.

(** [while (currentDist <= dist)]: the positions [(tx, ty)] of the marks
    placed, in order, and the value of [currentDist] when the loop is
    left; [None] when the loop is not left within [fuel] turns. *)
Fixpoint pathLoop (fuel : nat) (x1 y1 nx ny dist spacing currentDist : float)
  : option (list (float * float) * float) :=
  match fuel with
  | O => None
  | S fuel' =>
    if leb currentDist dist then
      let tx := x1 + nx * currentDist in
      let ty := y1 + ny * currentDist in
      match pathLoop fuel' x1 y1 nx ny dist spacing (currentDist + spacing) with
      | Some (marks, final) => Some ((tx, ty) :: marks, final)
      | None => None
      end
    else Some ([], currentDist)
  end.

(** [drawPathSegment(x1, y1, x2, y2, state)] on a bound path layer, for the
    [brushSize] and the [pathSpacing] of the state and the [pathRemainder]
    of the engine: the positions of the marks placed and the
    [pathRemainder] that the call leaves. *)
Definition drawPathSegment (fuel : nat) (x1 y1 x2 y2 : float)
           (brushSize pathSpacing pathRemainder : float)
  : option (list (float * float) * float) :=
  let dx := x2 - x1 in
  let dy := y2 - y1 in
  let dist := hypot dx dy in
  let spacing := max1 (brushSize * pathSpacing) in
  if ltb dist 0.5 then Some ([], pathRemainder)
  else
    let nx := dx / dist in
    let ny := dy / dist in
    match pathLoop fuel x1 y1 nx ny dist spacing pathRemainder with
    | Some (marks, currentDist) => Some (marks, currentDist - dist)
    | None => None
    end.

End Path.

(** A [Math.hypot] that is exact along the axes, as the implementations
    are, and takes the square root of the sum of the squares elsewhere. *)
Definition hypotPlain (dx dy : float) : float :=
  if eqb dy 0 then abs dx
  else if eqb dx 0 then abs dy
       else sqrt (dx * dx + dy * dy).

End Binary64.

(** ** The engine over a browser platform *)

Section Engine.

Set Default Proof Using "Type".

(** The successive results of [Math.random()]. *)
Variable random : nat -> R.

(** Opaque CSS colours (the hexadecimal and named colours the program
    uses as a fill colour), as their red, green and blue channels. *)
Variable css_rgb : string -> R * R * R.

(** The image rendered when a shape is filled with a style. *)
Variable rasterize : Shape -> Style -> raster.

(** Resampling of one channel of a [w] by [h] bitmap drawn at the offset
    [(dx, dy)] after [translate(tx, ty)] and [rotate(rot)]. *)
Variable resample :
  (Z -> Z -> R) -> Z -> Z -> R -> R -> R -> R -> R -> Z -> Z -> R.

(** The shadow cast by a bitmap drawn at [(dx, dy)], for the shadow
    offsets, blur and colour of the context. *)
Variable shadow : Canvas -> Z -> Z -> R -> R -> R -> Rgba -> raster.

(** [canvas.toDataURL()] and the decoding of an image source; [None] is a
    source whose [onload] never fires. *)
Variable DataURL : Type.
Variable toDataURL : Canvas -> DataURL.
Variable decode : DataURL -> option Image.

Definition solid (css : string) : pixel :=
  let '(r, g, b) := css_rgb css in mkPx r g b 1.

(** [drawImage(img, dx, dy)] under a translation and a rotation. *)
Definition image_rotated (img : Canvas) (tx ty rot dx dy : R) : raster :=
  fun px py =>
    let chan f := resample (fun x y => f (getPixel img x y))
                           (width img) (height img) tx ty rot dx dy px py in
    mkPx (chan red) (chan green) (chan blue) (chan alpha).

(** *** StochasticStamp *)

(** One turn of the loop that lays out the rough outline: the points so
    far, [lastR] and the position in the random stream. *)
Definition outline_step (size roughness center : R)
           (acc : list (R * R) * R * nat) (i : nat) : list (R * R) * R * nat :=
  let '(pts, lastR, k) := acc in
  let angle := INR i / 40 * PI * 2 in
  let '(lastR', k') :=
    if Nat.eqb (i mod 3) 0
    then (size + (random k - 0.5) * roughness, S k)
    else (lastR, k) in
  let px := center + cos angle * lastR' in
  let py := center + sin angle * lastR' in
  (pts ++ [(px, py)], lastR', k').

(** The part of [generate] after the cache test: the stamp is drawn
    again and its key stored. *)
Definition redraw (size finalRoughness finalBlurWidth : R)
           (st : StampState) (k : nat) : StampState * nat :=
  let canvasSize := JS.ceil ((size * 1.5 + size) * 2) in
  let center := IZR canvasSize / 2 in
  let '(shape, style, k') :=
    if Rlt_dec 0 finalRoughness then
      let roughness := finalRoughness / 100 * size * 1.5 in
      let '(pts, _, k') :=
        fold_left (outline_step size roughness center) (seq 0 41)
                  ([], size, k) in
      let style :=
        if Rlt_dec finalBlurWidth 95
        then RadialGradient center center 0 center center
                            (size + roughness / 2)
                            [(0, "rgba(255, 255, 255, 1)"%string);
                             (1, "rgba(255, 255, 255, 0)"%string)]
        else Color "white" in
      (Polygon pts, style, k')
    else
      let style :=
        if Rlt_dec finalBlurWidth 95
        then RadialGradient center center 0 center center size
                            [(0, "rgba(255, 255, 255, 1)"%string);
                             (1, "rgba(255, 255, 255, 0)"%string)]
        else Color "white" in
      (Circle center center size, style, k) in
  (mkStamp (Some (paint SourceOver 1 (rasterize shape style)
                        (blank canvasSize canvasSize)))
           (tintCanvas st) size finalRoughness finalBlurWidth,
   k').

(** The cache test of [generate]. *)
Definition same_key (size finalRoughness finalBlurWidth : R)
           (st : StampState) : bool :=
  if Req_dec_T size (lastSize st) then
    if Req_dec_T finalRoughness (lastRoughness st) then
      if Req_dec_T finalBlurWidth (lastBlurWidth st) then true else false
    else false
  else false.

(** [StochasticStamp.generate]. *)
Definition generate (size roughnessPercent blurWidthPercent : R)
           (roughOverride blurOverride : option R)
           (st : StampState) (k : nat) : StampState * nat :=
  let st1 :=
    match offCanvas st with
    | Some _ => st
    | None => mkStamp (Some (blank 300 150)) (tintCanvas st)
                      (lastSize st) (lastRoughness st) (lastBlurWidth st)
    end in
  let finalBlurWidth := JS.orElse blurOverride blurWidthPercent in
  let finalRoughness := JS.orElse roughOverride roughnessPercent in
  if same_key size finalRoughness finalBlurWidth st1 then (st1, k)
  else redraw size finalRoughness finalBlurWidth st1 k.

(** The tint buffer of [drawStamp]: filled with the colour, then cut to
    the stamp with [destination-in]. *)
Definition tinted (color : string) (off : Canvas) : Canvas :=
  paint DestinationIn 1 (image_at off 0 0)
        (paint SourceOver 1 (fun _ _ => solid color)
               (blank (width off) (height off))).

(** [StochasticStamp.drawStamp]: the context drawn on, the stamp
    singleton and the random position after the call. *)
Definition drawStamp (ctx : Context2D) (x y size : R) (color : string)
           (opacity globalRoughness globalBlurWidth : R)
           (roughOverride blurOverride rotation : option R)
           (st : StampState) (k : nat) : Context2D * StampState * nat :=
  let '(st1, k1) :=
    generate size globalRoughness globalBlurWidth roughOverride blurOverride
             st k in
  match offCanvas st1 with
  | None => (ctx, st1, k1)
  | Some off =>
    let tint := tinted color off in
    let '(rot, k2) :=
      match rotation with
      | Some r => (r, k1)
      | None => (random k1 * PI * 2, S k1)
      end in
    let half := IZR (width tint) / 2 in
    (withCanvas (paint (globalCompositeOperation ctx) opacity
                       (image_rotated tint x y rot (- half) (- half))
                       (canvas ctx)) ctx,
     mkStamp (offCanvas st1) (Some tint)
             (lastSize st1) (lastRoughness st1) (lastBlurWidth st1),
     k2)
  end.

(** *** MapEngine: the texture layer *)

(** The dirty box [(lft, top, size)] when all three arguments are given. *)
Definition dirty_box (dirtyX dirtyY dirtyR : option R) : option (Z * Z * Z) :=
  match dirtyX, dirtyY, dirtyR with
  | Some x, Some y, Some r =>
    Some (JS.floor (x - r), JS.floor (y - r), JS.ceil (r * 2))
  | _, _, _ => None
  end.

(** The rectangle [(drawX, drawY, drawW, drawH)] that is recomputed on a
    [w] by [h] layer; [None] when the dirty box is completely off
    screen. *)
Definition draw_rect (w h : Z) (box : option (Z * Z * Z))
  : option (Z * Z * Z * Z) :=
  match box with
  | None => Some (0, 0, w, h)%Z
  | Some (lft, top, size) =>
    let startX := Z.max 0 lft in
    let startY := Z.max 0 top in
    let endX := Z.min w (lft + size) in
    let endY := Z.min h (top + size) in
    if ((endX <=? startX) || (endY <=? startY))%Z then None
    else Some (startX, startY, endX - startX, endY - startY)%Z
  end.

(** [createPattern(img, 'repeat')] is [null] for an image without
    pixels. *)
Definition createPattern (img : Image) : option Style :=
  if ((0 <? width img) && (0 <? height img))%Z then Some (Pattern img)
  else None.

(** The pixel of the repeating pattern anchored at the canvas origin. *)
Definition pattern_pixel (img : Image) (px py : Z) : pixel :=
  getPixel img (px mod width img) (py mod height img).

(** The image rendered by [fillRect(x, y, w, h)] with a pattern style. *)
Definition pattern_rect (img : Image) (x y w h : Z) : raster :=
  fun px py => if in_rect x y w h px py then pattern_pixel img px py
               else transparent.

(** [renderTextureLayer(dirtyX?, dirtyY?, dirtyR?)]. *)
Definition renderTextureLayer (dirtyX dirtyY dirtyR : option R)
           (e : MapEngine) : MapEngine :=
  match textureLayerCtx e with
  | None => e
  | Some ctx =>
    match currentTextureImg e with
    | None =>
      match dirty_box dirtyX dirtyY dirtyR with
      | Some (lft, top, size) =>
        setTextureLayerCtx
          (withCanvas (clearRect lft top size size (canvas ctx)) ctx) e
      | None =>
        setTextureLayerCtx
          (withCanvas (clearRect 0 0 (width (canvas ctx))
                                 (height (canvas ctx)) (canvas ctx)) ctx) e
      end
    | Some img =>
      let w := width (canvas ctx) in
      let h := height (canvas ctx) in
      match draw_rect w h (dirty_box dirtyX dirtyY dirtyR) with
      | None => e
      | Some (drawX, drawY, drawW, drawH) =>
        let c1 := clearRect drawX drawY drawW drawH (canvas ctx) in
        let c2 :=
          match createPattern img with
          | Some _ =>
            paint (globalCompositeOperation ctx) (globalAlpha ctx)
                  (pattern_rect img drawX drawY drawW drawH) c1
          | None => c1
          end in
        let c3 :=
          paint DestinationIn (globalAlpha ctx)
                (image_slice (canvas (textureMaskCtx e))
                             drawX drawY drawW drawH drawX drawY) c2 in
        let c4 :=
          paint DestinationIn (globalAlpha ctx)
                (image_slice (canvas (maskCtx e))
                             drawX drawY drawW drawH drawX drawY) c3 in
        setTextureLayerCtx (withCanvas c4 ctx) e
      end
    end
  end.

(** *** MapEngine: shallow water *)

Definition OFFSET : Z := 20000.

(** One [drawImage(maskCanvas, -OFFSET, 0)] on the water layer with the
    shadow settings in force: the shadow first, then the image. *)
Definition drawMaskShadow (mask : Canvas) (color : Rgba) (blur : R)
           (ctx : Context2D) (c : Canvas) : Canvas :=
  paint (globalCompositeOperation ctx) (globalAlpha ctx)
        (image_at mask (- OFFSET) 0)
        (paint (globalCompositeOperation ctx) (globalAlpha ctx)
               (shadow mask (- OFFSET) 0 (IZR OFFSET) 0 blur color) c).

(** [updateShallowWater(shallowColor, isEnabled)]. *)
Definition updateShallowWater (shallowColor : string) (isEnabled : bool)
           (e : MapEngine) : MapEngine :=
  match waterCtx e with
  | None => e
  | Some ctx =>
    let w := width (canvas ctx) in
    let h := height (canvas ctx) in
    let c0 := clearRect 0 0 w h (canvas ctx) in
    if negb isEnabled then setWaterCtx (withCanvas c0 ctx) e
    else
      let mask := canvas (maskCtx e) in
      let shelf := hexToRgba shallowColor 1 in
      let c1 := drawMaskShadow mask shelf 35 ctx c0 in
      let c2 := drawMaskShadow mask shelf 35 ctx c1 in
      let c3 := drawMaskShadow mask shelf 35 ctx c2 in
      let c4 := drawMaskShadow mask (hexToRgba shallowColor 0.4) 80 ctx c3 in
      setWaterCtx (withCanvas c4 ctx) e
  end.

(** *** MapEngine: painting *)

(** [drawToMask]. *)
Definition drawToMask (x y radius : R) (state : AppState) (rotation : R)
           (e : MapEngine) (st : StampState) (k : nat)
  : MapEngine * StampState * nat :=
  let '(mask, st1, k1) :=
    drawStamp (maskCtx e) x y radius "black" 1 (roughness state)
              (blurWidth state) None (Some 95) (Some rotation) st k in
  (setMaskCtx mask e, st1, k1).

(** [eraseFromMask]. *)
Definition eraseFromMask (x y radius : R) (state : AppState) (rotation : R)
           (e : MapEngine) (st : StampState) (k : nat)
  : MapEngine * StampState * nat :=
  let '(mask, st1, k1) :=
    drawStamp (withOperation DestinationOut (maskCtx e)) x y radius "black" 1
              (roughness state) (blurWidth state) None (Some 100)
              (Some rotation) st k in
  (setMaskCtx (restoreState (maskCtx e) mask) e, st1, k1).

(** [if (state.activeTexture)]: neither [null] nor the empty string. *)
Definition truthy (s : option string) : bool :=
  match s with
  | Some (String _ _) => true
  | _ => false
  end.

(** The organic-river update of [riverState] for a dab at [(x, y)]: the
    new state, the stamp radius and the random position. *)
Definition organicRiver (x y radius : R) (rs : RiverState) (k : nat)
  : RiverState * R * nat :=
  let dist := JS.hypot (x - lastX rs) (y - lastY rs) in
  let traveled := traveledSinceChange rs + dist in
  let '(target, distNext, traveled', k') :=
    if Rge_dec traveled (distToNextChange rs)
    then (0.6 + random k * 0.5, 20 + random (S k) * 40, 0, S (S k))
    else (targetWidthFactor rs, distToNextChange rs, traveled, k) in
  let current :=
    currentWidthFactor rs + (target - currentWidthFactor rs) * 0.15 in
  (mkRiver current target distNext traveled' (lastX rs) (lastY rs),
   radius * current, k').

(** The branch of [applyPaint] for the paint mode, on a bound map
    layer. *)
Definition paintDab (x y : R) (state : AppState) (map : Context2D)
           (wd : World) : World :=
  let e := engine wd in
  let opacity := brushBlur state / 100 in
  let radius := brushSize state in
  let updateRad := radius * 3 in
  match paintMode state with
  | terrain =>
    let syncRotation := random (seed wd) * PI * 2 in
    let '(e1, st1, k1) :=
      drawToMask x y radius state syncRotation e (stamp wd) (S (seed wd)) in
    let '(map1, st2, k2) :=
      drawStamp map x y radius (terrainColor state) opacity
                (roughness state) (blurWidth state) None (Some 95)
                (Some syncRotation) st1 k1 in
    mkWorld (renderTextureLayer (Some x) (Some y) (Some updateRad)
                                (setMapCtx map1 e1))
            st2 k2
  | river =>
    let '(rs, fr, k0) :=
      if isOrganicRiver state
      then organicRiver x y radius (riverState e) (seed wd)
      else (riverState e, radius, seed wd) in
    let syncRotation := random k0 * PI * 2 in
    let '(e1, st1, k1) :=
      eraseFromMask x y fr state syncRotation (setRiverState rs e)
                    (stamp wd) (S k0) in
    let '(map1, st2, k2) :=
      drawStamp (withOperation DestinationOut map) x y fr "black" 1
                (roughness state) (blurWidth state) None (Some 100)
                (Some syncRotation) st1 k1 in
    mkWorld (renderTextureLayer (Some x) (Some y) (Some (fr * 3))
                                (setMapCtx (restoreState map map1) e1))
            st2 k2
  | texture =>
    if truthy (activeTexture state) then
      let op := if isTextureEraser state then DestinationOut
                else SourceOver in
      let '(tm, st1, k1) :=
        drawStamp (withOperation op (textureMaskCtx e)) x y radius "white"
                  opacity (roughness state) (blurWidth state) (Some 0)
                  (Some (blurWidth state)) None (stamp wd) (seed wd) in
      mkWorld (renderTextureLayer (Some x) (Some y) (Some updateRad)
                 (setTextureMaskCtx (restoreState (textureMaskCtx e) tm) e))
              st1 k1
    else
      let '(map1, st1, k1) :=
        drawStamp (withOperation SourceAtop map) x y radius
                  (selectedTexture state) opacity (roughness state)
                  (blurWidth state) (Some 0) (Some (blurWidth state)) None
                  (stamp wd) (seed wd) in
      mkWorld (setMapCtx (restoreState map map1) e) st1 k1
  | _ => wd
  end.

(** [applyPaint(x, y, state)]. *)
Definition applyPaint (x y : R) (state : AppState) (wd : World) : World :=
  match mapCtx (engine wd) with
  | None => wd
  | Some map =>
    let wd1 := paintDab x y state map wd in
    let rs := riverState (engine wd1) in
    mkWorld (setRiverState
               (mkRiver (currentWidthFactor rs) (targetWidthFactor rs)
                        (distToNextChange rs) (traveledSinceChange rs) x y)
               (engine wd1))
            (stamp wd1) (seed wd1)
  end.

(** *** MapEngine: paths *)

(** The mark placed at the distance [currentDist] along the segment. *)
Definition pathMark (state : AppState) (x1 y1 nx ny angle currentDist : R)
  : Shape :=
  let tx := x1 + nx * currentDist in
  let ty := y1 + ny * currentDist in
  match pathStyle state with
  | dashed =>
    let length := brushSize state in
    let thickness := brushSize state / 2.5 in
    RotatedRect tx ty angle (- length / 2) (- thickness / 2) length thickness
  | dots => Circle tx ty (brushSize state / 2)
  end.

(** Where a mark is placed. *)
Definition markPosition (m : Shape) : R * R :=
  match m with
  | Circle cx cy _ => (cx, cy)
  | RotatedRect tx ty _ _ _ _ _ => (tx, ty)
  | Polygon _ => (0, 0)
  end.

(** [while (currentDist <= dist)]: the marks placed, in order, and the
    value of [currentDist] when the loop is left.  Distances are exact
    reals here, which is what the properties of the layers need;
    [Binary64.pathLoop] is the loop as binary64 runs it, where the
    rounding of [currentDist] decides whether a mark at the very end of a
    segment is placed. *)
Fixpoint pathLoop (fuel : nat) (mark : R -> Shape)
         (dist spacing currentDist : R) : list Shape * R :=
  match fuel with
  | O => ([], currentDist)
  | S fuel' =>
    if Rle_dec currentDist dist then
      let '(marks, final) :=
        pathLoop fuel' mark dist spacing (currentDist + spacing) in
      (mark currentDist :: marks, final)
    else ([], currentDist)
  end.

(** A number of turns after which the loop has been left: the spacing is
    at least 1. *)
Definition pathFuel (dist currentDist : R) : nat :=
  Z.to_nat (up (dist - currentDist)).

(** The marks of one segment and the remainder it leaves, for the
    remainder it starts with, in exact arithmetic
    ([Binary64.drawPathSegment] in binary64). *)
Definition segmentMarks (x1 y1 x2 y2 : R) (state : AppState) (remainder : R)
  : list Shape * R :=
  let dx := x2 - x1 in
  let dy := y2 - y1 in
  let dist := JS.hypot dx dy in
  let spacing := Rmax 1 (brushSize state * pathSpacing state) in
  let nx := dx / dist in
  let ny := dy / dist in
  let angle := JS.atan2 dy dx in
  let '(marks, currentDist) :=
    pathLoop (pathFuel dist remainder)
             (pathMark state x1 y1 nx ny angle) dist spacing remainder in
  (marks, currentDist - dist).

(** Filling one mark on the path layer. *)
Definition fillMark (ctx : Context2D) (c : Canvas) (m : Shape) : Canvas :=
  paint (globalCompositeOperation ctx) (globalAlpha ctx)
        (rasterize m (fillStyle ctx)) c.

(** [drawPathSegment(x1, y1, x2, y2, state)]. *)
Definition drawPathSegment (x1 y1 x2 y2 : R) (state : AppState)
           (e : MapEngine) : MapEngine :=
  match pathCtx e with
  | None => e
  | Some ctx =>
    let dist := JS.hypot (x2 - x1) (y2 - y1) in
    if Rlt_dec dist 0.5 then e
    else
      let ctx1 := mkCtx (canvas ctx) (brushBlur state / 100)
                        (globalCompositeOperation ctx)
                        (Color (pathColor state)) in
      let '(marks, remainder) :=
        segmentMarks x1 y1 x2 y2 state (pathRemainder e) in
      setPath (withCanvas (fold_left (fillMark ctx1) marks (canvas ctx1)) ctx1)
              remainder e
  end.

(** *** MapEngine: snapshots *)

Record Snapshot : Type := mkSnapshot {
  snap_map : DataURL;
  snap_mask : DataURL;
  snap_textureMask : option DataURL;
  snap_path : DataURL
}.

(** [getSnapshot()]; reading the canvas of an unbound path layer
    throws. *)
Definition getSnapshot (e : MapEngine) : JS.outcome (option Snapshot) :=
  match mapCtx e with
  | None => JS.Returned None
  | Some map =>
    match pathCtx e with
    | None => JS.Thrown
    | Some pth =>
      JS.Returned
        (Some (mkSnapshot (toDataURL (canvas map))
                          (toDataURL (canvas (maskCtx e)))
                          (Some (toDataURL (canvas (textureMaskCtx e))))
                          (toDataURL (canvas pth))))
    end
  end.

(** The layers that [loadSnapshot] restores. *)
Inductive Layer : Type := MapLayer | PathLayer | MaskLayer | TextureMaskLayer.

(** The [onload] handler that [loadLayer] installs: clear, draw the
    decoded image, and for the two masks render the texture layer. *)
Definition onload (layer : Layer) (img : Image) (w h : Z) (e : MapEngine)
  : MapEngine :=
  let draw ctx :=
    withCanvas (paint (globalCompositeOperation ctx) (globalAlpha ctx)
                      (image_at img 0 0)
                      (clearRect 0 0 w h (canvas ctx))) ctx in
  match layer with
  | MapLayer =>
    match mapCtx e with
    | Some ctx => setMapCtx (draw ctx) e
    | None => e
    end
  | PathLayer =>
    match pathCtx e with
    | Some ctx => setPath (draw ctx) (pathRemainder e) e
    | None => e
    end
  | MaskLayer =>
    renderTextureLayer None None None (setMaskCtx (draw (maskCtx e)) e)
  | TextureMaskLayer =>
    renderTextureLayer None None None
                       (setTextureMaskCtx (draw (textureMaskCtx e)) e)
  end.

(** [loadSnapshot(snap, w, h)]: the engine when the call returns and the
    image loads it has started. *)
Definition loadSnapshot (snap : Snapshot) (w h : Z) (e : MapEngine)
  : MapEngine * list (Layer * DataURL) :=
  let l1 := match mapCtx e with
            | Some _ => [(MapLayer, snap_map snap)]
            | None => []
            end in
  let l2 := match pathCtx e with
            | Some _ => [(PathLayer, snap_path snap)]
            | None => []
            end in
  let l3 := [(MaskLayer, snap_mask snap)] in
  match snap_textureMask snap with
  | Some src => (e, l1 ++ l2 ++ l3 ++ [(TextureMaskLayer, src)])
  | None =>
    (setTextureMaskCtx
       (withCanvas (clearRect 0 0 w h (canvas (textureMaskCtx e)))
                   (textureMaskCtx e)) e,
     l1 ++ l2 ++ l3)
  end.

(** One image finishing to load. *)
Definition loaded (w h : Z) (e : MapEngine) (p : Layer * DataURL)
  : MapEngine :=
  match decode (snd p) with
  | Some img => onload (fst p) img w h e
  | None => e
  end.

(** The engine once the started loads have finished in the order
    [order]. *)
Definition settle (w h : Z) (order : list (Layer * DataURL))
           (e : MapEngine) : MapEngine :=
  fold_left (loaded w h) order e.

(** *** Comparing engines *)

(** Two states of a layer that show the same pixels in the same drawing
    state. *)
Definition same_layer (a b : option Context2D) : Prop :=
  match a, b with
  | Some c1, Some c2 =>
    same_pixels (canvas c1) (canvas c2) /\
    globalAlpha c1 = globalAlpha c2 /\
    globalCompositeOperation c1 = globalCompositeOperation c2 /\
    fillStyle c1 = fillStyle c2
  | None, None => True
  | _, _ => False
  end.

(** No layer is bound: the engine before [init]. *)
Definition unbound (e : MapEngine) : Prop :=
  mapCtx e = None /\ waterCtx e = None /\ textureLayerCtx e = None /\
  pathCtx e = None /\ assetCtx e = None /\ textCtx e = None.

(** The image that [drawStamp] composites for a tint colour, a stamp
    mask, a position and a rotation. *)
Definition stampImage (color : string) (off : Canvas) (x y rot : R) : raster :=
  let tint := tinted color off in
  image_rotated tint x y rot (- (IZR (width tint) / 2))
                (- (IZR (width tint) / 2)).

(** The pixels that receive paint when an image is composited with a
    global alpha. *)
Definition painted (ga : R) (a : raster) (px py : Z) : Prop :=
  0 < alpha (scale ga (a px py)).

(** The context of a layer that [loadSnapshot] restores. *)
Definition layerCtx (l : Layer) (e : MapEngine) : option Context2D :=
  match l with
  | MapLayer => mapCtx e
  | PathLayer => pathCtx e
  | MaskLayer => Some (maskCtx e)
  | TextureMaskLayer => Some (textureMaskCtx e)
  end.

(** What [onload] draws on the context of its layer. *)
Definition redrawn (img : Image) (w h : Z) (ctx : Context2D) : Context2D :=
  withCanvas (paint (globalCompositeOperation ctx) (globalAlpha ctx)
                    (image_at img 0 0) (clearRect 0 0 w h (canvas ctx))) ctx.

(** The encoding of a canvas decodes to an image that shows the same
    pixels. *)
Definition lossless : Prop :=
  forall c, exists img, decode (toDataURL c) = Some img /\ same_pixels img c.

(** The drawing state of a context that the engine relies on. *)
Definition drawingState (ctx : Context2D) : R * composite :=
  (globalAlpha ctx, globalCompositeOperation ctx).

(** *** MapEngine: the remaining entry points *)

(** The assignment [engine.pathRemainder = 0] with which the application
    starts and ends a path stroke. *)
Definition setPathRemainder (remainder : R) (e : MapEngine) : MapEngine :=
  mkEngine (mapCtx e) (waterCtx e) (textureLayerCtx e) (pathCtx e)
           (assetCtx e) (textCtx e) (maskCtx e) (textureMaskCtx e)
           (currentTextureImg e) remainder (riverState e).

(** [setGlobalTexture(src)] from the point where the image of [src] is
    there: [None] stands for a [null] or empty source, for which no image
    is loaded. *)
Definition setGlobalTexture (img : option Image) (e : MapEngine) : MapEngine :=
  renderTextureLayer None None None (setCurrentTextureImg img e).

(** The image rendered by [fillRect(x, y, w, h)] with a colour. *)
Definition color_rect (css : string) (x y w h : Z) : raster :=
  fun px py => if in_rect x y w h px py then solid css else transparent.

(** [drawImage(layer.canvas, 0, 0)] for a layer that is bound. *)
Definition drawLayer (layer : option Context2D) (c : Canvas) : Canvas :=
  match layer with
  | Some ctx => paint SourceOver 1 (image_at (canvas ctx) 0 0) c
  | None => c
  end.

(** [exportImage]: the flattened canvas that is encoded and downloaded,
    for the ocean texture once it has loaded; [None] when the map layer is
    not bound. *)
Definition exportImage (oceanColor : string) (oceanTexture : option Image)
           (e : MapEngine) : option Canvas :=
  match mapCtx e with
  | None => None
  | Some map =>
    let w := width (canvas map) in
    let h := height (canvas map) in
    let c0 := paint SourceOver 1 (color_rect oceanColor 0 0 w h) (blank w h) in
    let c1 :=
      match oceanTexture with
      | Some img =>
        match createPattern img with
        | Some _ => paint SourceOver 1 (pattern_rect img 0 0 w h) c0
        | None => c0
        end
      | None => c0
      end in
    Some (drawLayer (textCtx e)
            (drawLayer (assetCtx e)
               (drawLayer (pathCtx e)
                  (drawLayer (textureLayerCtx e)
                     (drawLayer (mapCtx e)
                        (drawLayer (waterCtx e) c1))))))
  end.

(** The layers that [exportImage] draws over the ocean, in its order. *)
Definition exportLayers (e : MapEngine) : list (option Context2D) :=
  [waterCtx e; mapCtx e; textureLayerCtx e; pathCtx e; assetCtx e; textCtx e].

(** What a layer shows at a pixel; nothing when it is not bound. *)
Definition layerPixel (layer : option Context2D) (x y : Z) : pixel :=
  match layer with
  | Some ctx => getPixel (canvas ctx) x y
  | None => transparent
  end.

(** *** The life of an engine *)

(** One call on the engine that does not involve the stamp: a path
    segment, the reset of the path remainder, the shallow water, a change
    of texture, a rendering of the texture layer, the start of a restore
    and the arrival of one of its images. *)
Inductive engine_step (w h : Z) (e : MapEngine) : MapEngine -> Prop :=
| step_path (x1 y1 x2 y2 : R) (state : AppState) :
    engine_step w h e (drawPathSegment x1 y1 x2 y2 state e)
| step_pathReset :
    engine_step w h e (setPathRemainder 0 e)
| step_water (shallowColor : string) (isEnabled : bool) :
    engine_step w h e (updateShallowWater shallowColor isEnabled e)
| step_texture (img : option Image) :
    engine_step w h e (setGlobalTexture img e)
| step_render (dirtyX dirtyY dirtyR : option R) :
    engine_step w h e (renderTextureLayer dirtyX dirtyY dirtyR e)
| step_loadSnapshot (snap : Snapshot) :
    engine_step w h e (fst (loadSnapshot snap w h e))
| step_loaded (p : Layer * DataURL) :
    engine_step w h e (loaded w h e p).

(** The worlds that the application can reach with an engine initialised
    for a [w] by [h] map, by the calls modelled here; [resize], which no
    caller uses, and the renderers of assets and labels are not among
    them. *)
Inductive reachable : Z -> Z -> World -> Prop :=
| reach_init (w h : Z) :
    reachable w h (mkWorld (init w h newMapEngine) StochasticStamp0 0)
| reach_reinit (w h w' h' : Z) (wd : World) :
    reachable w' h' wd ->
    reachable w h (mkWorld (init w h (engine wd)) (stamp wd) (seed wd))
| reach_paint (w h : Z) (wd : World) (x y : R) (state : AppState) :
    reachable w h wd ->
    reachable w h (applyPaint x y state wd)
| reach_step (w h : Z) (wd : World) (e' : MapEngine) :
    reachable w h wd ->
    engine_step w h (engine wd) e' ->
    reachable w h (mkWorld e' (stamp wd) (seed wd)).

(** The size of the canvas of a context and the drawing state the engine
    relies on. *)
Definition layerShape (ctx : Context2D) : R * composite * Z * Z :=
  (globalAlpha ctx, globalCompositeOperation ctx,
   width (canvas ctx), height (canvas ctx)).

(** What every call keeps: the layers are bound and [w] by [h]; the map
    layer, the texture layer and the two masks are in the initial drawing
    state; the path layer composites with source-over; the path remainder
    is not negative. *)
Definition wellFormed (w h : Z) (e : MapEngine) : Prop :=
  option_map layerShape (mapCtx e) = Some (1, SourceOver, w, h) /\
  option_map layerShape (textureLayerCtx e) = Some (1, SourceOver, w, h) /\
  layerShape (maskCtx e) = (1, SourceOver, w, h) /\
  layerShape (textureMaskCtx e) = (1, SourceOver, w, h) /\
  (exists ctx, pathCtx e = Some ctx /\
               globalCompositeOperation ctx = SourceOver /\
               width (canvas ctx) = w /\ height (canvas ctx) = h) /\
  (exists ctx, waterCtx e = Some ctx /\
               width (canvas ctx) = w /\ height (canvas ctx) = h) /\
  assetCtx e <> None /\ textCtx e <> None /\
  0 <= pathRemainder e.

(** The parts of the engine that a dab has no business with. *)
Definition besidesPaint (e : MapEngine)
  : option Context2D * option Context2D * option Context2D *
    option Context2D * R * option Image :=
  (waterCtx e, pathCtx e, assetCtx e, textCtx e, pathRemainder e,
   currentTextureImg e).

(** The pixel that the texture layer shows when it agrees with the
    pattern and the two masks. *)
Definition texturePixel (e : MapEngine) (x y : Z) : pixel :=
  match currentTextureImg e with
  | Some img =>
    scale (alpha (getPixel (canvas (maskCtx e)) x y))
          (scale (alpha (getPixel (canvas (textureMaskCtx e)) x y))
                 (pattern_pixel img x y))
  | None => transparent
  end.

(** The texture layer agrees with the pattern and the two masks. *)
Definition textureConsistent (e : MapEngine) : Prop :=
  match textureLayerCtx e with
  | Some ctx => forall x y, getPixel (canvas ctx) x y =
                            if inside (canvas ctx) x y then texturePixel e x y
                            else transparent
  | None => True
  end.

(** An image of a restore arrives for one of the two masks. *)
Definition maskArrives (order : list (Layer * DataURL)) : Prop :=
  exists l src img,
    In (l, src) order /\ (l = MaskLayer \/ l = TextureMaskLayer) /\
    decode src = Some img.

(** Alpha values between 0 and 1. *)
Definition unitAlpha (a : raster) : Prop :=
  forall px py, 0 <= alpha (a px py) <= 1.

(** A platform whose rasteriser and whose resampling keep alpha between 0
    and 1. *)
Definition unitPlatform : Prop :=
  (forall sh st, unitAlpha (rasterize sh st)) /\
  (forall chan w h tx ty rot dx dy px py,
      (forall x y, 0 <= chan x y <= 1) ->
      0 <= resample chan w h tx ty rot dx dy px py <= 1).

(** The cached stamp mask, if there is one, has alpha between 0 and 1. *)
Definition unitStamp (st : StampState) : Prop :=
  match offCanvas st with
  | Some off => unitAlpha (pix off)
  | None => True
  end.

(** *** The application: history ([App.tsx]) *)

(** An entry of the undo and redo stacks.  The assets and the labels are
    copied with [JSON.parse(JSON.stringify(...))], which gives back an
    equal value as long as the numbers are finite; the labels play no part
    here and are kept as a value of any type. *)
Record HistoryEntry (Labels : Type) : Type := mkEntry {
  layers : Snapshot;
  assets : list Asset.MapAsset;
  labels : Labels
}.
Arguments mkEntry {Labels} layers assets labels.
Arguments layers {Labels} _.
Arguments assets {Labels} _.
Arguments labels {Labels} _.

(** [undoStack.current] and [redoStack.current]: arrays whose last
    element is the top of the stack. *)
Record History (Labels : Type) : Type := mkHistory {
  undoStack : list (HistoryEntry Labels);
  redoStack : list (HistoryEntry Labels)
}.
Arguments mkHistory {Labels} undoStack redoStack.
Arguments undoStack {Labels} _.
Arguments redoStack {Labels} _.

(** [Array.prototype.pop]: the array without its last element, and that
    element. *)
Definition pop {A : Type} (l : list A) : option (list A * A) :=
  match rev l with
  | [] => None
  | a :: r => Some (rev r, a)
  end.

(** [saveHistory]: the two stacks after the call, which are these also
    when [getSnapshot] throws. *)
Definition saveHistory {Labels : Type} (stateAssets : list Asset.MapAsset)
           (stateLabels : Labels) (e : MapEngine) (hist : History Labels)
  : History Labels :=
  match getSnapshot e with
  | JS.Returned (Some snap) =>
    let undo := undoStack hist ++ [mkEntry snap stateAssets stateLabels] in
    mkHistory (if (20 <? List.length undo)%nat then tl undo else undo) []
  | _ => mkHistory (undoStack hist) []
  end.

(** [handleUndo] and [handleRedo]: the stacks after the call and the
    entry handed to [applyHistoryState], if there is one. *)
Definition handleUndo {Labels : Type} (stateAssets : list Asset.MapAsset)
           (stateLabels : Labels) (e : MapEngine) (hist : History Labels)
  : History Labels * option (HistoryEntry Labels) :=
  match undoStack hist with
  | [] => (hist, None)
  | _ :: _ =>
    match getSnapshot e with
    | JS.Thrown => (hist, None)
    | JS.Returned snap =>
      let redo :=
        match snap with
        | Some sn => redoStack hist ++ [mkEntry sn stateAssets stateLabels]
        | None => redoStack hist
        end in
      match pop (undoStack hist) with
      | Some (undo, prev) => (mkHistory undo redo, Some prev)
      | None => (mkHistory [] redo, None)
      end
    end
  end.

Definition handleRedo {Labels : Type} (stateAssets : list Asset.MapAsset)
           (stateLabels : Labels) (e : MapEngine) (hist : History Labels)
  : History Labels * option (HistoryEntry Labels) :=
  match redoStack hist with
  | [] => (hist, None)
  | _ :: _ =>
    match getSnapshot e with
    | JS.Thrown => (hist, None)
    | JS.Returned snap =>
      let undo :=
        match snap with
        | Some sn => undoStack hist ++ [mkEntry sn stateAssets stateLabels]
        | None => undoStack hist
        end in
      match pop (redoStack hist) with
      | Some (redo, next) => (mkHistory undo redo, Some next)
      | None => (mkHistory undo [], None)
      end
    end
  end.

(** The part of [applyHistoryState] that concerns the engine. *)
Definition applyHistoryState {Labels : Type} (entry : HistoryEntry Labels)
           (canvasWidth canvasHeight : Z) (e : MapEngine)
  : MapEngine * list (Layer * DataURL) :=
  loadSnapshot (layers entry) canvasWidth canvasHeight e.

(** The two stacks together never hold more than twenty entries. *)
Definition withinLimit {Labels : Type} (hist : History Labels) : Prop :=
  (List.length (undoStack hist) + List.length (redoStack hist) <= 20)%nat.

(** *** The application: the asset brush ([App.tsx]) *)

Record AssetBrushSettings : Type := mkAssetBrush {
  density : R;
  sizeVariation : R;
  brushRadius : R;
  baseScale : R;
  placeOnTop : bool
}.

(** [array[index]] for an index that [Math.floor] returned. *)
Definition at_index {A : Type} (l : list A) (i : Z) : option A :=
  if (i <? 0)%Z then None else nth_error l (Z.to_nat i).

(** One turn of the loop of [paintAssets]: the asset number [i] of a
    batch, made from six results of [Math.random()] starting at [k];
    [now] is what [Date.now()] returns in this turn and [round64] the
    rounding of a real number to binary64.  The identifier
    [Date.now() + i + Math.random()] is the sum as binary64 rounds it,
    first [Date.now() + i] and then the random number: at the size of a
    time in milliseconds the random number keeps few of its digits, and
    two identifiers of a batch can be equal. *)
Definition scatterAsset (round64 : R -> R) (settings : AssetBrushSettings)
           (indices : list nat) (assetLibrary : list string)
           (now cx cy : R) (i k : nat) : Asset.MapAsset :=
  let randIdx :=
    at_index indices (JS.floor (random k * INR (List.length indices))) in
  let src :=
    match randIdx with
    | Some j => nth_error assetLibrary j
    | None => None
    end in
  let angle := random (k + 1) * PI * 2 in
  let r := sqrt (random (k + 2)) * brushRadius settings in
  let x := cx + cos angle * r in
  let y := cy + sin angle * r in
  let base :=
    (if Req_dec_T (baseScale settings) 0 then 100 else baseScale settings)
    / 100 in
  let varFactor := (random (k + 3) * 2 - 1) * (sizeVariation settings / 100) in
  let scale := base * (1 + varFactor) in
  Asset.mkAsset (round64 (round64 (now + INR i) + random (k + 4)))
          src x y 0 (Rmax 0.1 scale)
          (if Rgt_dec (random (k + 5)) 0.5 then true else false) 0 0.

(** [paintAssets(cx, cy, distanceTraveled)]: [None] when it returns
    without painting, otherwise the batch of new assets, before their
    images are measured, and the position in the random stream.  A density
    of zero makes the threshold infinite; [now i] is what [Date.now()]
    returns in the turn [i] of the loop. *)
Definition paintAssets (round64 : R -> R) (settings : AssetBrushSettings)
           (indices : list nat) (assetLibrary : list string)
           (now : nat -> R) (cx cy distanceTraveled : R) (k : nat)
  : option (list Asset.MapAsset * nat) :=
  match indices with
  | [] => None
  | _ :: _ =>
    if Req_dec_T (density settings) 0 then None
    else if Rlt_dec distanceTraveled (50 / density settings) then None
    else
      let count := Z.to_nat (JS.ceil (density settings / 2)) in
      Some (List.map (fun i => scatterAsset round64 settings indices
                                            assetLibrary
                                            (now i) cx cy i (k + 6 * i))
                     (seq 0 count),
            (k + 6 * count)%nat)
  end.

(** The state update once the images of a batch are measured. *)
Definition addAssets (settings : AssetBrushSettings)
           (loadedAssets stateAssets : list Asset.MapAsset) : list Asset.MapAsset :=
  if placeOnTop settings then stateAssets ++ loadedAssets
  else loadedAssets ++ stateAssets.

(** *** The application: pinch zoom ([App.tsx]) *)

(** What [handlePointerDown] records when the second pointer lands. *)
Record PinchStart : Type := mkPinch {
  pinchStartDist : R;
  pinchStartZoom : R;
  pinchStartOffset : R * R;
  pinchStartCenter : R * R
}.

Definition pinchStart (zoom offsetX offsetY : R) (p1 p2 : R * R)
  : PinchStart :=
  mkPinch (JS.hypot (fst p2 - fst p1) (snd p2 - snd p1)) zoom
          (offsetX, offsetY)
          ((fst p1 + fst p2) / 2, (snd p1 + snd p2) / 2).

(** The pinch branch of [processPointerMove], taken with the move tool,
    two pointers down and a positive starting distance: the new zoom and
    the new offset. *)
Definition pinchMove (start : PinchStart) (p1 p2 : R * R) : R * (R * R) :=
  let dist := JS.hypot (fst p2 - fst p1) (snd p2 - snd p1) in
  let cx := (fst p1 + fst p2) / 2 in
  let cy := (snd p1 + snd p2) / 2 in
  let scale := dist / pinchStartDist start in
  let newZoom := Rmin 5 (Rmax 0.1 (pinchStartZoom start * scale)) in
  let wx := (fst (pinchStartCenter start) - fst (pinchStartOffset start))
            / pinchStartZoom start in
  let wy := (snd (pinchStartCenter start) - snd (pinchStartOffset start))
            / pinchStartZoom start in
  (newZoom, (cx - wx * newZoom, cy - wy * newZoom)).

(** ** Properties *)

(** *** The stamp cache *)

Lemma same_key_spec (size fr fb : R) (st : StampState) :
  same_key size fr fb st = true <->
  size = lastSize st /\ fr = lastRoughness st /\ fb = lastBlurWidth st.
Proof.
  unfold same_key.
  destruct (Req_dec_T size (lastSize st));
    destruct (Req_dec_T fr (lastRoughness st));
    destruct (Req_dec_T fb (lastBlurWidth st));
    split; intros H; try discriminate; try tauto.
Qed.

Lemma redraw_key (size fr fb : R) (st : StampState) (k : nat) :
  let st' := fst (redraw size fr fb st k) in
  lastSize st' = size /\ lastRoughness st' = fr /\ lastBlurWidth st' = fb /\
  offCanvas st' <> None.
Proof.
  unfold redraw.
  destruct (Rlt_dec 0 fr).
  - destruct (fold_left _ _ _) as [[pts lastR] k'].
    cbn. repeat split; discriminate.
  - cbn. repeat split; discriminate.
Qed.

(** After any call, the cached key is the effective key of that call and
    the mask canvas exists. *)
Lemma generate_key (size rough blur : R) (ro bo : option R)
      (st : StampState) (k : nat) :
  let st' := fst (generate size rough blur ro bo st k) in
  lastSize st' = size /\
  lastRoughness st' = JS.orElse ro rough /\
  lastBlurWidth st' = JS.orElse bo blur /\
  offCanvas st' <> None.
Proof.
  unfold generate.
  set (st1 := match offCanvas st with Some _ => st | None => _ end).
  assert (Hoff : offCanvas st1 <> None).
  { subst st1. destruct (offCanvas st) eqn:E; cbn; [rewrite E | ];
      discriminate. }
  destruct (same_key size (JS.orElse ro rough) (JS.orElse bo blur) st1) eqn:E.
  - apply same_key_spec in E. destruct E as (E1 & E2 & E3). cbn.
    repeat split; auto.
  - apply redraw_key.
Qed.

(** *** What each call leaves alone *)

(** [renderTextureLayer] changes nothing but the texture layer. *)
Lemma renderTextureLayer_frame (dx dy dr : option R) (e : MapEngine) :
  renderTextureLayer dx dy dr e = e \/
  exists c, renderTextureLayer dx dy dr e = setTextureLayerCtx c e.
Proof.
  unfold renderTextureLayer.
  destruct (textureLayerCtx e) as [ctx | ]; [ | now left].
  destruct (currentTextureImg e) as [img | ].
  - destruct (draw_rect _ _ _) as [[[[x y] w] h] | ]; [ | now left].
    right. eexists. reflexivity.
  - right. destruct (dirty_box dx dy dr) as [[[l t] s] | ];
      eexists; reflexivity.
Qed.

(** [updateShallowWater] changes nothing but the water layer. *)
Lemma updateShallowWater_frame (color : string) (on : bool) (e : MapEngine) :
  updateShallowWater color on e = e \/
  exists c, updateShallowWater color on e = setWaterCtx c e.
Proof.
  unfold updateShallowWater.
  destruct (waterCtx e) as [ctx | ]; [ | now left].
  right. destruct (negb on); eexists; reflexivity.
Qed.

Lemma renderTextureLayer_riverState dx dy dr e :
  riverState (renderTextureLayer dx dy dr e) = riverState e.
Proof.
  destruct (renderTextureLayer_frame dx dy dr e) as [-> | [c ->]];
    reflexivity.
Qed.

Lemma renderTextureLayer_maskCtx dx dy dr e :
  maskCtx (renderTextureLayer dx dy dr e) = maskCtx e.
Proof.
  destruct (renderTextureLayer_frame dx dy dr e) as [-> | [c ->]];
    reflexivity.
Qed.

Lemma renderTextureLayer_textureMaskCtx dx dy dr e :
  textureMaskCtx (renderTextureLayer dx dy dr e) = textureMaskCtx e.
Proof.
  destruct (renderTextureLayer_frame dx dy dr e) as [-> | [c ->]];
    reflexivity.
Qed.

Lemma renderTextureLayer_mapCtx dx dy dr e :
  mapCtx (renderTextureLayer dx dy dr e) = mapCtx e.
Proof.
  destruct (renderTextureLayer_frame dx dy dr e) as [-> | [c ->]];
    reflexivity.
Qed.

Lemma renderTextureLayer_pathCtx dx dy dr e :
  pathCtx (renderTextureLayer dx dy dr e) = pathCtx e.
Proof.
  destruct (renderTextureLayer_frame dx dy dr e) as [-> | [c ->]];
    reflexivity.
Qed.

(** *** River width *)

(** The river state after an organic-river dab is the one
    [organicRiver] computes, with the position of the dab recorded. *)
Lemma applyPaint_river_state (x y : R) (state : AppState) (wd : World)
      (map : Context2D) :
  mapCtx (engine wd) = Some map ->
  paintMode state = river ->
  isOrganicRiver state = true ->
  let rs := fst (fst (organicRiver x y (brushSize state)
                                   (riverState (engine wd)) (seed wd))) in
  riverState (engine (applyPaint x y state wd)) =
  mkRiver (currentWidthFactor rs) (targetWidthFactor rs)
          (distToNextChange rs) (traveledSinceChange rs) x y.
Proof.
  intros Hmap Hmode Horg rs.
  unfold applyPaint. rewrite Hmap.
  unfold paintDab. rewrite Hmode, Horg.
  subst rs.
  destruct (organicRiver x y (brushSize state) (riverState (engine wd))
                         (seed wd)) as [[rs fr] k0].
  unfold eraseFromMask.
  destruct (drawStamp (withOperation DestinationOut
                                     (maskCtx (setRiverState rs (engine wd))))
                      _ _ _ _ _ _ _ _ _ _ _ _) as [[mask st1] k1].
  destruct (drawStamp (withOperation DestinationOut map)
                      _ _ _ _ _ _ _ _ _ _ _ _) as [[map1 st2] k2].
  cbn [engine riverState setRiverState fst].
  rewrite renderTextureLayer_riverState. reflexivity.
Qed.

(** C2. In river mode with the organic river enabled, a dab moves
    [currentWidthFactor] to [current + 0.15 * (target - current)], where
    [target] is the target width factor in force for the dab; the
    distance to the target shrinks by the factor [1 - 0.15], the new
    value lies between the old one and the target, and the target stays
    the same as long as the distance travelled is below the
    threshold. *)
Theorem river_width_smoothing (x y : R) (state : AppState) (wd : World)
        (map : Context2D) :
  mapCtx (engine wd) = Some map ->
  paintMode state = river ->
  isOrganicRiver state = true ->
  let rs := riverState (engine wd) in
  let rs' := riverState (engine (applyPaint x y state wd)) in
  let current := currentWidthFactor rs in
  let target := targetWidthFactor rs' in
  currentWidthFactor rs' = current + 0.15 * (target - current) /\
  Rabs (target - currentWidthFactor rs') =
  (1 - 0.15) * Rabs (target - current) /\
  Rmin current target <= currentWidthFactor rs' <= Rmax current target /\
  (traveledSinceChange rs + JS.hypot (x - lastX rs) (y - lastY rs)
   < distToNextChange rs ->
   target = targetWidthFactor rs).
Proof.
  intros Hmap Hmode Horg rs rs' current target.
  assert (Hrs' := applyPaint_river_state x y state wd map Hmap Hmode Horg).
  cbv zeta in Hrs'. fold rs' in Hrs'.
  subst target. rewrite Hrs'. cbn [currentWidthFactor targetWidthFactor].
  unfold organicRiver. fold rs.
  destruct (Rge_dec (traveledSinceChange rs +
                     JS.hypot (x - lastX rs) (y - lastY rs))
                    (distToNextChange rs)) as [Hge | Hlt];
    cbn [fst currentWidthFactor targetWidthFactor]; fold current.
  - set (t := 0.6 + random (seed wd) * 0.5).
    repeat split.
    + lra.
    + replace (t - (current + (t - current) * 0.15))
        with ((1 - 0.15) * (t - current)) by lra.
      rewrite Rabs_mult. rewrite (Rabs_pos_eq (1 - 0.15)); lra.
    + unfold Rmin. destruct (Rle_dec current t); lra.
    + unfold Rmax. destruct (Rle_dec current t); lra.
    + intros H. lra.
  - set (t := targetWidthFactor rs).
    repeat split.
    + lra.
    + replace (t - (current + (t - current) * 0.15))
        with ((1 - 0.15) * (t - current)) by lra.
      rewrite Rabs_mult. rewrite (Rabs_pos_eq (1 - 0.15)); lra.
    + unfold Rmin. destruct (Rle_dec current t); lra.
    + unfold Rmax. destruct (Rle_dec current t); lra.
Qed.

(** *** The path loop *)

Lemma pathFuel_enough (dist currentDist : R) :
  dist - currentDist < INR (pathFuel dist currentDist).
Proof.
  unfold pathFuel.
  destruct (archimed (dist - currentDist)) as [Hup _].
  destruct (Z_lt_le_dec (up (dist - currentDist)) 0) as [Hneg | Hpos].
  - replace (Z.to_nat (up (dist - currentDist))) with 0%nat by lia. cbn.
    apply IZR_lt in Hneg. lra.
  - rewrite INR_IZR_INZ, Z2Nat.id by lia. lra.
Qed.

(** With enough fuel the loop is left because its test fails: the final
    distance is beyond the segment, and either no mark was placed or the
    last mark was on the segment. *)
Lemma pathLoop_exit (mark : R -> Shape) (dist spacing : R) :
  1 <= spacing ->
  forall (fuel : nat) (currentDist : R),
    dist - currentDist < INR fuel ->
    let final := snd (pathLoop fuel mark dist spacing currentDist) in
    dist < final /\
    (final = currentDist \/ final <= dist + spacing).
Proof.
  intros Hsp fuel.
  induction fuel as [ | fuel IH]; intros cur Hfuel.
  - cbn in *. split; [lra | now left].
  - rewrite S_INR in Hfuel. cbn [pathLoop].
    destruct (Rle_dec cur dist) as [Hle | Hgt].
    + specialize (IH (cur + spacing)).
      destruct (pathLoop fuel mark dist spacing (cur + spacing))
        as [marks final] eqn:E.
      cbn [snd] in *.
      destruct IH as [H1 H2]; [lra | ].
      split; [exact H1 | right].
      destruct H2 as [H2 | H2]; lra.
    + cbn. split; [lra | now left].
Qed.

(** Fuel beyond what the loop needs changes nothing. *)
Lemma pathLoop_fuel (mark : R -> Shape) (dist spacing : R) :
  1 <= spacing ->
  forall (fuel fuel' : nat) (currentDist : R),
    dist - currentDist < INR fuel ->
    dist - currentDist < INR fuel' ->
    pathLoop fuel mark dist spacing currentDist =
    pathLoop fuel' mark dist spacing currentDist.
Proof.
  intros Hsp fuel.
  induction fuel as [ | fuel IH]; intros fuel' cur H H'.
  - cbn in H. destruct fuel' as [ | fuel']; [reflexivity | ].
    cbn. destruct (Rle_dec cur dist); [lra | reflexivity].
  - destruct fuel' as [ | fuel'].
    + cbn in H'. cbn. destruct (Rle_dec cur dist); [lra | reflexivity].
    + rewrite S_INR in H, H'. cbn.
      destruct (Rle_dec cur dist); [ | reflexivity].
      rewrite (IH fuel' (cur + spacing)) by lra. reflexivity.
Qed.

(** Walking a segment of length [dist] is walking its first part, of
    length [dist1], and going on from the distance reached. *)
Lemma pathLoop_split (mark : R -> Shape) (dist1 dist spacing : R) :
  1 <= spacing ->
  dist1 <= dist ->
  forall (fuel1 fuel fuel2 : nat) (currentDist : R),
    dist1 - currentDist < INR fuel1 ->
    dist - currentDist < INR fuel ->
    dist - snd (pathLoop fuel1 mark dist1 spacing currentDist) < INR fuel2 ->
    pathLoop fuel mark dist spacing currentDist =
    (fst (pathLoop fuel1 mark dist1 spacing currentDist) ++
     fst (pathLoop fuel2 mark dist spacing
                   (snd (pathLoop fuel1 mark dist1 spacing currentDist))),
     snd (pathLoop fuel2 mark dist spacing
                   (snd (pathLoop fuel1 mark dist1 spacing currentDist)))).
Proof.
  intros Hsp Hle fuel1.
  induction fuel1 as [ | fuel1 IH]; intros fuel fuel2 cur H1 H H2.
  - cbn in *.
    rewrite (pathLoop_fuel mark dist spacing Hsp fuel fuel2 cur H H2).
    now destruct (pathLoop fuel2 mark dist spacing cur).
  - rewrite S_INR in H1. cbn [pathLoop] in *.
    destruct (Rle_dec cur dist1) as [Hin | Hout].
    + destruct fuel as [ | fuel]; [cbn in H; lra | ].
      rewrite S_INR in H. cbn [pathLoop].
      destruct (Rle_dec cur dist) as [_ | Hn]; [ | lra].
      specialize (IH fuel fuel2 (cur + spacing)).
      destruct (pathLoop fuel1 mark dist1 spacing (cur + spacing))
        as [marks1 final1].
      cbn [fst snd] in *.
      rewrite IH by lra. reflexivity.
    + cbn [fst snd app] in *.
      rewrite (pathLoop_fuel mark dist spacing Hsp fuel fuel2 cur H H2).
      now destruct (pathLoop fuel2 mark dist spacing cur).
Qed.

(** Moving the origin of the distances by [a]. *)
Lemma pathLoop_shift (mark mark' : R -> Shape) (a dist spacing : R) :
  (forall d, mark' d = mark (d + a)) ->
  forall (fuel : nat) (currentDist : R),
    pathLoop fuel mark' (dist - a) spacing (currentDist - a) =
    (fst (pathLoop fuel mark dist spacing currentDist),
     snd (pathLoop fuel mark dist spacing currentDist) - a).
Proof.
  intros Hmark fuel.
  induction fuel as [ | fuel IH]; intros cur.
  - reflexivity.
  - cbn [pathLoop].
    destruct (Rle_dec (cur - a) (dist - a)) as [H | H];
      destruct (Rle_dec cur dist) as [H' | H']; try lra.
    + replace (cur - a + spacing) with (cur + spacing - a) by lra.
      rewrite IH.
      destruct (pathLoop fuel mark dist spacing (cur + spacing))
        as [marks final].
      cbn [fst snd]. rewrite Hmark.
      replace (cur - a + a) with cur by lra. reflexivity.
    + reflexivity.
Qed.

(** *** Segments of one straight line *)

Lemma hypot_scale (k dx dy : R) :
  0 <= k -> JS.hypot (k * dx) (k * dy) = k * JS.hypot dx dy.
Proof.
  intros Hk. unfold JS.hypot.
  replace (k * dx * (k * dx) + k * dy * (k * dy))
    with (k * k * (dx * dx + dy * dy)) by ring.
  rewrite sqrt_mult.
  - now rewrite sqrt_square.
  - apply Rle_0_sqr.
  - generalize (Rle_0_sqr dx) (Rle_0_sqr dy). unfold Rsqr. lra.
Qed.

Lemma atan2_scale (k dy dx : R) :
  0 < k -> JS.atan2 (k * dy) (k * dx) = JS.atan2 dy dx.
Proof.
  intros Hk. unfold JS.atan2.
  assert (Hdiv : dx <> 0 -> k * dy / (k * dx) = dy / dx).
  { intros Hdx. field. split; lra. }
  assert (Sx : 0 < k * dx <-> 0 < dx) by (split; intros; nra).
  assert (Sx' : k * dx < 0 <-> dx < 0) by (split; intros; nra).
  assert (Sy : 0 < k * dy <-> 0 < dy) by (split; intros; nra).
  assert (Sy' : k * dy < 0 <-> dy < 0) by (split; intros; nra).
  assert (Sy0 : 0 <= k * dy <-> 0 <= dy) by (split; intros; nra).
  destruct (Rlt_dec 0 (k * dx)), (Rlt_dec 0 dx); try tauto.
  - rewrite Hdiv by lra. reflexivity.
  - destruct (Rlt_dec (k * dx) 0), (Rlt_dec dx 0); try tauto.
    + destruct (Rle_dec 0 (k * dy)), (Rle_dec 0 dy); try tauto;
        rewrite Hdiv by lra; reflexivity.
    + destruct (Rlt_dec 0 (k * dy)), (Rlt_dec 0 dy); try tauto.
      destruct (Rlt_dec (k * dy) 0), (Rlt_dec dy 0); tauto.
Qed.

(** The marks of the part of a line between the distances [a * len] and
    [b * len] from its origin [(x0, y0)] are those of the loop run over
    distances measured from the origin. *)
Lemma segmentMarks_on_line (state : AppState)
      (x0 y0 dx dy a b xa ya xb yb remainder : R) :
  let len := JS.hypot dx dy in
  let spacing := Rmax 1 (brushSize state * pathSpacing state) in
  let mark := pathMark state x0 y0 (dx / len) (dy / len) (JS.atan2 dy dx) in
  xa = x0 + a * dx -> ya = y0 + a * dy ->
  xb = x0 + b * dx -> yb = y0 + b * dy ->
  0 < len -> a < b ->
  segmentMarks xa ya xb yb state remainder =
  (fst (pathLoop (pathFuel ((b - a) * len) remainder) mark (b * len)
                 spacing (remainder + a * len)),
   snd (pathLoop (pathFuel ((b - a) * len) remainder) mark (b * len)
                 spacing (remainder + a * len)) - b * len).
Proof.
  intros len spacing mark Hxa Hya Hxb Hyb Hlen Hab.
  unfold segmentMarks. fold spacing.
  replace (xb - xa) with ((b - a) * dx) by (subst; ring).
  replace (yb - ya) with ((b - a) * dy) by (subst; ring).
  rewrite hypot_scale by lra. fold len.
  rewrite atan2_scale by lra.
  replace ((b - a) * dx / ((b - a) * len)) with (dx / len)
    by (field; split; lra).
  replace ((b - a) * dy / ((b - a) * len)) with (dy / len)
    by (field; split; lra).
  set (fuel := pathFuel ((b - a) * len) remainder).
  set (mark' := pathMark state xa ya (dx / len) (dy / len) (JS.atan2 dy dx)).
  replace (pathLoop fuel mark' ((b - a) * len) spacing remainder)
    with (pathLoop fuel mark' (b * len - a * len) spacing
                   (remainder + a * len - a * len))
    by (f_equal; ring).
  rewrite (pathLoop_shift mark mark' (a * len) (b * len) spacing).
  - f_equal. ring.
  - intros d. unfold mark', mark, pathMark. subst xa ya.
    replace (x0 + a * dx + dx / len * d) with (x0 + dx / len * (d + a * len))
      by (field; lra).
    replace (y0 + a * dy + dy / len * d) with (y0 + dy / len * (d + a * len))
      by (field; lra).
    reflexivity.
Qed.

(** In exact arithmetic, on a bound path layer, with [pathRemainder]
    between 0 and the spacing [Rmax 1 (brushSize * pathSpacing)] before
    the call, [drawPathSegment] leaves it strictly positive and at most
    the spacing when the segment is at least 0.5 long, and leaves it as it
    was when the segment is shorter.  In binary64 the upper bound fails
    ([Binary64.drawPathSegment]). *)
Lemma pathRemainder_exact (x1 y1 x2 y2 : R) (state : AppState)
        (e : MapEngine) (ctx : Context2D) :
  pathCtx e = Some ctx ->
  let spacing := Rmax 1 (brushSize state * pathSpacing state) in
  0 <= pathRemainder e <= spacing ->
  let e' := drawPathSegment x1 y1 x2 y2 state e in
  (0.5 <= JS.hypot (x2 - x1) (y2 - y1) ->
   0 < pathRemainder e' <= spacing) /\
  (JS.hypot (x2 - x1) (y2 - y1) < 0.5 ->
   pathRemainder e' = pathRemainder e).
Proof.
  intros Hctx spacing Hrem e'.
  subst e'. unfold drawPathSegment. rewrite Hctx.
  destruct (Rlt_dec (JS.hypot (x2 - x1) (y2 - y1)) 0.5) as [Hshort | Hlong].
  - split; [lra | reflexivity].
  - split; [intros Hlen | lra].
    unfold segmentMarks. fold spacing.
    set (dist := JS.hypot (x2 - x1) (y2 - y1)) in *.
    assert (Hsp : 1 <= spacing) by apply Rmax_l.
    destruct (pathLoop_exit
                (pathMark state x1 y1 ((x2 - x1) / dist) ((y2 - y1) / dist)
                          (JS.atan2 (y2 - y1) (x2 - x1)))
                dist spacing Hsp (pathFuel dist (pathRemainder e))
                (pathRemainder e) (pathFuel_enough _ _)) as [Hexit Hlast].
    destruct (pathLoop _ _ _ _ _) as [marks final].
    cbn [snd] in Hexit, Hlast. cbn [pathRemainder setPath].
    destruct Hlast as [Hlast | Hlast]; lra.
Qed.

(** In exact arithmetic, a straight stroke from [(x0, y0)] to [(x2, y2)]
    is cut at an interior point [(x1, y1)] into two segments, each at
    least 0.5 long.  Whatever the remainder at the start, drawing the two
    segments in order places the marks of the whole stroke, at the same
    positions and in the same order, and leaves the same remainder.  In
    binary64 a mark at the end of a segment can be lost
    ([Binary64.drawPathSegment]). *)
Lemma path_continuity_exact (x0 y0 x2 y2 t : R) (state : AppState)
        (e : MapEngine) :
  0 < t < 1 ->
  let x1 := x0 + t * (x2 - x0) in
  let y1 := y0 + t * (y2 - y0) in
  0.5 <= JS.hypot (x1 - x0) (y1 - y0) ->
  0.5 <= JS.hypot (x2 - x1) (y2 - y1) ->
  let first := segmentMarks x0 y0 x1 y1 state (pathRemainder e) in
  let second := segmentMarks x1 y1 x2 y2 state (snd first) in
  let whole := segmentMarks x0 y0 x2 y2 state (pathRemainder e) in
  fst first ++ fst second = fst whole /\
  map markPosition (fst first ++ fst second) = map markPosition (fst whole) /\
  snd second = snd whole /\
  drawPathSegment x1 y1 x2 y2 state (drawPathSegment x0 y0 x1 y1 state e) =
  drawPathSegment x0 y0 x2 y2 state e.
Proof.
  intros Ht x1 y1 Hlen1 Hlen2 first second whole.
  set (dx := x2 - x0) in *. set (dy := y2 - y0) in *.
  set (len := JS.hypot dx dy).
  set (spacing := Rmax 1 (brushSize state * pathSpacing state)).
  set (mark := pathMark state x0 y0 (dx / len) (dy / len) (JS.atan2 dy dx)).
  assert (Hsp : 1 <= spacing) by apply Rmax_l.
  assert (E1 : JS.hypot (x1 - x0) (y1 - y0) = t * len).
  { replace (x1 - x0) with (t * dx) by (unfold x1, dx; ring).
    replace (y1 - y0) with (t * dy) by (unfold y1, dy; ring).
    apply hypot_scale. lra. }
  assert (E2 : JS.hypot (x2 - x1) (y2 - y1) = (1 - t) * len).
  { replace (x2 - x1) with ((1 - t) * dx) by (unfold x1, dx; ring).
    replace (y2 - y1) with ((1 - t) * dy) by (unfold y1, dy; ring).
    apply hypot_scale. lra. }
  assert (Hlen : 0 < len) by (rewrite E1 in Hlen1; nra).
  assert (E : JS.hypot (x2 - x0) (y2 - y0) = len) by reflexivity.
  assert (Hfirst :
            first =
            (fst (pathLoop (pathFuel (t * len) (pathRemainder e)) mark
                           (t * len) spacing (pathRemainder e)),
             snd (pathLoop (pathFuel (t * len) (pathRemainder e)) mark
                           (t * len) spacing (pathRemainder e)) - t * len)).
  { unfold first.
    rewrite (segmentMarks_on_line state x0 y0 dx dy 0 t x0 y0 x1 y1);
      try (unfold x1, y1, dx, dy; ring); try lra; try exact Hlen.
    fold len. fold spacing. fold mark.
    replace ((t - 0) * len) with (t * len) by ring.
    replace (pathRemainder e + 0 * len) with (pathRemainder e) by ring.
    reflexivity. }
  set (p1 := pathLoop (pathFuel (t * len) (pathRemainder e)) mark
                      (t * len) spacing (pathRemainder e)) in *.
  assert (Hsecond :
            second =
            (fst (pathLoop (pathFuel ((1 - t) * len) (snd first)) mark
                           len spacing (snd p1)),
             snd (pathLoop (pathFuel ((1 - t) * len) (snd first)) mark
                           len spacing (snd p1)) - len)).
  { unfold second.
    rewrite (segmentMarks_on_line state x0 y0 dx dy t 1 x1 y1 x2 y2);
      try (unfold x1, y1, dx, dy; ring); try lra; try exact Hlen.
    fold len. fold spacing. fold mark.
    replace (1 * len) with len by ring.
    replace (snd first + t * len) with (snd p1)
      by (rewrite Hfirst; cbn [snd]; ring).
    reflexivity. }
  set (p2 := pathLoop (pathFuel ((1 - t) * len) (snd first)) mark
                      len spacing (snd p1)) in *.
  assert (Hwhole :
            whole =
            (fst (pathLoop (pathFuel len (pathRemainder e)) mark
                           len spacing (pathRemainder e)),
             snd (pathLoop (pathFuel len (pathRemainder e)) mark
                           len spacing (pathRemainder e)) - len)).
  { unfold whole.
    rewrite (segmentMarks_on_line state x0 y0 dx dy 0 1 x0 y0 x2 y2);
      try (unfold dx, dy; ring); try lra; try exact Hlen.
    fold len. fold spacing. fold mark.
    replace ((1 - 0) * len) with len by ring.
    replace (1 * len) with len by ring.
    replace (pathRemainder e + 0 * len) with (pathRemainder e) by ring.
    reflexivity. }
  assert (Hsplit :
            pathLoop (pathFuel len (pathRemainder e)) mark len spacing
                     (pathRemainder e) =
            (fst p1 ++ fst p2, snd p2)).
  { apply pathLoop_split.
    - exact Hsp.
    - nra.
    - apply pathFuel_enough.
    - apply pathFuel_enough.
    - fold p1.
      replace (len - snd p1) with ((1 - t) * len - snd first)
        by (rewrite Hfirst; cbn [snd]; ring).
      apply pathFuel_enough. }
  rewrite Hsplit in Hwhole. cbn [fst snd] in Hwhole.
  assert (Hmarks : fst first ++ fst second = fst whole).
  { rewrite Hfirst, Hsecond, Hwhole. reflexivity. }
  assert (Hrem : snd second = snd whole).
  { rewrite Hsecond, Hwhole. reflexivity. }
  repeat split.
  - exact Hmarks.
  - now rewrite Hmarks.
  - exact Hrem.
  - unfold drawPathSegment at 2 3.
    destruct (pathCtx e) as [ctx | ] eqn:Hctx.
    + rewrite E1, E.
      destruct (Rlt_dec (t * len) 0.5) as [Hc | _]; [lra | ].
      destruct (Rlt_dec len 0.5) as [Hc | _]; [nra | ].
      fold first whole.
      rewrite (surjective_pairing first), (surjective_pairing whole).
      unfold drawPathSegment.
      cbn [pathCtx setPath pathRemainder].
      rewrite E2.
      destruct (Rlt_dec ((1 - t) * len) 0.5) as [Hc | _]; [lra | ].
      fold second. rewrite (surjective_pairing second).
      rewrite <- Hmarks, <- Hrem, fold_left_app.
      reflexivity.
    + unfold drawPathSegment. rewrite Hctx. reflexivity.
Qed.

(** *** The texture layer *)

Lemma pixel_ext (p q : pixel) :
  red p = red q -> green p = green q -> blue p = blue q ->
  alpha p = alpha q -> p = q.
Proof. destruct p, q; cbn; intros; subst; reflexivity. Qed.

Lemma createPattern_None (img : Image) (x y : Z) :
  createPattern img = None -> pattern_pixel img x y = transparent.
Proof.
  unfold createPattern, pattern_pixel, getPixel, inside.
  destruct (0 <? width img)%Z eqn:Hw; destruct (0 <? height img)%Z eqn:Hh;
    cbn; try discriminate; intros _.
  - apply Z.ltb_ge in Hh.
    destruct (_ && _ && _ && _)%bool eqn:E; [ | reflexivity].
    rewrite !andb_true_iff in E. destruct E as [[[_ _] E1] E2].
    apply Z.leb_le in E1. apply Z.ltb_lt in E2. lia.
  - apply Z.ltb_ge in Hw.
    destruct (_ && _ && _ && _)%bool eqn:E; [ | reflexivity].
    rewrite !andb_true_iff in E. destruct E as [[[E1 E2] _] _].
    apply Z.leb_le in E1. apply Z.ltb_lt in E2. lia.
  - apply Z.ltb_ge in Hw.
    destruct (_ && _ && _ && _)%bool eqn:E; [ | reflexivity].
    rewrite !andb_true_iff in E. destruct E as [[[E1 E2] _] _].
    apply Z.leb_le in E1. apply Z.ltb_lt in E2. lia.
Qed.


Lemma floor_nonpos (a : R) : a <= 0 -> (JS.floor a <= 0)%Z.
Proof.
  intros Ha. unfold JS.floor.
  destruct (archimed a) as [_ Hup].
  assert (H : (up a < 2)%Z) by (apply lt_IZR; lra).
  lia.
Qed.

Lemma floor_ceil_cover (a b : R) (w : Z) :
  IZR w <= a + b -> (w <= JS.floor a + JS.ceil b)%Z.
Proof.
  intros Hw. unfold JS.ceil, JS.floor.
  destruct (archimed a) as [Ha _].
  destruct (archimed (- b)) as [_ Hb].
  assert (H : (w - 1 < up a - 1 + - (up (- b) - 1))%Z).
  { apply lt_IZR. rewrite plus_IZR, opp_IZR, !minus_IZR. lra. }
  lia.
Qed.

Lemma setTextureLayerCtx_eta (e : MapEngine) (ctx : Context2D) :
  textureLayerCtx e = Some ctx -> setTextureLayerCtx ctx e = e.
Proof. destruct e; cbn; intros ->; reflexivity. Qed.

(** C5. When the dirty square [x - r, x + r] by [y - r, y + r] covers
    the whole texture layer, [renderTextureLayer(x, y, r)] and
    [renderTextureLayer()] leave texture layers that show the same
    pixels, in the same drawing state, and engines that agree
    everywhere else. *)
Theorem dirty_rect_equivalence (x y r : R) (e : MapEngine)
        (ctx : Context2D) :
  textureLayerCtx e = Some ctx ->
  x - r <= 0 -> y - r <= 0 ->
  IZR (width (canvas ctx)) <= x + r ->
  IZR (height (canvas ctx)) <= y + r ->
  let dirty := renderTextureLayer (Some x) (Some y) (Some r) e in
  let full := renderTextureLayer None None None e in
  same_layer (textureLayerCtx dirty) (textureLayerCtx full) /\
  forall c, setTextureLayerCtx c dirty = setTextureLayerCtx c full.
Proof.
  intros Hctx Hx Hy Hw Hh dirty full.
  set (w := width (canvas ctx)) in *. set (h := height (canvas ctx)) in *.
  assert (Hl := floor_nonpos (x - r) Hx).
  assert (Ht := floor_nonpos (y - r) Hy).
  assert (Hr : (w <= JS.floor (x - r) + JS.ceil (r * 2))%Z).
  { apply floor_ceil_cover. lra. }
  assert (Hb : (h <= JS.floor (y - r) + JS.ceil (r * 2))%Z).
  { apply floor_ceil_cover. lra. }
  subst dirty full. unfold renderTextureLayer. rewrite Hctx.
  destruct (currentTextureImg e) as [img | ] eqn:Himg.
  - fold w h. cbn [dirty_box draw_rect].
    set (lft := JS.floor (x - r)) in *. set (top := JS.floor (y - r)) in *.
    set (size := JS.ceil (r * 2)) in *.
    replace (Z.max 0 lft) with 0%Z by lia.
    replace (Z.max 0 top) with 0%Z by lia.
    replace (Z.min w (lft + size)) with w by lia.
    replace (Z.min h (top + size)) with h by lia.
    destruct ((w <=? 0) || (h <=? 0))%Z eqn:Hempty.
    + (* a layer without pixels *)
      apply orb_true_iff in Hempty.
      assert (Hnone : forall c px py,
                 width c = w -> height c = h ->
                 getPixel c px py = transparent).
      { intros c px py Hcw Hch. unfold getPixel, inside.
        rewrite Hcw, Hch.
        destruct (_ && _ && _ && _)%bool eqn:E; [ | reflexivity].
        rewrite !andb_true_iff in E.
        destruct E as [[[E1 E2] E3] E4].
        apply Z.leb_le in E1, E3. apply Z.ltb_lt in E2, E4.
        destruct Hempty as [H | H]; apply Z.leb_le in H; lia. }
      split.
      * rewrite Hctx. cbn [same_layer canvas withCanvas globalAlpha
                           globalCompositeOperation fillStyle].
        split; [ | repeat split].
        unfold same_pixels.
        split; [ | split].
        -- destruct (createPattern img); reflexivity.
        -- destruct (createPattern img); reflexivity.
        -- intros px py.
           rewrite (Hnone (canvas ctx)) by reflexivity.
           rewrite Hnone; [reflexivity | | ];
             destruct (createPattern img); reflexivity.
      * intros c. reflexivity.
    + rewrite !Z.sub_0_r. split.
      * cbn. repeat split.
      * intros c. reflexivity.
  - cbn [dirty_box].
    split.
    + cbn. repeat split.
      intros px py. unfold getPixel, inside. cbn [width height pix clearRect].
      fold w h.
      destruct (_ && _ && _ && _)%bool eqn:E; [ | reflexivity].
      rewrite !andb_true_iff in E.
      destruct E as [[[E1 E2] E3] E4].
      apply Z.leb_le in E1, E3. apply Z.ltb_lt in E2, E4.
      replace (in_rect (JS.floor (x - r)) (JS.floor (y - r))
                       (JS.ceil (r * 2)) (JS.ceil (r * 2)) px py) with true.
      * replace (in_rect 0 0 w h px py) with true; [reflexivity | ].
        symmetry. unfold in_rect. rewrite !andb_true_iff.
        repeat split; try apply Z.leb_le; try apply Z.ltb_lt; lia.
      * symmetry. unfold in_rect. rewrite !andb_true_iff.
        repeat split; try apply Z.leb_le; try apply Z.ltb_lt; lia.
    + intros c. reflexivity.
Qed.

(** *** Stamps on layers *)

(** What [drawStamp] does with a given rotation: the mask is the cached
    one after [generate], and the context keeps its drawing state. *)
Lemma drawStamp_spec (ctx : Context2D) (x y size : R) (color : string)
      (opacity gr gb : R) (ro bo : option R) (rot : R)
      (st : StampState) (k : nat) :
  let gen := generate size gr gb ro bo st k in
  exists off,
    offCanvas (fst gen) = Some off /\
    drawStamp ctx x y size color opacity gr gb ro bo (Some rot) st k =
    (withCanvas (paint (globalCompositeOperation ctx) opacity
                       (stampImage color off x y rot) (canvas ctx)) ctx,
     mkStamp (Some off) (Some (tinted color off))
             (lastSize (fst gen)) (lastRoughness (fst gen))
             (lastBlurWidth (fst gen)),
     snd gen).
Proof.
  intros gen.
  destruct (generate_key size gr gb ro bo st k) as (_ & _ & _ & Hoff).
  fold gen in Hoff.
  destruct (offCanvas (fst gen)) as [off | ] eqn:E; [ | contradiction].
  exists off. split; [reflexivity | ].
  unfold drawStamp. fold gen.
  destruct gen as [st1 k1]. cbn [fst snd] in *. rewrite E. reflexivity.
Qed.

(** Whatever the rotation argument, [drawStamp] composites one image
    with the operator of the context and the opacity, and leaves the
    drawing state of the context as it was. *)
Lemma drawStamp_paints (ctx : Context2D) (x y size : R) (color : string)
      (opacity gr gb : R) (ro bo rotation : option R)
      (st : StampState) (k : nat) :
  exists a,
    fst (fst (drawStamp ctx x y size color opacity gr gb ro bo rotation
                        st k)) =
    withCanvas (paint (globalCompositeOperation ctx) opacity a (canvas ctx))
               ctx.
Proof.
  destruct (generate_key size gr gb ro bo st k) as (_ & _ & _ & Hoff).
  unfold drawStamp.
  destruct (generate size gr gb ro bo st k) as [st1 k1].
  cbn [fst] in Hoff.
  destruct (offCanvas st1) as [off | ]; [ | contradiction].
  destruct rotation as [rot | ]; eexists; reflexivity.
Qed.

(** *** Before initialisation *)

(** C8. While no layer is bound, [applyPaint], [drawPathSegment] and
    [updateShallowWater] return without changing the engine, the stamp
    singleton or the random stream, and [getSnapshot] returns [null]. *)
Theorem unbound_calls_are_noops (x y x1 y1 x2 y2 : R) (state : AppState)
        (shallowColor : string) (isEnabled : bool) (wd : World) :
  unbound (engine wd) ->
  applyPaint x y state wd = wd /\
  drawPathSegment x1 y1 x2 y2 state (engine wd) = engine wd /\
  updateShallowWater shallowColor isEnabled (engine wd) = engine wd /\
  getSnapshot (engine wd) = JS.Returned None.
Proof.
  intros (Hmap & Hwater & _ & Hpath & _ & _).
  unfold applyPaint, drawPathSegment, updateShallowWater, getSnapshot.
  rewrite Hmap, Hwater, Hpath. repeat split.
Qed.

(** *** Who changes the masks *)

Ltac stamp_step :=
  match goal with
  | |- context [drawStamp ?ctx ?x ?y ?s ?c ?o ?gr ?gb ?ro ?bo ?rot ?st ?k] =>
    let a := fresh "a" in
    let Ha := fresh "Ha" in
    destruct (drawStamp_paints ctx x y s c o gr gb ro bo rot st k) as [a Ha];
    destruct (drawStamp ctx x y s c o gr gb ro bo rot st k) as [[? ?] ?];
    cbn [fst] in Ha;
    match type of Ha with ?v = _ => subst v end
  end.

(** The masks after a dab on a bound map layer. *)
Lemma paintDab_masks (x y : R) (state : AppState) (map : Context2D)
      (wd : World) :
  let e := engine wd in
  let e' := engine (paintDab x y state map wd) in
  match paintMode state with
  | terrain =>
    (exists a,
        maskCtx e' =
        withCanvas (paint (globalCompositeOperation (maskCtx e)) 1 a
                          (canvas (maskCtx e))) (maskCtx e)) /\
    textureMaskCtx e' = textureMaskCtx e
  | river =>
    (exists a,
        maskCtx e' =
        withCanvas (paint DestinationOut 1 a (canvas (maskCtx e)))
                   (maskCtx e)) /\
    textureMaskCtx e' = textureMaskCtx e
  | texture =>
    maskCtx e' = maskCtx e /\
    if truthy (activeTexture state)
    then exists a,
        textureMaskCtx e' =
        withCanvas (paint (if isTextureEraser state then DestinationOut
                           else SourceOver)
                          (brushBlur state / 100) a
                          (canvas (textureMaskCtx e))) (textureMaskCtx e)
    else textureMaskCtx e' = textureMaskCtx e
  | _ => maskCtx e' = maskCtx e /\ textureMaskCtx e' = textureMaskCtx e
  end.
Proof.
  intros e e'. subst e'. unfold paintDab. fold e.
  destruct (paintMode state); try (split; reflexivity).
  - (* terrain *)
    unfold drawToMask. stamp_step. stamp_step.
    cbn [engine].
    rewrite renderTextureLayer_maskCtx, renderTextureLayer_textureMaskCtx.
    split; [ | reflexivity]. eexists. reflexivity.
  - (* river *)
    destruct (if isOrganicRiver state
              then organicRiver x y (brushSize state) (riverState e) (seed wd)
              else (riverState e, brushSize state, seed wd))
      as [[rs fr] k0].
    unfold eraseFromMask. stamp_step. stamp_step.
    cbn [engine].
    rewrite renderTextureLayer_maskCtx, renderTextureLayer_textureMaskCtx.
    split; [ | reflexivity]. eexists. reflexivity.
  - (* texture *)
    destruct (truthy (activeTexture state)).
    + stamp_step. cbn [engine].
      rewrite renderTextureLayer_maskCtx, renderTextureLayer_textureMaskCtx.
      split; [reflexivity | ]. eexists. reflexivity.
    + stamp_step. split; reflexivity.
Qed.

(** *** Rotation coupling of a terrain dab *)

Lemma generate_hit (size rough blur : R) (ro bo : option R)
      (st : StampState) (k : nat) :
  lastSize st = size ->
  lastRoughness st = JS.orElse ro rough ->
  lastBlurWidth st = JS.orElse bo blur ->
  offCanvas st <> None ->
  generate size rough blur ro bo st k = (st, k).
Proof.
  intros Hs Hr Hb Hoff. unfold generate.
  destruct (offCanvas st); [ | contradiction].
  replace (same_key size (JS.orElse ro rough) (JS.orElse bo blur) st)
    with true; [reflexivity | ].
  symmetry. apply same_key_spec. auto.
Qed.

(** The alpha channel of the tint buffer is that of the stamp mask,
    whatever the colour. *)
Lemma tinted_alpha (color : string) (off : Canvas) (u v : Z) :
  alpha (getPixel (tinted color off) u v) = alpha (getPixel off u v).
Proof.
  unfold getPixel, inside, tinted, image_at, solid.
  cbn [width height pix paint blank].
  destruct (css_rgb color) as [[r g] b].
  rewrite !Z.sub_0_r.
  destruct (_ && _ && _ && _)%bool eqn:E.
  - unfold getPixel, inside. rewrite E. cbn. ring.
  - reflexivity.
Qed.

Lemma stampImage_alpha (color : string) (off : Canvas) (x y rot : R)
      (px py : Z) :
  alpha (stampImage color off x y rot px py) =
  resample (fun u v => alpha (getPixel off u v)) (width off) (height off)
           x y rot (- (IZR (width off) / 2)) (- (IZR (width off) / 2))
           px py.
Proof.
  unfold stampImage, image_rotated. cbn [alpha].
  replace (fun u v => alpha (getPixel (tinted color off) u v))
    with (fun u v => alpha (getPixel off u v)).
  - reflexivity.
  - extensionality u. extensionality v. symmetry. apply tinted_alpha.
Qed.

(** A terrain dab draws one rotation, generates the stamp once, and
    composites it on the land mask and on the map layer at the same
    place with that rotation; the second [drawStamp] finds the mask in
    the cache. *)
Lemma applyPaint_terrain (x y : R) (state : AppState) (wd : World)
      (map : Context2D) :
  mapCtx (engine wd) = Some map ->
  paintMode state = terrain ->
  let e := engine wd in
  let e' := engine (applyPaint x y state wd) in
  let rot := random (seed wd) * PI * 2 in
  let gen := generate (brushSize state) (roughness state) (blurWidth state)
                      None (Some 95) (stamp wd) (S (seed wd)) in
  exists off,
    offCanvas (fst gen) = Some off /\
    offCanvas (stamp (applyPaint x y state wd)) = Some off /\
    seed (applyPaint x y state wd) = snd gen /\
    maskCtx e' =
    withCanvas (paint (globalCompositeOperation (maskCtx e)) 1
                      (stampImage "black" off x y rot) (canvas (maskCtx e)))
               (maskCtx e) /\
    mapCtx e' =
    Some (withCanvas (paint (globalCompositeOperation map)
                            (brushBlur state / 100)
                            (stampImage (terrainColor state) off x y rot)
                            (canvas map)) map).
Proof.
  intros Hmap Hmode e e' rot gen. subst e.
  destruct (drawStamp_spec (maskCtx (engine wd)) x y (brushSize state) "black" 1
                           (roughness state) (blurWidth state) None (Some 95)
                           rot (stamp wd) (S (seed wd)))
    as (off & Hoff & Hdraw1).
  fold gen in Hoff, Hdraw1.
  destruct (generate_key (brushSize state) (roughness state) (blurWidth state)
                         None (Some 95) (stamp wd) (S (seed wd)))
    as (Ks & Kr & Kb & _).
  fold gen in Ks, Kr, Kb.
  set (st1 := mkStamp (Some off) (Some (tinted "black" off))
                      (lastSize (fst gen)) (lastRoughness (fst gen))
                      (lastBlurWidth (fst gen))) in *.
  assert (Hhit : generate (brushSize state) (roughness state)
                          (blurWidth state) None (Some 95) st1 (snd gen) =
                 (st1, snd gen)).
  { apply generate_hit; cbn; try assumption. discriminate. }
  destruct (drawStamp_spec map x y (brushSize state) (terrainColor state)
                           (brushBlur state / 100)
                           (roughness state) (blurWidth state) None (Some 95)
                           rot st1 (snd gen))
    as (off2 & Hoff2 & Hdraw2).
  rewrite Hhit in Hoff2, Hdraw2. cbn [fst snd offCanvas st1] in Hoff2, Hdraw2.
  injection Hoff2 as <-.
  exists off. split; [exact Hoff | ].
  subst e'. unfold applyPaint. rewrite Hmap.
  unfold paintDab. rewrite Hmode. unfold drawToMask.
  fold rot. rewrite Hdraw1, Hdraw2.
  cbn [engine stamp seed offCanvas].
  cbn [maskCtx mapCtx setRiverState].
  rewrite renderTextureLayer_maskCtx, renderTextureLayer_mapCtx.
  repeat split.
Qed.

(** After a terrain dab the stamp singleton holds the mask under the key
    of the brush, so that the next dab of the same brush finds it. *)
Lemma applyPaint_terrain_stamp (x y : R) (state : AppState) (wd : World)
      (map : Context2D) :
  mapCtx (engine wd) = Some map ->
  paintMode state = terrain ->
  let wd' := applyPaint x y state wd in
  lastSize (stamp wd') = brushSize state /\
  lastRoughness (stamp wd') = roughness state /\
  lastBlurWidth (stamp wd') = 95 /\
  offCanvas (stamp wd') <> None.
Proof.
  intros Hmap Hmode wd'.
  set (rot := random (seed wd) * PI * 2).
  destruct (drawStamp_spec (maskCtx (engine wd)) x y (brushSize state) "black" 1
                           (roughness state) (blurWidth state) None (Some 95)
                           rot (stamp wd) (S (seed wd)))
    as (off & Hoff & Hdraw1).
  destruct (generate_key (brushSize state) (roughness state) (blurWidth state)
                         None (Some 95) (stamp wd) (S (seed wd)))
    as (Ks & Kr & Kb & _).
  set (gen := generate (brushSize state) (roughness state) (blurWidth state)
                       None (Some 95) (stamp wd) (S (seed wd))) in *.
  set (st1 := mkStamp (Some off) (Some (tinted "black" off))
                      (lastSize (fst gen)) (lastRoughness (fst gen))
                      (lastBlurWidth (fst gen))) in *.
  assert (Hhit : generate (brushSize state) (roughness state)
                          (blurWidth state) None (Some 95) st1 (snd gen) =
                 (st1, snd gen)).
  { apply generate_hit; cbn; try assumption. discriminate. }
  destruct (drawStamp_spec map x y (brushSize state) (terrainColor state)
                           (brushBlur state / 100)
                           (roughness state) (blurWidth state) None (Some 95)
                           rot st1 (snd gen))
    as (off2 & Hoff2 & Hdraw2).
  rewrite Hhit in Hoff2, Hdraw2. cbn [fst snd offCanvas st1] in Hoff2, Hdraw2.
  subst wd'. unfold applyPaint. rewrite Hmap.
  unfold paintDab. rewrite Hmode. unfold drawToMask.
  fold rot. rewrite Hdraw1, Hdraw2.
  cbn [engine stamp seed offCanvas lastSize lastRoughness lastBlurWidth st1].
  cbn [JS.orElse] in Kr, Kb.
  repeat split; try assumption. discriminate.
Qed.

(** C6, for a brush opacity above 0.  A terrain dab on a bound map layer
    draws one rotation and composites the same cached stamp mask, at the
    same place and with that rotation, on the land mask (in black, at
    full opacity) and on the map layer (in the terrain colour, at the
    brush opacity); the pixels that receive paint are the same on both.
    With source-over on both layers, a pixel of the land mask that is not
    yet opaque gains alpha exactly when it receives paint, and so does a
    pixel of the map layer that is not yet opaque: among the pixels that
    are opaque on neither, the land mask gains alpha exactly where the
    map layer does.  A pixel of the land mask that is opaque already
    stays as it is. *)
Theorem terrain_rotation_coupling (x y : R) (state : AppState) (wd : World)
        (map : Context2D) :
  mapCtx (engine wd) = Some map ->
  paintMode state = terrain ->
  0 < brushBlur state ->
  let e := engine wd in
  let e' := engine (applyPaint x y state wd) in
  let rot := random (seed wd) * PI * 2 in
  exists off,
    offCanvas (fst (generate (brushSize state) (roughness state)
                             (blurWidth state) None (Some 95)
                             (stamp wd) (S (seed wd)))) = Some off /\
    maskCtx e' =
    withCanvas (paint (globalCompositeOperation (maskCtx e)) 1
                      (stampImage "black" off x y rot) (canvas (maskCtx e)))
               (maskCtx e) /\
    mapCtx e' =
    Some (withCanvas (paint (globalCompositeOperation map)
                            (brushBlur state / 100)
                            (stampImage (terrainColor state) off x y rot)
                            (canvas map)) map) /\
    (forall px py,
      painted 1 (stampImage "black" off x y rot) px py <->
      painted (brushBlur state / 100)
              (stampImage (terrainColor state) off x y rot) px py) /\
    (globalCompositeOperation (maskCtx e) = SourceOver ->
     globalCompositeOperation map = SourceOver ->
     exists map',
       mapCtx e' = Some map' /\
       forall px py,
         let land := alpha (pix (canvas (maskCtx e)) px py) in
         let land' := alpha (pix (canvas (maskCtx e')) px py) in
         let shown := alpha (pix (canvas map) px py) in
         let shown' := alpha (pix (canvas map') px py) in
         (land < 1 ->
          (land < land' <->
           painted 1 (stampImage "black" off x y rot) px py)) /\
         (shown < 1 ->
          (shown < shown' <->
           painted (brushBlur state / 100)
                   (stampImage (terrainColor state) off x y rot) px py)) /\
         (land < 1 -> shown < 1 -> (land < land' <-> shown < shown')) /\
         (land = 1 -> land' = 1)).
Proof.
  intros Hmap Hmode Hblur e e' rot.
  destruct (applyPaint_terrain x y state wd map Hmap Hmode)
    as (off & Hoff & _ & _ & Hmask & Hmap').
  fold e e' rot in Hmask, Hmap'.
  assert (Hpos : 0 < brushBlur state / 100) by lra.
  assert (Hsame : forall px py,
             painted 1 (stampImage "black" off x y rot) px py <->
             painted (brushBlur state / 100)
                     (stampImage (terrainColor state) off x y rot) px py).
  { intros px py. unfold painted. cbn [alpha scale].
    rewrite !stampImage_alpha.
    set (sa := resample _ _ _ _ _ _ _ _ _ _).
    split; intros H; nra. }
  exists off.
  split; [exact Hoff | split; [exact Hmask | split; [exact Hmap' | ]]].
  split; [exact Hsame | ].
  intros Hop Hop'. eexists. split; [exact Hmap' | ].
  intros px py land land' shown shown'.
  assert (Eland : land' = 1 * alpha (stampImage "black" off x y rot px py) +
                          (1 - 1 * alpha (stampImage "black" off x y rot px py))
                          * land).
  { unfold land', land. rewrite Hmask, Hop. reflexivity. }
  assert (Eshown :
            shown' =
            brushBlur state / 100 *
            alpha (stampImage (terrainColor state) off x y rot px py) +
            (1 - brushBlur state / 100 *
                 alpha (stampImage (terrainColor state) off x y rot px py))
            * shown).
  { unfold shown', shown. rewrite Hop'. reflexivity. }
  assert (Hone : land < 1 ->
                 (land < land' <->
                  painted 1 (stampImage "black" off x y rot) px py)).
  { intros Hland. unfold painted. cbn [alpha scale]. rewrite Eland.
    set (sa := alpha (stampImage "black" off x y rot px py)).
    split; intros H; nra. }
  assert (Htwo : shown < 1 ->
                 (shown < shown' <->
                  painted (brushBlur state / 100)
                          (stampImage (terrainColor state) off x y rot)
                          px py)).
  { intros Hshown. unfold painted. cbn [alpha scale]. rewrite Eshown.
    set (sb := brushBlur state / 100 *
               alpha (stampImage (terrainColor state) off x y rot px py)).
    split; intros H; nra. }
  split; [exact Hone | split; [exact Htwo | split]].
  - intros Hland Hshown.
    rewrite (Hone Hland), (Htwo Hshown). apply Hsame.
  - intros Hland. rewrite Eland, Hland. ring.
Qed.

(** *** Snapshots *)

Lemma Layer_eq_dec (a b : Layer) : {a = b} + {a <> b}.
Proof. decide equality. Qed.

Lemma onload_same (l : Layer) (img : Image) (w h : Z) (e : MapEngine) :
  layerCtx l (onload l img w h e) =
  option_map (redrawn img w h) (layerCtx l e).
Proof.
  destruct l; cbn [onload layerCtx].
  - destruct (mapCtx e) eqn:E; cbn; [reflexivity | now rewrite E].
  - destruct (pathCtx e) eqn:E; cbn; [reflexivity | now rewrite E].
  - now rewrite renderTextureLayer_maskCtx.
  - now rewrite renderTextureLayer_textureMaskCtx.
Qed.

Lemma onload_other (l l' : Layer) (img : Image) (w h : Z) (e : MapEngine) :
  l <> l' -> layerCtx l (onload l' img w h e) = layerCtx l e.
Proof.
  intros Hne.
  destruct l, l'; try contradiction; cbn [onload layerCtx];
    rewrite ?renderTextureLayer_mapCtx, ?renderTextureLayer_pathCtx,
            ?renderTextureLayer_maskCtx, ?renderTextureLayer_textureMaskCtx;
    try reflexivity;
    try (destruct (mapCtx e); reflexivity);
    try (destruct (pathCtx e); reflexivity).
Qed.

Lemma settle_cons (w h : Z) (p : Layer * DataURL)
      (order : list (Layer * DataURL)) (e : MapEngine) :
  settle w h (p :: order) e = settle w h order (loaded w h e p).
Proof. reflexivity. Qed.

Lemma settle_other (l : Layer) (w h : Z) (order : list (Layer * DataURL)) :
  ~ In l (map fst order) ->
  forall e, layerCtx l (settle w h order e) = layerCtx l e.
Proof.
  induction order as [ | [l' src] order IH]; intros Hnot e; [reflexivity | ].
  rewrite settle_cons, IH.
  - unfold loaded. cbn [fst snd].
    destruct (decode src); [ | reflexivity].
    apply onload_other. intros ->. apply Hnot. now left.
  - intros Hin. apply Hnot. now right.
Qed.

(** Once all loads have finished, in whatever order, each layer has been
    cleared and redrawn once from its own image. *)
Lemma settle_layer (l : Layer) (src : DataURL) (img : Image) (w h : Z)
      (order : list (Layer * DataURL)) :
  NoDup (map fst order) ->
  In (l, src) order ->
  decode src = Some img ->
  forall e,
    layerCtx l (settle w h order e) =
    option_map (redrawn img w h) (layerCtx l e).
Proof.
  intros Hnd Hin Hdec.
  induction order as [ | [l' src'] order IH]; intros e; [contradiction | ].
  cbn [map fst] in Hnd. inversion Hnd as [ | ? ? Hnot Hnd']. subst.
  rewrite settle_cons.
  destruct Hin as [Heq | Hin].
  - injection Heq as -> ->.
    rewrite settle_other by exact Hnot.
    unfold loaded. cbn [fst snd]. rewrite Hdec.
    apply onload_same.
  - rewrite IH by assumption.
    unfold loaded. cbn [fst snd].
    destruct (decode src'); [ | reflexivity].
    rewrite onload_other; [reflexivity | ].
    intros ->. apply Hnot.
    change l' with (fst (l', src)). now apply in_map.
Qed.

(** A layer redrawn from an image showing what it showed, on a cleared
    rectangle that covers it, shows its pixels scaled by the global
    alpha of its context. *)
Lemma redrawn_pixels (img : Image) (w h : Z) (ctx : Context2D) :
  same_pixels img (canvas ctx) ->
  globalCompositeOperation ctx = SourceOver ->
  (width (canvas ctx) <= w)%Z -> (height (canvas ctx) <= h)%Z ->
  forall x y,
    getPixel (canvas (redrawn img w h ctx)) x y =
    scale (globalAlpha ctx) (getPixel (canvas ctx) x y).
Proof.
  intros (Hw & Hh & Hpx) Hop Hcw Hch x y.
  assert (Himg : image_at img 0 0 x y = getPixel (canvas ctx) x y).
  { unfold image_at. rewrite !Z.sub_0_r. apply Hpx. }
  unfold getPixel in *. unfold inside in *.
  cbn [redrawn withCanvas canvas width height paint pix clearRect].
  destruct ((0 <=? x) && (x <? width (canvas ctx)) && (0 <=? y) &&
            (y <? height (canvas ctx)))%Z eqn:E.
  - rewrite !andb_true_iff in E. destruct E as [[[E1 E2] E3] E4].
    apply Z.leb_le in E1, E3. apply Z.ltb_lt in E2, E4.
    replace (in_rect 0 0 w h x y) with true.
    + rewrite Hop, Himg. apply pixel_ext; cbn; ring.
    + symmetry. unfold in_rect. rewrite !andb_true_iff.
      repeat split; try apply Z.leb_le; try apply Z.ltb_lt; lia.
  - apply pixel_ext; cbn; ring.
Qed.

(** Capture followed by restore: when every image has loaded, in
    whatever order, a restored layer whose context composites with
    source-over, and which the cleared rectangle covers, shows the pixels
    it showed at capture scaled by the global alpha of its context. *)
Lemma restore_layer (l : Layer) (e : MapEngine) (mctx pth ctx : Context2D)
      (snap : Snapshot) (w h : Z) (order : list (Layer * DataURL)) :
  lossless ->
  mapCtx e = Some mctx ->
  pathCtx e = Some pth ->
  layerCtx l e = Some ctx ->
  globalCompositeOperation ctx = SourceOver ->
  (width (canvas ctx) <= w)%Z -> (height (canvas ctx) <= h)%Z ->
  getSnapshot e = JS.Returned (Some snap) ->
  Permutation (snd (loadSnapshot snap w h e)) order ->
  exists ctx',
    layerCtx l (settle w h order (fst (loadSnapshot snap w h e))) =
    Some ctx' /\
    globalAlpha ctx' = globalAlpha ctx /\
    forall x y,
      getPixel (canvas ctx') x y =
      scale (globalAlpha ctx) (getPixel (canvas ctx) x y).
Proof.
  intros Hcodec Hmap Hpth Hl Hop Hw Hh Hsnap Hperm.
  unfold getSnapshot in Hsnap. rewrite Hmap, Hpth in Hsnap.
  injection Hsnap as <-.
  unfold loadSnapshot in *. cbn [snap_textureMask snap_map snap_path
                                 snap_mask] in *.
  rewrite Hmap, Hpth in *. cbn [fst snd app] in *.
  destruct (Hcodec (canvas ctx)) as (img & Hdec & Hsame).
  assert (Hnd : NoDup (map fst order)).
  { eapply Permutation_NoDup; [apply Permutation_map, Hperm | ].
    cbn.
    repeat (constructor;
            [ cbn; intros H;
              repeat (destruct H as [H | H]; [discriminate | ]); exact H
            | ]).
    constructor. }
  assert (Hin : In (l, toDataURL (canvas ctx)) order).
  { eapply Permutation_in; [exact Hperm | ].
    destruct l; cbn [layerCtx] in Hl.
    - rewrite Hmap in Hl. injection Hl as <-. now left.
    - rewrite Hpth in Hl. injection Hl as <-. right. now left.
    - injection Hl as <-. right. right. now left.
    - injection Hl as <-. right. right. right. now left. }
  rewrite (settle_layer l _ img w h order Hnd Hin Hdec), Hl.
  cbn [option_map]. eexists. split; [reflexivity | ].
  split; [reflexivity | ].
  now apply redrawn_pixels.
Qed.

(** Capture and restore give back the pixels of a layer whose context
    has global alpha 1: the map layer and the two masks, whose contexts
    every call leaves in their initial drawing state. *)
Lemma restore_layer_at_full_alpha (l : Layer) (e : MapEngine)
      (mctx pth ctx : Context2D) (snap : Snapshot) (w h : Z)
      (order : list (Layer * DataURL)) :
  lossless ->
  mapCtx e = Some mctx ->
  pathCtx e = Some pth ->
  layerCtx l e = Some ctx ->
  drawingState ctx = (1, SourceOver) ->
  (width (canvas ctx) <= w)%Z -> (height (canvas ctx) <= h)%Z ->
  getSnapshot e = JS.Returned (Some snap) ->
  Permutation (snd (loadSnapshot snap w h e)) order ->
  exists ctx',
    layerCtx l (settle w h order (fst (loadSnapshot snap w h e))) =
    Some ctx' /\
    forall x y, getPixel (canvas ctx') x y = getPixel (canvas ctx) x y.
Proof.
  intros Hcodec Hmap Hpth Hl Hstate Hw Hh Hsnap Hperm.
  injection Hstate as Hga Hop.
  destruct (restore_layer l e mctx pth ctx snap w h order
                          Hcodec Hmap Hpth Hl Hop Hw Hh Hsnap Hperm)
    as (ctx' & Hctx' & _ & Hpx).
  exists ctx'. split; [exact Hctx' | ].
  intros x y. rewrite Hpx, Hga.
  apply pixel_ext; cbn; ring.
Qed.

(** *** The drawing state of the layers that paint calls draw on *)

Lemma renderTextureLayer_drawingState dx dy dr e :
  option_map drawingState (textureLayerCtx (renderTextureLayer dx dy dr e)) =
  option_map drawingState (textureLayerCtx e).
Proof.
  unfold renderTextureLayer.
  destruct (textureLayerCtx e) as [ctx | ] eqn:E; [ | now rewrite E].
  destruct (currentTextureImg e) as [img | ].
  - destruct (draw_rect _ _ _) as [[[[x y] w] h] | ]; [ | now rewrite E].
    reflexivity.
  - destruct (dirty_box dx dy dr) as [[[l t] s] | ]; reflexivity.
Qed.

(** A dab leaves the drawing state of the map layer, of the two masks
    and of the texture layer as it was: every change of the compositing
    operator or of the global alpha is undone by a [restore]. *)
Lemma applyPaint_drawingState (x y : R) (state : AppState) (wd : World) :
  let e := engine wd in
  let e' := engine (applyPaint x y state wd) in
  option_map drawingState (mapCtx e') = option_map drawingState (mapCtx e) /\
  drawingState (maskCtx e') = drawingState (maskCtx e) /\
  drawingState (textureMaskCtx e') = drawingState (textureMaskCtx e) /\
  option_map drawingState (textureLayerCtx e') =
  option_map drawingState (textureLayerCtx e).
Proof.
  intros e e'. subst e e'. unfold applyPaint.
  destruct (mapCtx (engine wd)) as [mctx | ] eqn:Hmap.
  - cbn [engine mapCtx maskCtx textureMaskCtx textureLayerCtx setRiverState].
    unfold paintDab.
    destruct (paintMode state).
    + unfold drawToMask. stamp_step. stamp_step. cbn [engine].
      rewrite renderTextureLayer_mapCtx, renderTextureLayer_maskCtx,
        renderTextureLayer_textureMaskCtx, renderTextureLayer_drawingState.
      cbn. rewrite ?Hmap. repeat split.
    + destruct (if isOrganicRiver state then _ else _) as [[rs fr] k0].
      unfold eraseFromMask. stamp_step. stamp_step. cbn [engine].
      rewrite renderTextureLayer_mapCtx, renderTextureLayer_maskCtx,
        renderTextureLayer_textureMaskCtx, renderTextureLayer_drawingState.
      cbn. rewrite ?Hmap. repeat split.
    + rewrite ?Hmap. repeat split.
    + destruct (truthy (activeTexture state)).
      * stamp_step. cbn [engine].
        rewrite renderTextureLayer_mapCtx, renderTextureLayer_maskCtx,
          renderTextureLayer_textureMaskCtx, renderTextureLayer_drawingState.
        cbn. rewrite ?Hmap. repeat split.
      * stamp_step. cbn. rewrite ?Hmap. repeat split.
    + rewrite ?Hmap. repeat split.
    + rewrite ?Hmap. repeat split.
  - rewrite ?Hmap. repeat split.
Qed.

(** A path segment, in contrast, leaves the global alpha of the path
    context at the brush opacity. *)
Lemma drawPathSegment_globalAlpha (x1 y1 x2 y2 : R) (state : AppState)
      (e : MapEngine) (ctx : Context2D) :
  pathCtx e = Some ctx ->
  0.5 <= JS.hypot (x2 - x1) (y2 - y1) ->
  option_map globalAlpha (pathCtx (drawPathSegment x1 y1 x2 y2 state e)) =
  Some (brushBlur state / 100).
Proof.
  intros Hctx Hlen. unfold drawPathSegment. rewrite Hctx.
  destruct (Rlt_dec _ 0.5) as [H | _]; [lra | ].
  destruct (segmentMarks _ _ _ _ _ _) as [marks remainder].
  reflexivity.
Qed.

(** ** Further properties of the engine *)

(** *** The outline of a rough stamp *)

Lemma ceil_ge (x : R) : x <= IZR (JS.ceil x).
Proof.
  unfold JS.ceil, JS.floor.
  destruct (archimed (- x)) as [_ H].
  rewrite opp_IZR, minus_IZR. lra.
Qed.

(** The loop of the outline adds one point per turn and draws one random
    number on every third turn. *)
Lemma outline_fold_count (size roughness center : R) (l : list nat) :
  forall (pts : list (R * R)) (lastR : R) (k : nat),
    List.length
      (fst (fst (fold_left (outline_step size roughness center) l
                           (pts, lastR, k)))) =
    (List.length pts + List.length l)%nat /\
    snd (fold_left (outline_step size roughness center) l (pts, lastR, k)) =
    (k + List.length (filter (fun i => Nat.eqb (i mod 3) 0) l))%nat.
Proof.
  induction l as [ | i l IH]; intros pts lastR k.
  - cbn. split; lia.
  - cbn [fold_left filter].
    assert (Hstep :
              exists pts1 r1 k1,
                outline_step size roughness center (pts, lastR, k) i =
                (pts1, r1, k1) /\
                List.length pts1 = S (List.length pts) /\
                k1 = if Nat.eqb (i mod 3) 0 then S k else k).
    { unfold outline_step.
      destruct (Nat.eqb (i mod 3) 0); eexists _, _, _;
        (split; [reflexivity | ]); rewrite List.length_app; cbn; split; lia. }
    destruct Hstep as (pts1 & r1 & k1 & -> & Hlen & Hk).
    destruct (IH pts1 r1 k1) as [H1 H2].
    rewrite H1, H2, Hlen, Hk.
    destruct (Nat.eqb (i mod 3) 0); cbn [List.length]; split; lia.
Qed.

(** Every point of the outline lies on a circle around the centre whose
    radius is within half the roughness of the size. *)
Lemma outline_fold_radius (size roughness center : R) (l : list nat) :
  0 <= roughness ->
  (forall n, 0 <= random n < 1) ->
  forall (pts : list (R * R)) (lastR : R) (k : nat),
    Forall (fun p => exists a rho,
                size - roughness / 2 <= rho <= size + roughness / 2 /\
                p = (center + cos a * rho, center + sin a * rho)) pts ->
    size - roughness / 2 <= lastR <= size + roughness / 2 ->
    Forall (fun p => exists a rho,
                size - roughness / 2 <= rho <= size + roughness / 2 /\
                p = (center + cos a * rho, center + sin a * rho))
           (fst (fst (fold_left (outline_step size roughness center) l
                                (pts, lastR, k)))).
Proof.
  intros Hrough Hrand.
  induction l as [ | i l IH]; intros pts lastR k Hpts HlastR.
  - exact Hpts.
  - cbn [fold_left].
    assert (Hstep :
              exists pts1 r1 k1,
                outline_step size roughness center (pts, lastR, k) i =
                (pts1, r1, k1) /\
                size - roughness / 2 <= r1 <= size + roughness / 2 /\
                pts1 = pts ++ [(center + cos (INR i / 40 * PI * 2) * r1,
                                center + sin (INR i / 40 * PI * 2) * r1)]).
    { unfold outline_step.
      destruct (Nat.eqb (i mod 3) 0); eexists _, _, _;
        (split; [reflexivity | ]); (split; [ | reflexivity]).
      - specialize (Hrand k). split; nra.
      - exact HlastR. }
    destruct Hstep as (pts1 & r1 & k1 & -> & Hr1 & ->).
    apply IH; [ | exact Hr1].
    apply Forall_app. split; [exact Hpts | ].
    constructor; [ | constructor].
    eexists _, _. split; [exact Hr1 | reflexivity].
Qed.

Lemma generate_miss (size rough blur : R) (ro bo : option R)
      (st : StampState) (k : nat) :
  ~ (size = lastSize st /\ JS.orElse ro rough = lastRoughness st /\
     JS.orElse bo blur = lastBlurWidth st) ->
  exists st1,
    tintCanvas st1 = tintCanvas st /\
    generate size rough blur ro bo st k =
    redraw size (JS.orElse ro rough) (JS.orElse bo blur) st1 k.
Proof.
  intros Hmiss. unfold generate.
  set (st1 := match offCanvas st with Some _ => st | None => _ end).
  assert (Hkey : same_key size (JS.orElse ro rough) (JS.orElse bo blur) st1 =
                 false).
  { destruct (same_key _ _ _ st1) eqn:E; [ | reflexivity].
    apply same_key_spec in E. exfalso. apply Hmiss.
    subst st1. destruct (offCanvas st); exact E. }
  rewrite Hkey. exists st1. split; [ | reflexivity].
  subst st1. destruct (offCanvas st); reflexivity.
Qed.

(** C1. A second call of [generate] whose effective size, roughness and
    falloff width equal those of the call before it returns at once: the
    mask canvas, the cached key and the position in the random stream
    are those the first call left.  A second call in which one of the
    three differs draws the mask again and stores the new key; the tint
    canvas is kept.  The new mask is a cleared canvas of
    [ceil ((size * 1.5 + size) * 2)] pixels a side on which one shape is
    filled: the circle of the new radius about the centre, with no random
    number drawn, when the new roughness is not above 0; a polygon of 41
    points, all within half the roughness of the new radius from the
    centre, drawn with fourteen random numbers, when it is.  The fill is
    the radial gradient from opaque to transparent white when the new
    falloff width is below 95 and plain white otherwise. *)
Theorem generate_cache
        (size rough blur : R) (ro bo : option R)
        (size' rough' blur' : R) (ro' bo' : option R)
        (st : StampState) (k : nat) :
  let first := generate size rough blur ro bo st k in
  let second := generate size' rough' blur' ro' bo' (fst first) (snd first) in
  let fr := JS.orElse ro' rough' in
  let fb := JS.orElse bo' blur' in
  let cs := JS.ceil ((size' * 1.5 + size') * 2) in
  let c := IZR cs / 2 in
  let rough_px := fr / 100 * size' * 1.5 in
  let stops := [(0, "rgba(255, 255, 255, 1)"%string);
                (1, "rgba(255, 255, 255, 0)"%string)] in
  (size' = size /\
   JS.orElse ro' rough' = JS.orElse ro rough /\
   JS.orElse bo' blur' = JS.orElse bo blur ->
   second = first) /\
  (~ (size' = size /\
      JS.orElse ro' rough' = JS.orElse ro rough /\
      JS.orElse bo' blur' = JS.orElse bo blur) ->
   second = redraw size' (JS.orElse ro' rough') (JS.orElse bo' blur')
                   (fst first) (snd first) /\
   lastSize (fst second) = size' /\
   lastRoughness (fst second) = JS.orElse ro' rough' /\
   lastBlurWidth (fst second) = JS.orElse bo' blur' /\
   tintCanvas (fst second) = tintCanvas (fst first) /\
   exists shape style,
     offCanvas (fst second) =
     Some (paint SourceOver 1 (rasterize shape style) (blank cs cs)) /\
     (fr <= 0 ->
      shape = Circle c c size' /\
      snd second = snd first /\
      (fb < 95 -> style = RadialGradient c c 0 c c size' stops)) /\
     (0 < fr ->
      snd second = (snd first + 14)%nat /\
      (fb < 95 ->
       style = RadialGradient c c 0 c c (size' + rough_px / 2) stops) /\
      exists pts,
        shape = Polygon pts /\
        List.length pts = 41%nat /\
        (0 <= size' -> (forall n, 0 <= random n < 1) ->
         Forall (fun p => exists a rho,
                     size' - rough_px / 2 <= rho <= size' + rough_px / 2 /\
                     p = (c + cos a * rho, c + sin a * rho)) pts)) /\
     (95 <= fb -> style = Color "white")).
Proof.
  intros first second fr fb cs c rough_px stops.
  destruct (generate_key size rough blur ro bo st k) as (Hs & Hr & Hb & Hoff).
  fold first in Hs, Hr, Hb, Hoff.
  assert (Hsecond :
            second =
            if same_key size' fr fb (fst first)
            then (fst first, snd first)
            else redraw size' fr fb (fst first) (snd first)).
  { subst second. unfold generate at 1. fold fr fb.
    destruct (offCanvas (fst first)); [reflexivity | contradiction]. }
  split.
  - intros (E1 & E2 & E3).
    rewrite Hsecond.
    replace (same_key size' fr fb (fst first)) with true.
    + destruct first; reflexivity.
    + symmetry. apply same_key_spec. rewrite Hs, Hr, Hb. auto.
  - intros Hdiff.
    assert (E : same_key size' fr fb (fst first) = false).
    { destruct (same_key _ _ _ _) eqn:E; [ | reflexivity].
      apply same_key_spec in E. rewrite Hs, Hr, Hb in E. contradiction. }
    rewrite E in Hsecond.
    split; [exact Hsecond | ].
    rewrite Hsecond.
    destruct (redraw_key size' fr fb (fst first) (snd first))
      as (K1 & K2 & K3 & _).
    split; [exact K1 | split; [exact K2 | split; [exact K3 | ]]].
    unfold redraw. fold cs c rough_px stops.
    destruct (Rlt_dec 0 fr) as [Hrough | Hsmooth].
    + destruct (outline_fold_count size' rough_px c (seq 0 41) [] size'
                                   (snd first)) as [Hlen Hseed].
      assert (Hring :
                0 <= size' -> (forall n, 0 <= random n < 1) ->
                Forall
                  (fun p => exists a rho,
                       size' - rough_px / 2 <= rho <= size' + rough_px / 2 /\
                       p = (c + cos a * rho, c + sin a * rho))
                       (fst (fst (fold_left (outline_step size' rough_px c)
                                            (seq 0 41)
                                            ([], size', snd first))))).
      { intros Hsz Hrand.
        assert (Hpos : 0 <= rough_px) by (unfold rough_px; nra).
        apply outline_fold_radius;
          [exact Hpos | exact Hrand | constructor | lra]. }
      cbv zeta in Hlen, Hseed.
      destruct (fold_left _ (seq 0 41) _) as [[pts lastR] k'].
      cbn [fst snd offCanvas tintCanvas List.length] in *.
      split; [reflexivity | ].
      eexists _, _. split; [reflexivity | ].
      split; [intros; lra | split; [ | ]].
      * intros _. split; [exact Hseed | split].
        -- intros Hfb. destruct (Rlt_dec fb 95); [reflexivity | lra].
        -- exists pts. split; [reflexivity | split; [exact Hlen | exact Hring]].
      * intros Hfb. destruct (Rlt_dec fb 95); [lra | reflexivity].
    + cbn [fst snd offCanvas tintCanvas].
      split; [reflexivity | ].
      eexists _, _. split; [reflexivity | ].
      split; [ | split; [intros; lra | ]].
      * intros _. split; [reflexivity | split; [reflexivity | ]].
        intros Hfb. destruct (Rlt_dec fb 95); [reflexivity | lra].
      * intros Hfb. destruct (Rlt_dec fb 95); [lra | reflexivity].
Qed.

(** X1. How many random numbers [generate] draws: none when the key is
    the cached one; none for a smooth stamp (roughness not above 0), which
    is a circle around the centre of the canvas; fourteen for a rough
    stamp, whose outline is a polygon of 41 points. *)
Theorem generate_random_draws (size rough blur : R) (ro bo : option R)
        (st : StampState) (k : nat) :
  let fr := JS.orElse ro rough in
  let fb := JS.orElse bo blur in
  let cs := JS.ceil ((size * 1.5 + size) * 2) in
  let hit := size = lastSize st /\ fr = lastRoughness st /\
             fb = lastBlurWidth st in
  let r := generate size rough blur ro bo st k in
  (hit -> snd r = k) /\
  (~ hit -> fr <= 0 ->
   snd r = k /\
   exists style,
     offCanvas (fst r) =
     Some (paint SourceOver 1
                 (rasterize (Circle (IZR cs / 2) (IZR cs / 2) size) style)
                 (blank cs cs))) /\
  (~ hit -> 0 < fr ->
   snd r = (k + 14)%nat /\
   exists pts style,
     List.length pts = 41%nat /\
     offCanvas (fst r) =
     Some (paint SourceOver 1 (rasterize (Polygon pts) style) (blank cs cs))).
Proof.
  intros fr fb cs hit r. split; [ | split].
  - intros (H1 & H2 & H3). subst r. unfold generate.
    set (st1 := match offCanvas st with Some _ => st | None => _ end).
    replace (same_key size (JS.orElse ro rough) (JS.orElse bo blur) st1)
      with true; [reflexivity | ].
    symmetry. apply same_key_spec.
    subst st1. destruct (offCanvas st); cbn; auto.
  - intros Hmiss Hfr.
    destruct (generate_miss size rough blur ro bo st k Hmiss)
      as (st1 & _ & Hgen).
    subst r. rewrite Hgen. unfold redraw. fold fr fb cs.
    destruct (Rlt_dec 0 fr) as [H | _]; [lra | ].
    cbn [fst snd offCanvas]. split; [reflexivity | ].
    eexists. reflexivity.
  - intros Hmiss Hfr.
    destruct (generate_miss size rough blur ro bo st k Hmiss)
      as (st1 & _ & Hgen).
    subst r. rewrite Hgen. unfold redraw. fold fr fb cs.
    destruct (Rlt_dec 0 fr) as [_ | H]; [ | lra].
    destruct (outline_fold_count size (fr / 100 * size * 1.5) (IZR cs / 2)
                                 (seq 0 41) [] size k) as [Hlen Hseed].
    cbv zeta in Hlen, Hseed.
    destruct (fold_left _ (seq 0 41) _) as [[pts lastR] k'].
    cbn [fst snd offCanvas] in *.
    split; [exact Hseed | ].
    exists pts. eexists. split; [exact Hlen | reflexivity].
Qed.

(** X2. A rough stamp fits its canvas.  For a size that is not negative,
    a roughness above 0 and at most 100 and random numbers from 0 up to
    1, every point of the outline that [generate] draws on a cache miss
    lies within the square canvas, at a distance from its centre between
    a quarter of the size and seven quarters of it. *)
Theorem rough_outline_in_canvas (size rough blur : R) (ro bo : option R)
        (st : StampState) (k : nat) :
  let fr := JS.orElse ro rough in
  let fb := JS.orElse bo blur in
  let cs := JS.ceil ((size * 1.5 + size) * 2) in
  0 <= size ->
  0 < fr <= 100 ->
  (forall n, 0 <= random n < 1) ->
  ~ (size = lastSize st /\ fr = lastRoughness st /\ fb = lastBlurWidth st) ->
  exists pts style,
    offCanvas (fst (generate size rough blur ro bo st k)) =
    Some (paint SourceOver 1 (rasterize (Polygon pts) style) (blank cs cs)) /\
    Forall (fun p =>
              0 <= fst p <= IZR cs /\ 0 <= snd p <= IZR cs /\
              exists a rho,
                size / 4 <= rho <= 7 * size / 4 /\
                p = (IZR cs / 2 + cos a * rho, IZR cs / 2 + sin a * rho))
           pts.
Proof.
  intros fr fb cs Hsize Hfr Hrand Hmiss.
  destruct (generate_miss size rough blur ro bo st k Hmiss)
    as (st1 & _ & Hgen).
  rewrite Hgen. unfold redraw. fold fr fb cs.
  destruct (Rlt_dec 0 fr) as [_ | H]; [ | lra].
  set (roughness := fr / 100 * size * 1.5).
  assert (Hrough : 0 <= roughness <= 1.5 * size).
  { unfold roughness. split; nra. }
  assert (Hring' : forall k0,
             Forall (fun p => exists a rho,
                         size - roughness / 2 <= rho <= size + roughness / 2 /\
                         p = (IZR cs / 2 + cos a * rho,
                              IZR cs / 2 + sin a * rho))
                    (fst (fst (fold_left
                                 (outline_step size roughness (IZR cs / 2))
                                 (seq 0 41) ([], size, k0))))).
  { intros k0.
    apply (outline_fold_radius size roughness (IZR cs / 2) (seq 0 41)
                               (proj1 Hrough) Hrand [] size k0).
    - constructor.
    - lra. }
  specialize (Hring' k).
  destruct (fold_left _ (seq 0 41) _) as [[pts lastR] k'].
  cbn [fst snd offCanvas] in *.
  exists pts. eexists. split; [reflexivity | ].
  assert (Hcs : 5 * size <= IZR cs).
  { unfold cs. eapply Rle_trans; [ | apply ceil_ge]. lra. }
  eapply Forall_impl; [ | exact Hring'].
  intros p (a & rho & Hrho & ->). cbn [fst snd].
  assert (Hq : size / 4 <= rho <= 7 * size / 4) by lra.
  destruct (COS_bound a) as [Hc1 Hc2].
  destruct (SIN_bound a) as [Hs1 Hs2].
  assert (Hrho0 : 0 <= rho) by lra.
  repeat split; try nra.
  exists a, rho. split; [exact Hq | reflexivity].
Qed.

(** *** The width of an organic river *)

(** X3. The organic river keeps its width factors in range.  With random
    numbers from 0 up to 1, a dab in river mode with the organic river on
    leaves the current and the target width factor between 0.6 and 1.1
    when they were, the distance to the next change between 20 and 60 when
    it was, and the distance travelled not negative when it was. *)
Theorem organic_river_range (x y : R) (state : AppState) (wd : World)
        (mctx : Context2D) :
  mapCtx (engine wd) = Some mctx ->
  paintMode state = river ->
  isOrganicRiver state = true ->
  (forall n, 0 <= random n < 1) ->
  let rs := riverState (engine wd) in
  let rs' := riverState (engine (applyPaint x y state wd)) in
  (0.6 <= currentWidthFactor rs <= 1.1 ->
   0.6 <= targetWidthFactor rs <= 1.1 ->
   0.6 <= currentWidthFactor rs' <= 1.1 /\
   0.6 <= targetWidthFactor rs' <= 1.1) /\
  (20 <= distToNextChange rs <= 60 -> 20 <= distToNextChange rs' <= 60) /\
  (0 <= traveledSinceChange rs -> 0 <= traveledSinceChange rs').
Proof.
  intros Hmap Hmode Horg Hrand rs rs'.
  assert (Hrs' := applyPaint_river_state x y state wd mctx Hmap Hmode Horg).
  cbv zeta in Hrs'. fold rs' in Hrs'. rewrite Hrs'.
  cbn [currentWidthFactor targetWidthFactor distToNextChange
       traveledSinceChange].
  unfold organicRiver. fold rs.
  assert (Hd : 0 <= JS.hypot (x - lastX rs) (y - lastY rs)).
  { unfold JS.hypot. apply sqrt_pos. }
  assert (H0 := Hrand (seed wd)). assert (H1 := Hrand (S (seed wd))).
  destruct (Rge_dec _ _) as [Hge | Hlt];
    cbn [fst currentWidthFactor targetWidthFactor distToNextChange
         traveledSinceChange].
  - repeat split; intros; lra.
  - repeat split; intros; lra.
Qed.

(** *** What a dab and a path segment leave alone *)

Lemma renderTextureLayer_besidesPaint dx dy dr e :
  besidesPaint (renderTextureLayer dx dy dr e) = besidesPaint e.
Proof.
  destruct (renderTextureLayer_frame dx dy dr e) as [-> | [c ->]];
    reflexivity.
Qed.

Lemma applyPaint_besidesPaint (x y : R) (state : AppState) (wd : World) :
  besidesPaint (engine (applyPaint x y state wd)) = besidesPaint (engine wd).
Proof.
  unfold applyPaint.
  destruct (mapCtx (engine wd)) as [mctx | ]; [ | reflexivity].
  cbn [engine]. unfold paintDab.
  destruct (paintMode state); try reflexivity.
  - unfold drawToMask. stamp_step. stamp_step. cbn [engine].
    unfold besidesPaint at 1.
    cbn [waterCtx pathCtx assetCtx textCtx pathRemainder currentTextureImg
         setRiverState].
    fold (besidesPaint
            (renderTextureLayer (Some x) (Some y) (Some (brushSize state * 3))
               (setMapCtx
                  (withCanvas
                     (paint (globalCompositeOperation mctx)
                            (brushBlur state / 100) a0 (canvas mctx)) mctx)
                  (setMaskCtx
                     (withCanvas
                        (paint (globalCompositeOperation (maskCtx (engine wd)))
                               1 a (canvas (maskCtx (engine wd))))
                        (maskCtx (engine wd))) (engine wd))))).
    now rewrite renderTextureLayer_besidesPaint.
  - destruct (if isOrganicRiver state then _ else _) as [[rs fr] k0].
    unfold eraseFromMask. stamp_step. stamp_step. cbn [engine].
    match goal with
    | |- besidesPaint (setRiverState _ (renderTextureLayer ?a ?b ?c ?e0)) = _ =>
      change (besidesPaint (renderTextureLayer a b c e0) =
              besidesPaint (engine wd))
    end.
    now rewrite renderTextureLayer_besidesPaint.
  - destruct (truthy (activeTexture state)).
    + stamp_step. cbn [engine].
      match goal with
      | |- besidesPaint (setRiverState _ (renderTextureLayer ?a ?b ?c ?e0)) = _ =>
        change (besidesPaint (renderTextureLayer a b c e0) =
                besidesPaint (engine wd))
      end.
      now rewrite renderTextureLayer_besidesPaint.
    + stamp_step. reflexivity.
Qed.

(** X4. A dab leaves the water, path, asset and text layers, the path
    remainder and the texture image as they are, whatever the paint mode.
    On a bound map layer it records its position in [lastX] and [lastY];
    in a paint mode other than terrain, river and texture that is all it
    does. *)
Theorem dab_frame (x y : R) (state : AppState) (wd : World) :
  let wd' := applyPaint x y state wd in
  besidesPaint (engine wd') = besidesPaint (engine wd) /\
  (mapCtx (engine wd) <> None ->
   lastX (riverState (engine wd')) = x /\
   lastY (riverState (engine wd')) = y) /\
  (paintMode state <> terrain -> paintMode state <> river ->
   paintMode state <> texture ->
   forall rs, setRiverState rs (engine wd') = setRiverState rs (engine wd) /\
              stamp wd' = stamp wd /\ seed wd' = seed wd).
Proof.
  intros wd'. split; [apply applyPaint_besidesPaint | split].
  - intros Hmap. subst wd'. unfold applyPaint.
    destruct (mapCtx (engine wd)); [ | contradiction].
    split; reflexivity.
  - intros Ht Hr Hx rs. subst wd'. unfold applyPaint.
    destruct (mapCtx (engine wd)) as [mctx | ]; [ | repeat split].
    unfold paintDab.
    destruct (paintMode state); try contradiction; repeat split.
Qed.

(** X5. A path segment changes nothing but the path layer and the path
    remainder.  On a bound path layer a segment that is at least 0.5 long
    leaves the fill style of the path context at the path colour and its
    global alpha at the brush opacity, and keeps the compositing operator
    and the size of the canvas. *)
Theorem path_segment_frame (x1 y1 x2 y2 : R) (state : AppState)
        (e : MapEngine) :
  let e' := drawPathSegment x1 y1 x2 y2 state e in
  (forall c r, setPath c r e' = setPath c r e) /\
  (forall ctx,
      pathCtx e = Some ctx ->
      0.5 <= JS.hypot (x2 - x1) (y2 - y1) ->
      exists ctx',
        pathCtx e' = Some ctx' /\
        fillStyle ctx' = Color (pathColor state) /\
        globalAlpha ctx' = brushBlur state / 100 /\
        globalCompositeOperation ctx' = globalCompositeOperation ctx /\
        width (canvas ctx') = width (canvas ctx) /\
        height (canvas ctx') = height (canvas ctx)).
Proof.
  intros e'. subst e'. unfold drawPathSegment. split.
  - intros c r.
    destruct (pathCtx e) as [ctx | ]; [ | reflexivity].
    destruct (Rlt_dec _ 0.5); [reflexivity | ].
    destruct (segmentMarks _ _ _ _ _ _) as [marks remainder].
    reflexivity.
  - intros ctx Hctx Hlen. rewrite Hctx.
    destruct (Rlt_dec _ 0.5) as [H | _]; [lra | ].
    destruct (segmentMarks _ _ _ _ _ _) as [marks remainder].
    eexists. split; [reflexivity | ].
    cbn [fillStyle globalAlpha globalCompositeOperation withCanvas canvas].
    repeat split.
    + clear. induction marks as [ | m marks IH] using rev_ind;
        [reflexivity | ].
      rewrite fold_left_app. cbn. exact IH.
    + clear. induction marks as [ | m marks IH] using rev_ind;
        [reflexivity | ].
      rewrite fold_left_app. cbn. exact IH.
Qed.

(** *** What every call keeps *)

Lemma renderTextureLayer_layerShape dx dy dr e :
  option_map layerShape (textureLayerCtx (renderTextureLayer dx dy dr e)) =
  option_map layerShape (textureLayerCtx e).
Proof.
  unfold renderTextureLayer.
  destruct (textureLayerCtx e) as [ctx | ] eqn:E; [ | now rewrite E].
  destruct (currentTextureImg e) as [img | ].
  - destruct (draw_rect _ _ _) as [[[[x y] w] h] | ]; [ | now rewrite E].
    destruct (createPattern img); reflexivity.
  - destruct (dirty_box dx dy dr) as [[[l t] s] | ]; reflexivity.
Qed.

Lemma wellFormed_render (w h : Z) dx dy dr (e : MapEngine) :
  wellFormed w h e -> wellFormed w h (renderTextureLayer dx dy dr e).
Proof.
  intros (Hmap & Htex & Hmask & Htm & Hpath & Hwater & Hasset & Htext & Hrem).
  assert (Hb := renderTextureLayer_besidesPaint dx dy dr e).
  unfold besidesPaint in Hb. injection Hb as B1 B2 B3 B4 B5 _.
  unfold wellFormed.
  rewrite renderTextureLayer_mapCtx, renderTextureLayer_layerShape,
    renderTextureLayer_maskCtx, renderTextureLayer_textureMaskCtx,
    B1, B2, B3, B4, B5.
  repeat split; assumption.
Qed.

Lemma fillMark_size (ctx : Context2D) (marks : list Shape) (c : Canvas) :
  width (fold_left (fillMark ctx) marks c) = width c /\
  height (fold_left (fillMark ctx) marks c) = height c.
Proof.
  revert c. induction marks as [ | m marks IH]; intros c; [now split | ].
  cbn [fold_left]. destruct (IH (fillMark ctx c m)) as [-> ->]. now split.
Qed.

Lemma init_wellFormed (w h : Z) (e : MapEngine) :
  0 <= pathRemainder e -> wellFormed w h (init w h e).
Proof.
  intros Hrem. unfold wellFormed, init. cbn.
  repeat split; try discriminate; try assumption.
  - eexists. repeat split.
  - eexists. repeat split.
Qed.

Lemma applyPaint_layerShape (x y : R) (state : AppState) (wd : World) :
  let e := engine wd in
  let e' := engine (applyPaint x y state wd) in
  option_map layerShape (mapCtx e') = option_map layerShape (mapCtx e) /\
  layerShape (maskCtx e') = layerShape (maskCtx e) /\
  layerShape (textureMaskCtx e') = layerShape (textureMaskCtx e) /\
  option_map layerShape (textureLayerCtx e') =
  option_map layerShape (textureLayerCtx e).
Proof.
  intros e e'. subst e e'. unfold applyPaint.
  destruct (mapCtx (engine wd)) as [mctx | ] eqn:Hmap.
  - cbn [engine mapCtx maskCtx textureMaskCtx textureLayerCtx setRiverState].
    unfold paintDab.
    destruct (paintMode state).
    + unfold drawToMask. stamp_step. stamp_step. cbn [engine].
      rewrite renderTextureLayer_mapCtx, renderTextureLayer_maskCtx,
        renderTextureLayer_textureMaskCtx, renderTextureLayer_layerShape.
      cbn. rewrite ?Hmap. repeat split.
    + destruct (if isOrganicRiver state then _ else _) as [[rs fr] k0].
      unfold eraseFromMask. stamp_step. stamp_step. cbn [engine].
      rewrite renderTextureLayer_mapCtx, renderTextureLayer_maskCtx,
        renderTextureLayer_textureMaskCtx, renderTextureLayer_layerShape.
      cbn. rewrite ?Hmap. repeat split.
    + rewrite ?Hmap. repeat split.
    + destruct (truthy (activeTexture state)).
      * stamp_step. cbn [engine].
        rewrite renderTextureLayer_mapCtx, renderTextureLayer_maskCtx,
          renderTextureLayer_textureMaskCtx, renderTextureLayer_layerShape.
        cbn. rewrite ?Hmap. repeat split.
      * stamp_step. cbn. rewrite ?Hmap. repeat split.
    + rewrite ?Hmap. repeat split.
    + rewrite ?Hmap. repeat split.
  - rewrite ?Hmap. repeat split.
Qed.

Lemma wellFormed_applyPaint (w h : Z) (x y : R) (state : AppState)
      (wd : World) :
  wellFormed w h (engine wd) ->
  wellFormed w h (engine (applyPaint x y state wd)).
Proof.
  intros (Hmap & Htex & Hmask & Htm & Hpath & Hwater & Hasset & Htext & Hrem).
  destruct (applyPaint_layerShape x y state wd) as (S1 & S2 & S3 & S4).
  assert (Hb := applyPaint_besidesPaint x y state wd).
  unfold besidesPaint in Hb. injection Hb as B1 B2 B3 B4 B5 _.
  unfold wellFormed.
  rewrite S1, S2, S3, S4, B1, B2, B3, B4, B5.
  repeat split; assumption.
Qed.

Lemma wellFormed_loaded (w h : Z) (p : Layer * DataURL) (e : MapEngine) :
  wellFormed w h e -> wellFormed w h (loaded w h e p).
Proof.
  intros Hwf. unfold loaded.
  destruct (decode (snd p)) as [img | ]; [ | exact Hwf].
  destruct Hwf
    as (Hmap & Htex & Hmask & Htm & Hpath & Hwater & Hasset & Htext & Hrem).
  destruct (fst p); cbn [onload].
  - destruct (mapCtx e) as [ctx | ] eqn:E; [ | discriminate].
    unfold wellFormed. cbn. cbn in Hmap.
    repeat split; assumption.
  - destruct Hpath as (ctx & E & Hop & Hw & Hh). rewrite E.
    unfold wellFormed. cbn.
    repeat split; try assumption.
    eexists. repeat split; assumption.
  - apply wellFormed_render. unfold wellFormed. cbn.
    repeat split; assumption.
  - apply wellFormed_render. unfold wellFormed. cbn.
    repeat split; assumption.
Qed.

Lemma wellFormed_step (w h : Z) (e e' : MapEngine) :
  engine_step w h e e' -> wellFormed w h e -> wellFormed w h e'.
Proof.
  intros Hstep Hwf.
  destruct Hstep.
  - (* a path segment *)
    destruct Hwf
      as (Hmap & Htex & Hmask & Htm & Hpath & Hwater & Hasset & Htext & Hrem).
    destruct Hpath as (ctx & E & Hop & Hw & Hh).
    unfold drawPathSegment. rewrite E.
    destruct (Rlt_dec _ 0.5).
    + unfold wellFormed. repeat split; try assumption.
      exists ctx. repeat split; assumption.
    + assert (Hsp : 1 <= Rmax 1 (brushSize state * pathSpacing state))
        by apply Rmax_l.
      assert (Hexit := pathLoop_exit
                (pathMark state x1 y1
                          ((x2 - x1) / JS.hypot (x2 - x1) (y2 - y1))
                          ((y2 - y1) / JS.hypot (x2 - x1) (y2 - y1))
                          (JS.atan2 (y2 - y1) (x2 - x1)))
                (JS.hypot (x2 - x1) (y2 - y1)) _ Hsp
                (pathFuel (JS.hypot (x2 - x1) (y2 - y1)) (pathRemainder e))
                (pathRemainder e) (pathFuel_enough _ _)).
      unfold segmentMarks.
      destruct (pathLoop _ _ _ _ _) as [marks final].
      cbn [snd] in Hexit. destruct Hexit as [Hexit _].
      unfold wellFormed. cbn.
      repeat split; try assumption; [ | lra].
      eexists. split; [reflexivity | ]. cbn.
      destruct (fillMark_size
                  (mkCtx (canvas ctx) (brushBlur state / 100)
                         (globalCompositeOperation ctx)
                         (Color (pathColor state)))
                  marks (canvas ctx)) as [-> ->].
      repeat split; assumption.
  - (* the reset of the remainder *)
    destruct Hwf
      as (Hmap & Htex & Hmask & Htm & Hpath & Hwater & Hasset & Htext & Hrem).
    unfold wellFormed. cbn. repeat split; try assumption. lra.
  - (* shallow water *)
    destruct Hwf
      as (Hmap & Htex & Hmask & Htm & Hpath & Hwater & Hasset & Htext & Hrem).
    destruct Hwater as (ctx & E & Hw & Hh).
    unfold updateShallowWater. rewrite E.
    destruct (negb isEnabled); unfold wellFormed; cbn;
      repeat split; try assumption;
        eexists; (split; [reflexivity | ]); cbn; split; assumption.
  - (* a change of texture *)
    apply wellFormed_render.
    destruct Hwf
      as (Hmap & Htex & Hmask & Htm & Hpath & Hwater & Hasset & Htext & Hrem).
    unfold wellFormed. cbn. repeat split; assumption.
  - now apply wellFormed_render.
  - (* the start of a restore *)
    unfold loadSnapshot.
    destruct (snap_textureMask snap); [exact Hwf | ].
    destruct Hwf
      as (Hmap & Htex & Hmask & Htm & Hpath & Hwater & Hasset & Htext & Hrem).
    unfold wellFormed. cbn. repeat split; assumption.
  - now apply wellFormed_loaded.
Qed.

Lemma reachable_wellFormed (w h : Z) (wd : World) :
  reachable w h wd -> wellFormed w h (engine wd).
Proof.
  induction 1 as [w h | w h w' h' wd _ IH | w h wd x y state _ IH
                  | w h wd e' _ IH Hstep].
  - apply init_wellFormed. cbn. lra.
  - apply init_wellFormed.
    destruct IH as (_ & _ & _ & _ & _ & _ & _ & _ & Hrem). exact Hrem.
  - now apply wellFormed_applyPaint.
  - cbn [engine]. eapply wellFormed_step; eassumption.
Qed.

(** X7. Every world the application reaches with an engine initialised
    for a [w] by [h] map keeps all layers bound and [w] by [h], keeps the
    map layer, the texture layer and the two masks in the drawing state
    of a fresh context (global alpha 1, source-over), keeps source-over on
    the path layer, and never makes the path remainder negative. *)
Theorem reachable_invariant (w h : Z) (wd : World) :
  reachable w h wd -> wellFormed w h (engine wd).
Proof. exact (reachable_wellFormed w h wd). Qed.

(** X8. In every such world [getSnapshot] returns a snapshot: it returns
    neither [null] nor throws for want of a path layer. *)
Theorem getSnapshot_reachable (w h : Z) (wd : World) :
  reachable w h wd ->
  exists snap, getSnapshot (engine wd) = JS.Returned (Some snap).
Proof.
  intros Hreach.
  destruct (reachable_wellFormed w h wd Hreach)
    as (Hmap & _ & _ & _ & (pth & Hpth & _) & _).
  unfold getSnapshot.
  destruct (mapCtx (engine wd)); [ | discriminate].
  rewrite Hpth. eexists. reflexivity.
Qed.

(** X9. Capture and restore on a reached world.  When the data URLs are
    lossless and every image of the restore has loaded, in whatever
    order, the map layer and the two masks show the pixels they showed at
    capture, and the path layer shows them scaled by the global alpha of
    its context. *)
Theorem restore_reachable (w h : Z) (wd : World) (snap : Snapshot)
        (order : list (Layer * DataURL)) :
  reachable w h wd ->
  lossless ->
  getSnapshot (engine wd) = JS.Returned (Some snap) ->
  Permutation (snd (loadSnapshot snap w h (engine wd))) order ->
  let e' := settle w h order (fst (loadSnapshot snap w h (engine wd))) in
  forall l,
  exists ctx ctx',
    layerCtx l (engine wd) = Some ctx /\
    layerCtx l e' = Some ctx' /\
    forall x y,
      getPixel (canvas ctx') x y =
      match l with
      | PathLayer => scale (globalAlpha ctx) (getPixel (canvas ctx) x y)
      | _ => getPixel (canvas ctx) x y
      end.
Proof.
  intros Hreach Hcodec Hsnap Hperm e' l.
  destruct (reachable_wellFormed w h wd Hreach)
    as (Hmap & _ & Hmask & Htm & (pth & Hpth & Hpop & Hpw & Hph) & _).
  destruct (mapCtx (engine wd)) as [mctx | ] eqn:Emap; [ | discriminate].
  cbn in Hmap. injection Hmap as Mga Mop Mw Mh.
  injection Hmask as Kga Kop Kw Kh.
  injection Htm as Tga Top Tw Th.
  assert (Hfull : forall ctx,
             layerCtx l (engine wd) = Some ctx ->
             globalAlpha ctx = 1 ->
             globalCompositeOperation ctx = SourceOver ->
             width (canvas ctx) = w -> height (canvas ctx) = h ->
             exists ctx',
               layerCtx l e' = Some ctx' /\
               forall x y, getPixel (canvas ctx') x y =
                           getPixel (canvas ctx) x y).
  { intros ctx Hl Hga Hop Hw Hh.
    apply (restore_layer_at_full_alpha l (engine wd) mctx pth ctx snap w h
                                       order); try assumption.
    - unfold drawingState. now rewrite Hga, Hop.
    - lia.
    - lia. }
  destruct l.
  - destruct (Hfull mctx Emap Mga Mop Mw Mh) as (ctx' & H1 & H2).
    exists mctx, ctx'. repeat split; assumption.
  - destruct (restore_layer PathLayer (engine wd) mctx pth pth snap w h order)
      as (ctx' & H1 & _ & H2); try assumption; try lia.
    exists pth, ctx'. repeat split; assumption.
  - destruct (Hfull (maskCtx (engine wd)) eq_refl Kga Kop Kw Kh)
      as (ctx' & H1 & H2).
    eexists _, ctx'. repeat split; [exact H1 | exact H2].
  - destruct (Hfull (textureMaskCtx (engine wd)) eq_refl Tga Top Tw Th)
      as (ctx' & H1 & H2).
    eexists _, ctx'. repeat split; [exact H1 | exact H2].
Qed.

(** *** The texture layer as derived data *)

Lemma inside_in_rect (c : Canvas) (x y : Z) :
  inside c x y = true -> in_rect 0 0 (width c) (height c) x y = true.
Proof.
  unfold inside, in_rect. rewrite !andb_true_iff.
  intros [[[E1 E2] E3] E4].
  apply Z.leb_le in E1, E3. apply Z.ltb_lt in E2, E4.
  repeat split; try apply Z.leb_le; try apply Z.ltb_lt; lia.
Qed.

(** A rendering of the whole texture layer, on a context in its initial
    drawing state, makes the layer agree with the pattern and the
    masks. *)
Lemma full_render_consistent (e : MapEngine) (ctx : Context2D) :
  textureLayerCtx e = Some ctx ->
  drawingState ctx = (1, SourceOver) ->
  textureConsistent (renderTextureLayer None None None e).
Proof.
  intros Hctx Hstate. injection Hstate as Hga Hop.
  unfold renderTextureLayer. rewrite Hctx.
  destruct (currentTextureImg e) as [img | ] eqn:Himg.
  - cbn [dirty_box draw_rect].
    unfold textureConsistent, texturePixel.
    cbn [textureLayerCtx setTextureLayerCtx currentTextureImg maskCtx
         textureMaskCtx withCanvas canvas].
    rewrite Himg. intros x y. unfold getPixel at 1.
    replace (inside _ x y) with (inside (canvas ctx) x y)
      by (destruct (createPattern img); reflexivity).
    destruct (inside (canvas ctx) x y) eqn:Hin; [ | reflexivity].
    apply inside_in_rect in Hin.
    cbn [pix paint]. unfold image_slice, pattern_rect. rewrite Hin, Hga.
    replace (x - 0 + 0)%Z with x by lia.
    replace (y - 0 + 0)%Z with y by lia.
    destruct (createPattern img) eqn:Hpat.
    + rewrite Hop. cbn [pix paint clearRect]. rewrite Hin.
      apply pixel_ext; cbn; ring.
    + cbn [pix clearRect]. rewrite Hin.
      rewrite (createPattern_None img x y Hpat).
      apply pixel_ext; cbn; ring.
  - cbn [dirty_box].
    unfold textureConsistent, texturePixel.
    cbn [textureLayerCtx setTextureLayerCtx currentTextureImg withCanvas
         canvas].
    rewrite Himg. intros x y. unfold getPixel at 1.
    change (inside (clearRect 0 0 (width (canvas ctx)) (height (canvas ctx))
                              (canvas ctx)) x y)
      with (inside (canvas ctx) x y).
    destruct (inside (canvas ctx) x y) eqn:Hin; [ | reflexivity].
    apply inside_in_rect in Hin. cbn [pix clearRect]. now rewrite Hin.
Qed.

Lemma loaded_texture_state (w h : Z) (p : Layer * DataURL) (e : MapEngine) :
  option_map drawingState (textureLayerCtx (loaded w h e p)) =
  option_map drawingState (textureLayerCtx e).
Proof.
  unfold loaded. destruct (decode (snd p)) as [img | ]; [ | reflexivity].
  destruct (fst p); cbn [onload].
  - destruct (mapCtx e); reflexivity.
  - destruct (pathCtx e); reflexivity.
  - now rewrite renderTextureLayer_drawingState.
  - now rewrite renderTextureLayer_drawingState.
Qed.

Lemma settle_texture_consistent (w h : Z) (order : list (Layer * DataURL)) :
  forall e,
    option_map drawingState (textureLayerCtx e) = Some (1, SourceOver) ->
    textureConsistent e \/ maskArrives order ->
    textureConsistent (settle w h order e).
Proof.
  induction order as [ | p order IH]; intros e Hstate Hcase.
  - destruct Hcase as [Hc | (l & src & img & [] & _)]. exact Hc.
  - rewrite settle_cons.
    assert (Hstate' := loaded_texture_state w h p e).
    rewrite Hstate in Hstate'.
    apply IH; [exact Hstate' | ].
    assert (Hrest : forall l src img,
               In (l, src) (p :: order) ->
               l = MaskLayer \/ l = TextureMaskLayer ->
               decode src = Some img ->
               (l, src) <> p -> maskArrives order).
    { intros l src img [Heq | Hin] Hl Hdec Hne.
      - exfalso. now apply Hne.
      - exists l, src, img. auto. }
    destruct p as [l0 src0]. unfold loaded. cbn [fst snd].
    destruct (decode src0) as [img0 | ] eqn:Hdec0.
    + destruct (textureLayerCtx e) as [ctx | ] eqn:Hctx; [ | discriminate].
      assert (Hst : drawingState ctx = (1, SourceOver)).
      { apply (f_equal (fun o => match o with
                                 | Some st => st
                                 | None => (0, SourceOver)
                                 end)) in Hstate.
        exact Hstate. }
      destruct l0; cbn [onload].
      * (* the map layer *)
        destruct Hcase as [Hc | (l & src & img & Hin & Hl & Hdec)].
        -- left. destruct (mapCtx e); [ | exact Hc].
           unfold textureConsistent, texturePixel in *. cbn.
           rewrite Hctx in *. exact Hc.
        -- right. apply (Hrest l src img Hin Hl Hdec).
           intros Heq. injection Heq as -> _.
           destruct Hl; discriminate.
      * (* the path layer *)
        destruct Hcase as [Hc | (l & src & img & Hin & Hl & Hdec)].
        -- left. destruct (pathCtx e); [ | exact Hc].
           unfold textureConsistent, texturePixel in *. cbn.
           rewrite Hctx in *. exact Hc.
        -- right. apply (Hrest l src img Hin Hl Hdec).
           intros Heq. injection Heq as -> _.
           destruct Hl; discriminate.
      * left. apply (full_render_consistent _ ctx); [exact Hctx | exact Hst].
      * left. apply (full_render_consistent _ ctx); [exact Hctx | exact Hst].
    + destruct Hcase as [Hc | (l & src & img & Hin & Hl & Hdec)].
      * left. exact Hc.
      * right. apply (Hrest l src img Hin Hl Hdec).
        intros Heq. injection Heq as -> ->. congruence.
Qed.

(** X10. A restore ends with a texture layer that agrees with the
    restored masks.  On a texture layer in its initial drawing state, once
    the images of a restore have arrived, in whatever order and whichever
    of them fail to load, and at least one of the two mask images has
    arrived, every pixel of the texture layer is the pattern pixel cut by
    the texture mask and the land mask as they then are (or transparent
    without a pattern image). *)
Theorem restore_texture_consistent (w h : Z) (order : list (Layer * DataURL))
        (e : MapEngine) (ctx : Context2D) :
  textureLayerCtx e = Some ctx ->
  drawingState ctx = (1, SourceOver) ->
  maskArrives order ->
  textureConsistent (settle w h order e).
Proof.
  intros Hctx Hstate Harr.
  apply settle_texture_consistent; [ | now right].
  rewrite Hctx. cbn. now rewrite Hstate.
Qed.

Lemma textureConsistent_same (e1 e2 : MapEngine) (c1 c2 : Context2D) :
  textureLayerCtx e1 = Some c1 ->
  textureLayerCtx e2 = Some c2 ->
  layerShape c1 = layerShape c2 ->
  (forall x y, texturePixel e1 x y = texturePixel e2 x y) ->
  textureConsistent e1 -> textureConsistent e2 ->
  same_pixels (canvas c1) (canvas c2).
Proof.
  intros H1 H2 Hshape Hpx T1 T2.
  injection Hshape as _ _ Hw Hh.
  unfold textureConsistent in T1, T2. rewrite H1 in T1. rewrite H2 in T2.
  repeat split; try assumption.
  intros x y. rewrite T1, T2, Hpx.
  unfold inside. now rewrite Hw, Hh.
Qed.

(** X11. The texture layer is derived data.  With the texture layer in
    its initial drawing state, taking the texture away shows a transparent
    texture layer and leaves both masks as they are; choosing a texture
    again afterwards shows the pixels that choosing it at once would have
    shown. *)
Theorem texture_off_and_on (e : MapEngine) (ctx : Context2D) (img : Image) :
  textureLayerCtx e = Some ctx ->
  drawingState ctx = (1, SourceOver) ->
  let off := setGlobalTexture None e in
  maskCtx off = maskCtx e /\
  textureMaskCtx off = textureMaskCtx e /\
  exists c0 c1 c2,
    textureLayerCtx off = Some c0 /\
    (forall x y, getPixel (canvas c0) x y = transparent) /\
    textureLayerCtx (setGlobalTexture (Some img) off) = Some c1 /\
    textureLayerCtx (setGlobalTexture (Some img) e) = Some c2 /\
    same_pixels (canvas c1) (canvas c2).
Proof.
  intros Hctx Hstate off.
  assert (Hoff_mask : maskCtx off = maskCtx e).
  { unfold off, setGlobalTexture. now rewrite renderTextureLayer_maskCtx. }
  assert (Hoff_tm : textureMaskCtx off = textureMaskCtx e).
  { unfold off, setGlobalTexture.
    now rewrite renderTextureLayer_textureMaskCtx. }
  split; [exact Hoff_mask | split; [exact Hoff_tm | ]].
  assert (Hbound : forall im e0 c,
             textureLayerCtx e0 = Some c ->
             exists c', textureLayerCtx (setGlobalTexture im e0) = Some c' /\
                        layerShape c' = layerShape c /\
                        drawingState c' = drawingState c).
  { intros im e0 c Hc.
    assert (Hs := renderTextureLayer_layerShape None None None
                    (setCurrentTextureImg im e0)).
    assert (Hd := renderTextureLayer_drawingState None None None
                    (setCurrentTextureImg im e0)).
    fold (setGlobalTexture im e0) in Hs, Hd.
    cbn [textureLayerCtx setCurrentTextureImg] in Hs, Hd.
    rewrite Hc in Hs, Hd.
    destruct (textureLayerCtx (setGlobalTexture im e0)) as [c' | ];
      [ | discriminate].
    exists c'.
    apply (f_equal (fun o => match o with
                             | Some st => st
                             | None => layerShape c
                             end)) in Hs.
    apply (f_equal (fun o => match o with
                             | Some st => st
                             | None => drawingState c
                             end)) in Hd.
    cbn [option_map] in Hs, Hd. repeat split; assumption. }
  destruct (Hbound None e ctx Hctx) as (c0 & Hc0 & Hs0 & Hd0).
  fold off in Hc0.
  destruct (Hbound (Some img) off c0 Hc0) as (c1 & Hc1 & Hs1 & Hd1).
  destruct (Hbound (Some img) e ctx Hctx) as (c2 & Hc2 & Hs2 & Hd2).
  exists c0, c1, c2.
  split; [exact Hc0 | split; [ | split; [exact Hc1 | split; [exact Hc2 | ]]]].
  - assert (T := full_render_consistent (setCurrentTextureImg None e) ctx
                   Hctx Hstate).
    fold (setGlobalTexture None e) in T. fold off in T.
    unfold textureConsistent in T. rewrite Hc0 in T.
    intros x y. rewrite T.
    assert (Himg : currentTextureImg off = None).
    { unfold off, setGlobalTexture.
      assert (Hb := renderTextureLayer_besidesPaint None None None
                      (setCurrentTextureImg None e)).
      unfold besidesPaint in Hb. injection Hb as _ _ _ _ _ Hb. exact Hb. }
    unfold texturePixel. rewrite Himg. now destruct (inside _ _ _).
  - apply (textureConsistent_same (setGlobalTexture (Some img) off)
                                  (setGlobalTexture (Some img) e) c1 c2
                                  Hc1 Hc2).
    + congruence.
    + intros x y.
      assert (Hi : forall e0,
                 currentTextureImg (setGlobalTexture (Some img) e0) =
                 Some img).
      { intros e0. unfold setGlobalTexture.
        assert (Hb := renderTextureLayer_besidesPaint None None None
                        (setCurrentTextureImg (Some img) e0)).
        unfold besidesPaint in Hb. injection Hb as _ _ _ _ _ Hb. exact Hb. }
      unfold texturePixel. rewrite !Hi.
      unfold setGlobalTexture.
      rewrite !renderTextureLayer_maskCtx, !renderTextureLayer_textureMaskCtx.
      cbn [maskCtx textureMaskCtx setCurrentTextureImg].
      now rewrite Hoff_mask, Hoff_tm.
    + apply (full_render_consistent (setCurrentTextureImg (Some img) off) c0);
        [exact Hc0 | congruence].
    + apply (full_render_consistent (setCurrentTextureImg (Some img) e) ctx);
        assumption.
Qed.

(** *** Shallow water and export *)

Lemma water_same (shallowColor : string) (isEnabled : bool)
      (e e' : MapEngine) (ctx ctx' : Context2D) :
  waterCtx e = Some ctx ->
  waterCtx e' = Some ctx' ->
  layerShape ctx' = layerShape ctx ->
  maskCtx e' = maskCtx e ->
  exists c1 c2,
    waterCtx (updateShallowWater shallowColor isEnabled e) = Some c1 /\
    waterCtx (updateShallowWater shallowColor isEnabled e') = Some c2 /\
    layerShape c1 = layerShape ctx /\
    maskCtx (updateShallowWater shallowColor isEnabled e) = maskCtx e /\
    same_pixels (canvas c2) (canvas c1) /\
    (isEnabled = false -> forall x y, getPixel (canvas c1) x y = transparent).
Proof.
  intros Hw Hw' Hshape Hmask.
  unfold layerShape in Hshape.
  injection Hshape as Hga Hop Hwd Hht.
  unfold updateShallowWater. rewrite Hw, Hw', Hmask.
  destruct isEnabled; cbn [negb].
  - eexists; eexists.
    split; [reflexivity | split; [reflexivity | ]].
    split; [reflexivity | split; [reflexivity | ]].
    split; [ | discriminate].
    split; [exact Hwd | split; [exact Hht | ]].
    intros x y. unfold getPixel.
    replace (inside (canvas (withCanvas _ ctx')) x y)
      with (inside (canvas ctx) x y)
      by (unfold inside; cbn; now rewrite Hwd, Hht).
    replace (inside (canvas (withCanvas _ ctx)) x y)
      with (inside (canvas ctx) x y) by reflexivity.
    destruct (inside (canvas ctx) x y) eqn:Hin; [ | reflexivity].
    assert (Hin' := inside_in_rect _ _ _ Hin).
    unfold drawMaskShadow.
    cbn [canvas withCanvas pix paint clearRect].
    rewrite Hwd, Hht, Hga, Hop, Hin'. reflexivity.
  - eexists; eexists.
    split; [reflexivity | split; [reflexivity | ]].
    split; [reflexivity | split; [reflexivity | ]].
    split.
    + split; [exact Hwd | split; [exact Hht | ]].
      intros x y. unfold getPixel.
      replace (inside (canvas (withCanvas _ ctx')) x y)
        with (inside (canvas ctx) x y)
        by (unfold inside; cbn; now rewrite Hwd, Hht).
      replace (inside (canvas (withCanvas _ ctx)) x y)
        with (inside (canvas ctx) x y) by reflexivity.
      destruct (inside (canvas ctx) x y) eqn:Hin; [ | reflexivity].
      assert (Hin' := inside_in_rect _ _ _ Hin).
      cbn [canvas withCanvas pix clearRect].
      rewrite Hwd, Hht, Hin'. reflexivity.
    + intros _ x y. unfold getPixel.
      replace (inside (canvas (withCanvas _ ctx)) x y)
        with (inside (canvas ctx) x y) by reflexivity.
      destruct (inside (canvas ctx) x y) eqn:Hin; [ | reflexivity].
      assert (Hin' := inside_in_rect _ _ _ Hin).
      cbn [canvas withCanvas pix clearRect].
      now rewrite Hin'.
Qed.

(** X12. The shallow water is recomputed from scratch.  What the water
    layer shows after [updateShallowWater] depends on the land mask, the
    colour, the flag and the size and drawing state of the layer, and not
    on what the layer showed before: two engines with the same land mask
    and water layers of the same size and drawing state end with the same
    water pixels, and calling it twice shows what calling it once shows.
    With the flag off the layer is transparent. *)
Theorem shallow_water_from_scratch (shallowColor : string) (isEnabled : bool)
        (e e' : MapEngine) (ctx ctx' : Context2D) :
  waterCtx e = Some ctx ->
  waterCtx e' = Some ctx' ->
  layerShape ctx' = layerShape ctx ->
  maskCtx e' = maskCtx e ->
  exists c1 c2 c3,
    waterCtx (updateShallowWater shallowColor isEnabled e) = Some c1 /\
    waterCtx (updateShallowWater shallowColor isEnabled e') = Some c2 /\
    waterCtx (updateShallowWater shallowColor isEnabled
                (updateShallowWater shallowColor isEnabled e)) = Some c3 /\
    same_pixels (canvas c2) (canvas c1) /\
    same_pixels (canvas c3) (canvas c1) /\
    (isEnabled = false -> forall x y, getPixel (canvas c1) x y = transparent).
Proof.
  intros Hw Hw' Hshape Hmask.
  destruct (water_same shallowColor isEnabled e e' ctx ctx' Hw Hw' Hshape Hmask)
    as (c1 & c2 & H1 & H2 & Hs1 & Hm1 & Hsame & Hoff).
  destruct (water_same shallowColor isEnabled e
                       (updateShallowWater shallowColor isEnabled e)
                       ctx c1 Hw H1 Hs1 Hm1)
    as (c1' & c3 & H1' & H3 & _ & _ & Hsame' & _).
  rewrite H1 in H1'. injection H1' as <-.
  exists c1, c2, c3.
  split; [exact H1 | split; [exact H2 | split; [exact H3 | ]]].
  split; [exact Hsame | split; [exact Hsame' | exact Hoff]].
Qed.

Lemma drawLayer_width (layer : option Context2D) (c : Canvas) :
  width (drawLayer layer c) = width c /\
  height (drawLayer layer c) = height c.
Proof. destruct layer; split; reflexivity. Qed.

Lemma drawLayer_clear (layer : option Context2D) (c : Canvas) (x y : Z) :
  layerPixel layer x y = transparent ->
  pix (drawLayer layer c) x y = pix c x y.
Proof.
  destruct layer as [ctx | ]; [ | reflexivity].
  cbn [layerPixel drawLayer pix paint]. unfold image_at.
  replace (x - 0)%Z with x by lia. replace (y - 0)%Z with y by lia.
  intros ->. apply pixel_ext; cbn; ring.
Qed.

Lemma drawLayer_opaque (layer : option Context2D) (c : Canvas) (x y : Z) :
  alpha (layerPixel layer x y) = 1 ->
  pix (drawLayer layer c) x y = layerPixel layer x y.
Proof.
  destruct layer as [ctx | ].
  - cbn [layerPixel drawLayer pix paint]. unfold image_at.
    replace (x - 0)%Z with x by lia. replace (y - 0)%Z with y by lia.
    intros Ha. apply pixel_ext; cbn; rewrite Ha; ring.
  - cbn. intros H0. exfalso. lra.
Qed.

Lemma drawLayers_clear (above : list (option Context2D)) (x y : Z) :
  (forall a, In a above -> layerPixel a x y = transparent) ->
  forall c,
    pix (fold_left (fun c0 l => drawLayer l c0) above c) x y = pix c x y.
Proof.
  induction above as [ | a above IH]; intros Hclear c; [reflexivity | ].
  cbn [fold_left]. rewrite IH.
  - apply drawLayer_clear, Hclear. now left.
  - intros b Hb. apply Hclear. now right.
Qed.

Lemma drawLayers_size (ls : list (option Context2D)) :
  forall c,
    width (fold_left (fun c0 l => drawLayer l c0) ls c) = width c /\
    height (fold_left (fun c0 l => drawLayer l c0) ls c) = height c.
Proof.
  induction ls as [ | a ls IH]; intros c; [now split | ].
  cbn [fold_left]. destruct (IH (drawLayer a c)) as [Hw Hh].
  destruct (drawLayer_width a c) as [Hw' Hh']. split; congruence.
Qed.

(** X13. The export flattens the layers in a fixed order, water, map,
    texture, paths, assets, labels, over the ocean.  With the map layer
    bound, [exportImage] produces an image of the size of the map layer in
    which a pixel that one of these layers shows opaque, and every layer
    after it in that order shows transparent (or is not bound), is that
    layer's pixel; and without an ocean texture a pixel of the image that
    every layer shows transparent is the ocean colour. *)
Theorem export_shows_top_layer (oceanColor : string)
        (oceanTexture : option Image) (e : MapEngine) (mctx : Context2D) :
  mapCtx e = Some mctx ->
  exists c,
    exportImage oceanColor oceanTexture e = Some c /\
    width c = width (canvas mctx) /\
    height c = height (canvas mctx) /\
    (forall below layer above x y,
        exportLayers e = below ++ layer :: above ->
        alpha (layerPixel layer x y) = 1 ->
        (forall a, In a above -> layerPixel a x y = transparent) ->
        pix c x y = layerPixel layer x y) /\
    (forall x y,
        oceanTexture = None ->
        inside c x y = true ->
        (forall a, In a (exportLayers e) -> layerPixel a x y = transparent) ->
        pix c x y = solid oceanColor).
Proof.
  intros Hmap. unfold exportImage. rewrite Hmap.
  set (w := width (canvas mctx)). set (h := height (canvas mctx)).
  set (c0 := paint SourceOver 1 (color_rect oceanColor 0 0 w h) (blank w h)).
  set (c1 := match oceanTexture with
             | Some img =>
               match createPattern img with
               | Some _ => paint SourceOver 1 (pattern_rect img 0 0 w h) c0
               | None => c0
               end
             | None => c0
             end).
  assert (Hsize : width c1 = w /\ height c1 = h).
  { unfold c1. destruct oceanTexture as [img | ]; [ | now split].
    destruct (createPattern img); now split. }
  change (drawLayer (textCtx e)
            (drawLayer (assetCtx e)
               (drawLayer (pathCtx e)
                  (drawLayer (textureLayerCtx e)
                     (drawLayer (Some mctx) (drawLayer (waterCtx e) c1))))))
    with (fold_left (fun c l => drawLayer l c)
                    [waterCtx e; Some mctx; textureLayerCtx e; pathCtx e;
                     assetCtx e; textCtx e] c1).
  rewrite <- Hmap. fold (exportLayers e).
  eexists. split; [reflexivity | ].
  destruct (drawLayers_size (exportLayers e) c1) as [Hw Hh].
  split; [now rewrite Hw | split; [now rewrite Hh | split]].
  - intros below layer above x y Hsplit Hop Hclear.
    rewrite Hsplit, fold_left_app. cbn [fold_left].
    rewrite drawLayers_clear by exact Hclear.
    now apply drawLayer_opaque.
  - intros x y -> Hin Hclear.
    rewrite drawLayers_clear by exact Hclear.
    unfold inside in Hin. rewrite Hw, Hh in Hin.
    destruct Hsize as [Hw1 Hh1]. rewrite Hw1, Hh1 in Hin.
    fold (inside (mkCanvas w h empty) x y) in Hin.
    apply inside_in_rect in Hin. cbn [width height] in Hin.
    unfold c1, c0, w, h in *. cbn [pix paint blank]. unfold color_rect.
    rewrite Hin. apply pixel_ext; unfold solid;
      destruct (css_rgb oceanColor) as [[r g] b]; cbn; ring.
Qed.

(** *** Land grows under terrain and shrinks under rivers *)

Lemma generate_unit (size rough blur : R) (ro bo : option R)
      (st : StampState) (k : nat) :
  unitPlatform -> unitStamp st ->
  unitStamp (fst (generate size rough blur ro bo st k)).
Proof.
  intros [Hras _] Hst. unfold generate.
  set (st1 := match offCanvas st with Some _ => st | None => _ end).
  assert (H1 : unitStamp st1).
  { subst st1. unfold unitStamp in *.
    destruct (offCanvas st) eqn:E; [now rewrite E | ].
    cbn. intros px py. cbn. lra. }
  destruct (same_key _ _ _ st1); [exact H1 | ].
  assert (Hpaint : forall shape style w0,
             unitAlpha (pix (paint SourceOver 1 (rasterize shape style)
                                   (blank w0 w0)))).
  { intros shape style w0 px py.
    cbn [pix paint blank blend]. unfold empty.
    specialize (Hras shape style px py). cbn. lra. }
  unfold redraw.
  destruct (Rlt_dec 0 _).
  - destruct (fold_left _ _ _) as [[pts lastR] k'].
    unfold unitStamp. cbn [fst offCanvas]. apply Hpaint.
  - unfold unitStamp. cbn [fst offCanvas]. apply Hpaint.
Qed.

Lemma drawStamp_unit (ctx : Context2D) (x y size : R) (color : string)
      (opacity gr gb : R) (ro bo rotation : option R)
      (st : StampState) (k : nat) :
  unitPlatform -> unitStamp st ->
  let r := drawStamp ctx x y size color opacity gr gb ro bo rotation st k in
  exists a,
    unitAlpha a /\
    fst (fst r) =
    withCanvas (paint (globalCompositeOperation ctx) opacity a (canvas ctx))
               ctx /\
    unitStamp (snd (fst r)).
Proof.
  intros Hplat Hst r. subst r.
  assert (Hgen := generate_unit size gr gb ro bo st k Hplat Hst).
  destruct (generate_key size gr gb ro bo st k) as (_ & _ & _ & Hoff).
  unfold drawStamp.
  destruct (generate size gr gb ro bo st k) as [st1 k1].
  cbn [fst] in Hoff, Hgen.
  destruct (offCanvas st1) as [off | ] eqn:E; [ | contradiction].
  assert (Hunit : forall rot,
             unitAlpha (image_rotated (tinted color off) x y rot
                          (- (IZR (width (tinted color off)) / 2))
                          (- (IZR (width (tinted color off)) / 2)))).
  { intros rot px py. unfold image_rotated. cbn [alpha].
    destruct Hplat as [_ Hres]. apply Hres. intros u v.
    rewrite tinted_alpha. unfold unitStamp in Hgen. rewrite E in Hgen.
    unfold getPixel. destruct (inside off u v); [apply Hgen | cbn; lra]. }
  destruct rotation as [rot | ]; eexists;
    (split; [apply Hunit | split; [reflexivity | ]]);
    unfold unitStamp; cbn [fst snd offCanvas];
    unfold unitStamp in Hgen; rewrite E in Hgen; exact Hgen.
Qed.

Ltac stamp_unit HP :=
  match goal with
  | HS : unitStamp ?st
    |- context [drawStamp ?ctx ?x ?y ?s ?c ?o ?gr ?gb ?ro ?bo ?rot ?st ?k] =>
    let a := fresh "a" in
    let Hu := fresh "Hu" in
    let Ha := fresh "Ha" in
    let Hs := fresh "Hs" in
    destruct (drawStamp_unit ctx x y s c o gr gb ro bo rot st k HP HS)
      as (a & Hu & Ha & Hs);
    destruct (drawStamp ctx x y s c o gr gb ro bo rot st k) as [[? ?] ?];
    cbn [fst snd] in Ha, Hs;
    match type of Ha with ?v = _ => subst v end
  end.

(** The land mask and the stamp after a dab on a bound map layer, on a
    platform that keeps alpha between 0 and 1. *)
Lemma paintDab_unit (x y : R) (state : AppState) (map : Context2D)
      (wd : World) :
  unitPlatform -> unitStamp (stamp wd) ->
  let e := engine wd in
  let wd' := paintDab x y state map wd in
  unitStamp (stamp wd') /\
  match paintMode state with
  | terrain =>
    exists a, unitAlpha a /\
      maskCtx (engine wd') =
      withCanvas (paint (globalCompositeOperation (maskCtx e)) 1 a
                        (canvas (maskCtx e))) (maskCtx e)
  | river =>
    exists a, unitAlpha a /\
      maskCtx (engine wd') =
      withCanvas (paint DestinationOut 1 a (canvas (maskCtx e))) (maskCtx e)
  | _ => maskCtx (engine wd') = maskCtx e
  end.
Proof.
  intros Hplat Hst e wd'. subst wd'. unfold paintDab. fold e.
  destruct (paintMode state); try (split; [exact Hst | reflexivity]).
  - (* terrain *)
    unfold drawToMask. stamp_unit Hplat. stamp_unit Hplat.
    cbn [engine stamp]. rewrite renderTextureLayer_maskCtx.
    split; [assumption | ]. exists a. split; [exact Hu | reflexivity].
  - (* river *)
    destruct (if isOrganicRiver state
              then organicRiver x y (brushSize state) (riverState e) (seed wd)
              else (riverState e, brushSize state, seed wd))
      as [[rs fr] k0].
    unfold eraseFromMask. stamp_unit Hplat. stamp_unit Hplat.
    cbn [engine stamp]. rewrite renderTextureLayer_maskCtx.
    split; [assumption | ]. exists a. split; [exact Hu | reflexivity].
  - (* texture *)
    destruct (truthy (activeTexture state)).
    + stamp_unit Hplat. cbn [engine stamp].
      rewrite renderTextureLayer_maskCtx. split; [assumption | reflexivity].
    + stamp_unit Hplat. cbn [engine stamp].
      split; [assumption | reflexivity].
Qed.

(** The texture mask after a dab of the texture brush or eraser on a
    bound map layer, on a platform that keeps alpha between 0 and 1. *)
Lemma paintDab_texture_unit (x y : R) (state : AppState) (map : Context2D)
      (wd : World) :
  unitPlatform -> unitStamp (stamp wd) ->
  paintMode state = texture -> truthy (activeTexture state) = true ->
  let e := engine wd in
  exists a,
    unitAlpha a /\
    textureMaskCtx (engine (paintDab x y state map wd)) =
    withCanvas (paint (if isTextureEraser state then DestinationOut
                       else SourceOver)
                      (brushBlur state / 100) a
                      (canvas (textureMaskCtx e))) (textureMaskCtx e).
Proof.
  intros Hplat Hst Hmode Hactive e.
  unfold paintDab. rewrite Hmode, Hactive. fold e.
  stamp_unit Hplat. cbn [engine].
  rewrite renderTextureLayer_textureMaskCtx.
  exists a. split; [exact Hu | ].
  destruct (textureMaskCtx e); reflexivity.
Qed.

(** C7. [applyPaint] changes the land mask only in terrain mode, where
    the stamp is composited with the operator of the mask context
    (source-over), and in river mode, where it is composited with
    destination-out; it changes the texture mask only in texture mode
    with an active texture, with source-over or, for the eraser,
    destination-out.  [renderTextureLayer] and [updateShallowWater]
    leave both masks as they are.  The changes are additive and
    subtractive pixel by pixel: on a platform whose rasteriser and
    resampling keep alpha between 0 and 1, with a cached stamp of that
    kind, a terrain dab lowers the alpha of no pixel of the land mask and
    a river dab raises none; with a brush opacity between 0 and 100 the
    texture brush lowers the alpha of no pixel of the texture mask and the
    texture eraser raises none. *)
Theorem mask_mutation_discipline (x y : R) (state : AppState) (wd : World) :
  let e := engine wd in
  let e' := engine (applyPaint x y state wd) in
  (paintMode state <> terrain -> paintMode state <> river ->
   maskCtx e' = maskCtx e) /\
  (~ (paintMode state = texture /\ truthy (activeTexture state) = true) ->
   textureMaskCtx e' = textureMaskCtx e) /\
  (forall map, mapCtx e = Some map ->
     (paintMode state = terrain ->
      globalCompositeOperation (maskCtx e) = SourceOver ->
      exists a,
        maskCtx e' =
        withCanvas (paint SourceOver 1 a (canvas (maskCtx e))) (maskCtx e)) /\
     (paintMode state = river ->
      exists a,
        maskCtx e' =
        withCanvas (paint DestinationOut 1 a (canvas (maskCtx e)))
                   (maskCtx e)) /\
     (paintMode state = texture ->
      truthy (activeTexture state) = true ->
      exists a,
        textureMaskCtx e' =
        withCanvas (paint (if isTextureEraser state then DestinationOut
                           else SourceOver)
                          (brushBlur state / 100) a
                          (canvas (textureMaskCtx e))) (textureMaskCtx e))) /\
  (forall dirtyX dirtyY dirtyR e0,
      maskCtx (renderTextureLayer dirtyX dirtyY dirtyR e0) = maskCtx e0 /\
      textureMaskCtx (renderTextureLayer dirtyX dirtyY dirtyR e0) =
      textureMaskCtx e0) /\
  (forall shallowColor isEnabled e0,
      maskCtx (updateShallowWater shallowColor isEnabled e0) = maskCtx e0 /\
      textureMaskCtx (updateShallowWater shallowColor isEnabled e0) =
      textureMaskCtx e0) /\
  (unitPlatform -> unitStamp (stamp wd) ->
   forall map, mapCtx e = Some map ->
   forall px py,
     let land := alpha (pix (canvas (maskCtx e)) px py) in
     let land' := alpha (pix (canvas (maskCtx e')) px py) in
     let tex := alpha (pix (canvas (textureMaskCtx e)) px py) in
     let tex' := alpha (pix (canvas (textureMaskCtx e')) px py) in
     (0 <= land <= 1 ->
      (paintMode state = terrain ->
       globalCompositeOperation (maskCtx e) = SourceOver ->
       land <= land' <= 1) /\
      (paintMode state = river -> 0 <= land' <= land)) /\
     (0 <= tex <= 1 -> 0 <= brushBlur state <= 100 ->
      paintMode state = texture -> truthy (activeTexture state) = true ->
      (isTextureEraser state = false -> tex <= tex' <= 1) /\
      (isTextureEraser state = true -> 0 <= tex' <= tex))).
Proof.
  intros e e'.
  assert (Hdab : forall map, mapCtx e = Some map ->
              maskCtx e' = maskCtx (engine (paintDab x y state map wd)) /\
              textureMaskCtx e' =
              textureMaskCtx (engine (paintDab x y state map wd))).
  { intros map Hmap. subst e'. unfold applyPaint. fold e. rewrite Hmap.
    split; reflexivity. }
  assert (Hnone : mapCtx e = None -> e' = e).
  { intros Hmap. subst e'. unfold applyPaint. fold e. now rewrite Hmap. }
  split; [ | split; [ | split; [ | split; [ | split]]]].
  - intros Ht Hr.
    destruct (mapCtx e) as [map | ] eqn:Hmap; [ | now rewrite Hnone].
    destruct (Hdab map eq_refl) as [-> _].
    generalize (paintDab_masks x y state map wd). cbv zeta. fold e.
    destruct (paintMode state); try tauto; congruence.
  - intros Hno.
    destruct (mapCtx e) as [map | ] eqn:Hmap; [ | now rewrite Hnone].
    destruct (Hdab map eq_refl) as [_ ->].
    generalize (paintDab_masks x y state map wd). cbv zeta. fold e.
    destruct (paintMode state); try tauto.
    destruct (truthy (activeTexture state)); [ | tauto].
    exfalso. apply Hno. split; reflexivity.
  - intros map Hmap.
    destruct (Hdab map Hmap) as [-> ->].
    assert (H := paintDab_masks x y state map wd).
    cbv zeta in H. fold e in H.
    repeat split.
    + intros Hmode Hop. rewrite Hmode in H. rewrite Hop in H. tauto.
    + intros Hmode. rewrite Hmode in H. tauto.
    + intros Hmode Hact. rewrite Hmode, Hact in H. tauto.
  - intros dx dy dr e0. split.
    + apply renderTextureLayer_maskCtx.
    + apply renderTextureLayer_textureMaskCtx.
  - intros c on e0.
    destruct (updateShallowWater_frame c on e0) as [-> | [w ->]];
      split; reflexivity.
  - intros Hplat Hst map Hmap px py land land' tex tex'.
    subst land' tex'. destruct (Hdab map Hmap) as [-> ->].
    split.
    + intros Hland.
      destruct (paintDab_unit x y state map wd Hplat Hst) as [_ Hmask].
      fold e in Hmask.
      split.
      * intros Hmode Hop. rewrite Hmode in Hmask.
        destruct Hmask as (a & Hu & ->). rewrite Hop.
        cbn [canvas withCanvas pix paint blend]. specialize (Hu px py).
        set (sa := alpha (a px py)) in *. cbn. fold sa land. nra.
      * intros Hmode. rewrite Hmode in Hmask.
        destruct Hmask as (a & Hu & ->).
        cbn [canvas withCanvas pix paint blend]. specialize (Hu px py).
        set (sa := alpha (a px py)) in *. cbn. fold sa land. nra.
    + intros Htex Hop Hmode Hactive.
      destruct (paintDab_texture_unit x y state map wd Hplat Hst Hmode
                                      Hactive) as (a & Hu & ->).
      fold e. cbn [canvas withCanvas pix paint]. specialize (Hu px py).
      set (op := brushBlur state / 100).
      assert (Hop1 : 0 <= op <= 1) by (unfold op; lra).
      set (sa := alpha (a px py)) in *.
      assert (H0 : 0 <= op * sa <= 1) by nra.
      destruct (isTextureEraser state); cbn; fold sa tex;
        split; intros; try discriminate; nra.
Qed.

(** X14. Terrain adds land and rivers take it away.  On a platform whose
    rasteriser and resampling keep alpha between 0 and 1, with a cached
    stamp of that kind and the land mask compositing with source-over, a
    dab on a bound map layer keeps the alpha of every pixel of the land
    mask between 0 and 1, never lowers it in terrain mode and never raises
    it in river mode, whatever the brush opacity; and the cached stamp
    stays of that kind. *)
Theorem land_mask_monotone (x y : R) (state : AppState) (wd : World)
        (mctx : Context2D) :
  unitPlatform ->
  unitStamp (stamp wd) ->
  mapCtx (engine wd) = Some mctx ->
  globalCompositeOperation (maskCtx (engine wd)) = SourceOver ->
  let before := canvas (maskCtx (engine wd)) in
  let wd' := applyPaint x y state wd in
  let after := canvas (maskCtx (engine wd')) in
  unitStamp (stamp wd') /\
  forall px py,
    0 <= alpha (pix before px py) <= 1 ->
    0 <= alpha (pix after px py) <= 1 /\
    (paintMode state = terrain ->
     alpha (pix before px py) <= alpha (pix after px py)) /\
    (paintMode state = river ->
     alpha (pix after px py) <= alpha (pix before px py)).
Proof.
  intros Hplat Hst Hmap Hop before wd' after.
  subst after wd' before. unfold applyPaint. rewrite Hmap.
  cbn [engine stamp maskCtx setRiverState].
  destruct (paintDab_unit x y state mctx wd Hplat Hst) as [Hs Hmask].
  split; [exact Hs | ].
  intros px py Hb.
  destruct (paintMode state) eqn:Hmode.
  - destruct Hmask as (a & Hu & ->). rewrite Hop.
    cbn [canvas withCanvas pix paint blend]. specialize (Hu px py).
    set (s := alpha (a px py)) in *.
    set (d := alpha (pix (canvas (maskCtx (engine wd))) px py)) in *.
    cbn. fold s d.
    repeat split; intros; try discriminate; nra.
  - destruct Hmask as (a & Hu & ->).
    cbn [canvas withCanvas pix paint blend]. specialize (Hu px py).
    set (s := alpha (a px py)) in *.
    set (d := alpha (pix (canvas (maskCtx (engine wd))) px py)) in *.
    cbn. fold s d.
    repeat split; intros; try discriminate; nra.
  - rewrite Hmask. repeat split; intros; try discriminate; lra.
  - rewrite Hmask. repeat split; intros; try discriminate; lra.
  - rewrite Hmask. repeat split; intros; try discriminate; lra.
  - rewrite Hmask. repeat split; intros; try discriminate; lra.
Qed.

(** *** The application *)

Lemma pop_app {A : Type} (l : list A) (a : A) : pop (l ++ [a]) = Some (l, a).
Proof.
  unfold pop. rewrite rev_app_distr. cbn. now rewrite rev_involutive.
Qed.

Lemma pop_cons {A : Type} (a : A) (l : list A) :
  exists r b, a :: l = r ++ [b] /\ pop (a :: l) = Some (r, b).
Proof.
  destruct (exists_last (l := a :: l)) as (r & b & E); [discriminate | ].
  exists r, b. split; [exact E | ]. rewrite E. apply pop_app.
Qed.

(** X18. The history never holds more than twenty entries.  If the undo
    and the redo stack together hold at most twenty entries, they still do
    after [saveHistory], after [handleUndo] and after [handleRedo],
    whatever the engine returns for the snapshot; so the undo stack stays
    within twenty, although [handleRedo] pushes on it without looking at
    its length.  [saveHistory] empties the redo stack, also when no
    snapshot can be taken. *)
Theorem history_within_limit {Labels : Type} (stateAssets : list Asset.MapAsset)
        (stateLabels : Labels) (e : MapEngine) (hist : History Labels) :
  withinLimit hist ->
  withinLimit (saveHistory stateAssets stateLabels e hist) /\
  withinLimit (fst (handleUndo stateAssets stateLabels e hist)) /\
  withinLimit (fst (handleRedo stateAssets stateLabels e hist)) /\
  redoStack (saveHistory stateAssets stateLabels e hist) = [].
Proof.
  unfold withinLimit. intros Hlim.
  split; [ | split; [ | split]].
  - unfold saveHistory.
    destruct (getSnapshot e) as [[snap | ] | ]; cbn [undoStack redoStack];
      try (cbn; lia).
    destruct (Nat.ltb_spec 20 (List.length
                                 (undoStack hist ++
                                  [mkEntry snap stateAssets stateLabels])))
      as [Hlt | Hge].
    + rewrite List.length_app in Hlt. cbn in Hlt.
      destruct (undoStack hist) as [ | a u]; cbn in *; [lia | ].
      rewrite List.length_app. cbn. lia.
    + cbn. lia.
  - unfold handleUndo.
    destruct (undoStack hist) as [ | a u] eqn:Hu; [cbn; rewrite Hu; lia | ].
    destruct (getSnapshot e) as [snap | ];
      [ | cbn; rewrite Hu; exact Hlim].
    destruct (pop_cons a u) as (r & b & E & ->).
    cbn [fst undoStack redoStack].
    assert (Hlen : List.length (a :: u) = S (List.length r)).
    { rewrite E, List.length_app. cbn. lia. }
    rewrite Hlen in Hlim.
    destruct snap as [sn | ]; [rewrite List.length_app; cbn | ]; lia.
  - unfold handleRedo.
    destruct (redoStack hist) as [ | a u] eqn:Hu; [cbn; rewrite Hu; lia | ].
    destruct (getSnapshot e) as [snap | ];
      [ | cbn; rewrite Hu; exact Hlim].
    destruct (pop_cons a u) as (r & b & E & ->).
    cbn [fst undoStack redoStack].
    assert (Hlen : List.length (a :: u) = S (List.length r)).
    { rewrite E, List.length_app. cbn. lia. }
    rewrite Hlen in Hlim.
    destruct snap as [sn | ]; [rewrite List.length_app; cbn | ]; lia.
  - unfold saveHistory.
    destruct (getSnapshot e) as [[snap | ] | ]; reflexivity.
Qed.

(** X19. Redo gives back what undo took.  When the undo stack is not
    empty and the engine gives a snapshot, [handleUndo] hands the newest
    entry of the undo stack to [applyHistoryState]; a [handleRedo] after
    it, in whatever state the application then is, provided its snapshot
    does not throw, hands over the snapshot, the assets and the labels
    that [handleUndo] captured, and leaves the redo stack as it was before
    the undo. *)
Theorem undo_then_redo {Labels : Type}
        (stateAssets stateAssets' : list Asset.MapAsset)
        (stateLabels stateLabels' : Labels) (e e' : MapEngine)
        (hist : History Labels) (snap : Snapshot) :
  undoStack hist <> [] ->
  getSnapshot e = JS.Returned (Some snap) ->
  getSnapshot e' <> JS.Thrown ->
  let undone := handleUndo stateAssets stateLabels e hist in
  let redone := handleRedo stateAssets' stateLabels' e' (fst undone) in
  exists older prev,
    undoStack hist = older ++ [prev] /\
    snd undone = Some prev /\
    undoStack (fst undone) = older /\
    snd redone = Some (mkEntry snap stateAssets stateLabels) /\
    redoStack (fst redone) = redoStack hist.
Proof.
  intros Hne Hsnap Hsnap' undone redone. subst redone undone.
  unfold handleUndo. rewrite Hsnap.
  destruct (undoStack hist) as [ | a u] eqn:Hu; [contradiction | ].
  destruct (pop_cons a u) as (older & prev & E & ->).
  exists older, prev. cbn [fst snd undoStack redoStack].
  split; [exact E | split; [reflexivity | split; [reflexivity | ]]].
  unfold handleRedo. cbn [redoStack undoStack].
  destruct (redoStack hist ++ [mkEntry snap stateAssets stateLabels])
    as [ | x l] eqn:Hr.
  { apply app_eq_nil in Hr. destruct Hr as [_ Hr]. discriminate. }
  rewrite <- Hr.
  destruct (getSnapshot e') as [snap' | ]; [ | contradiction].
  rewrite pop_app. split; reflexivity.
Qed.

Lemma nth_error_map_seq {A : Type} (f : nat -> A) (m n : nat) (c : A) :
  nth_error (List.map f (seq 0 m)) n = Some c -> (n < m)%nat /\ c = f n.
Proof.
  intros Hn.
  assert (Hlen : (n < m)%nat).
  { assert (Hsome : nth_error (List.map f (seq 0 m)) n <> None) by congruence.
    apply nth_error_Some in Hsome.
    now rewrite List.length_map, List.length_seq in Hsome. }
  split; [exact Hlen | ].
  rewrite nth_error_map in Hn.
  rewrite (nth_error_nth' _ 0%nat) in Hn by (now rewrite List.length_seq).
  rewrite seq_nth in Hn by exact Hlen.
  cbn in Hn. congruence.
Qed.

Lemma hypot_polar (c s r : R) :
  c * c + s * s = 1 -> 0 <= r -> JS.hypot (c * r) (s * r) = r.
Proof.
  intros Hcs Hr. unfold JS.hypot.
  replace (c * r * (c * r) + s * r * (s * r)) with ((c * c + s * s) * (r * r))
    by ring.
  rewrite Hcs, Rmult_1_l. now apply sqrt_square.
Qed.

(** One scattered asset, for random numbers from 0 to 1. *)
Lemma scatterAsset_spec (round64 : R -> R) (settings : AssetBrushSettings)
      (indices : list nat) (assetLibrary : list string) (now cx cy : R)
      (i k : nat) :
  (forall n, 0 <= random n < 1) ->
  0 <= brushRadius settings ->
  let a := scatterAsset round64 settings indices assetLibrary now cx cy i k in
  JS.hypot (Asset.x a - cx) (Asset.y a - cy) <= brushRadius settings /\
  0.1 <= Asset.scale a /\
  Asset.rotation a = 0 /\
  Asset.id a = round64 (round64 (now + INR i) + random (k + 4)).
Proof.
  intros Hrand Hrad a. subst a. unfold scatterAsset.
  cbn [Asset.x Asset.y Asset.scale Asset.rotation Asset.id].
  split; [ | split; [apply Rmax_l | split; reflexivity]].
  - set (angle := random (k + 1) * PI * 2).
    set (r := sqrt (random (k + 2)) * brushRadius settings).
    replace (cx + cos angle * r - cx) with (cos angle * r) by ring.
    replace (cy + sin angle * r - cy) with (sin angle * r) by ring.
    assert (Hs : 0 <= sqrt (random (k + 2)) <= 1).
    { split; [apply sqrt_pos | ].
      rewrite <- sqrt_1. apply sqrt_le_1_alt.
      destruct (Hrand (k + 2)%nat). lra. }
    assert (Hr : 0 <= r) by (unfold r; nra).
    rewrite hypot_polar; [unfold r; nra | | exact Hr].
    generalize (sin2_cos2 angle). unfold Rsqr. lra.
Qed.

(** X20. The asset brush scatters inside its circle.  For random numbers
    from 0 to 1 and a brush radius that is not negative, [paintAssets]
    paints a batch exactly when some asset is selected, the density is not
    zero and the distance travelled has reached [50 / density]; the batch
    then holds [ceil(density / 2)] assets and uses six random numbers for
    each; every asset of it lies within the brush radius of the pointer,
    is not rotated and has a scale of at least 0.1.  The identifiers are
    rounded sums: as long as the clock does not run backwards during the
    loop, the rounding is monotone and [Date.now() + i] needs no rounding,
    the identifiers of the batch never decrease; that they differ does not
    follow. *)
Theorem paintAssets_scatter (round64 : R -> R) (settings : AssetBrushSettings)
        (indices : list nat) (assetLibrary : list string)
        (now : nat -> R) (cx cy distanceTraveled : R) (k : nat) :
  (forall n, 0 <= random n < 1) ->
  0 <= brushRadius settings ->
  let result := paintAssets round64 settings indices assetLibrary now cx cy
                            distanceTraveled k in
  (result = None <->
   indices = [] \/ density settings = 0 \/
   distanceTraveled < 50 / density settings) /\
  forall batch k',
    result = Some (batch, k') ->
    List.length batch = Z.to_nat (JS.ceil (density settings / 2)) /\
    k' = (k + 6 * List.length batch)%nat /\
    Forall (fun a =>
              JS.hypot (Asset.x a - cx) (Asset.y a - cy) <=
              brushRadius settings /\
              0.1 <= Asset.scale a /\ Asset.rotation a = 0) batch /\
    ((forall i j, (i <= j)%nat -> now i <= now j) ->
     (forall u v, u <= v -> round64 u <= round64 v) ->
     (forall i, round64 (now i + INR i) = now i + INR i) ->
     forall i j a b,
       nth_error batch i = Some a -> nth_error batch j = Some b ->
       (i < j)%nat -> Asset.id a <= Asset.id b).
Proof.
  intros Hrand Hrad result. subst result. unfold paintAssets.
  destruct indices as [ | i0 rest].
  { split; [ | discriminate]. split; auto. }
  destruct (Req_dec_T (density settings) 0) as [Hd | Hd].
  { split; [ | discriminate]. split; auto. }
  destruct (Rlt_dec distanceTraveled (50 / density settings)) as [Hlt | Hge].
  { split; [ | discriminate]. split; auto. }
  split.
  { split; [discriminate | ].
    intros [H | [H | H]]; [discriminate | contradiction | contradiction]. }
  intros batch k' Hres.
  apply (f_equal (fun o => match o with Some p => p | None => (batch, k') end))
    in Hres.
  cbv beta iota in Hres. apply pair_equal_spec in Hres.
  destruct Hres as [<- <-].
  set (count := Z.to_nat (JS.ceil (density settings / 2))).
  rewrite List.length_map, List.length_seq.
  split; [reflexivity | split; [reflexivity | split]].
  - apply Forall_forall. intros a Ha.
    apply in_map_iff in Ha. destruct Ha as (i & <- & _).
    destruct (scatterAsset_spec round64 settings (i0 :: rest) assetLibrary
                                (now i) cx cy i (k + 6 * i) Hrand Hrad)
      as (H1 & H2 & H3 & _).
    auto.
  - intros Hclock Hmono Hexact i j a b Hi Hj Hij.
    apply nth_error_map_seq in Hi, Hj.
    destruct Hi as [_ ->]. destruct Hj as [_ ->].
    destruct (scatterAsset_spec round64 settings (i0 :: rest) assetLibrary
                                (now i) cx cy i (k + 6 * i) Hrand Hrad)
      as (_ & _ & _ & Hi).
    destruct (scatterAsset_spec round64 settings (i0 :: rest) assetLibrary
                                (now j) cx cy j (k + 6 * j) Hrand Hrad)
      as (_ & _ & _ & Hj).
    assert (Hinr : INR i + 1 <= INR j).
    { rewrite <- S_INR. apply le_INR. lia. }
    assert (Hnow : now i <= now j) by (apply Hclock; lia).
    cbv zeta in Hi, Hj. rewrite Hi, Hj, !Hexact.
    apply Hmono.
    destruct (Hrand (k + 6 * i + 4)%nat), (Hrand (k + 6 * j + 4)%nat). lra.
Qed.

(** X21. Pinch zoom.  The zoom that a pinch sets is always between 0.1
    and 5; the point of the map that was under the midpoint of the two
    pointers when the pinch started is under their midpoint after the
    move; and a move event that finds the two pointers where they landed,
    some distance apart, with a zoom between 0.1 and 5, changes neither
    the zoom nor the offset. *)
Theorem pinch_zoom_anchor (start : PinchStart) (p1 p2 : R * R) :
  let '(newZoom, (newOx, newOy)) := pinchMove start p1 p2 in
  0.1 <= newZoom <= 5 /\
  ((fst p1 + fst p2) / 2 - newOx) / newZoom =
  (fst (pinchStartCenter start) - fst (pinchStartOffset start))
  / pinchStartZoom start /\
  ((snd p1 + snd p2) / 2 - newOy) / newZoom =
  (snd (pinchStartCenter start) - snd (pinchStartOffset start))
  / pinchStartZoom start /\
  forall zoom offsetX offsetY,
    start = pinchStart zoom offsetX offsetY p1 p2 ->
    0 < pinchStartDist start ->
    0.1 <= zoom <= 5 ->
    newZoom = zoom /\ newOx = offsetX /\ newOy = offsetY.
Proof.
  unfold pinchMove.
  set (dist := JS.hypot (fst p2 - fst p1) (snd p2 - snd p1)).
  set (z := Rmin 5 (Rmax 0.1 (pinchStartZoom start *
                              (dist / pinchStartDist start)))).
  assert (Hz : 0.1 <= z <= 5).
  { unfold z. split.
    - apply Rmin_glb; [lra | apply Rmax_l].
    - apply Rmin_l. }
  split; [exact Hz | ].
  set (wx := (fst (pinchStartCenter start) - fst (pinchStartOffset start))
             / pinchStartZoom start).
  set (wy := (snd (pinchStartCenter start) - snd (pinchStartOffset start))
             / pinchStartZoom start).
  split; [field; lra | ].
  split; [field; lra | ].
  intros zoom offsetX offsetY Hstart Hdist Hzoom. subst wx wy.
  assert (Hz' : z = zoom).
  { unfold z. rewrite Hstart in *. cbn [pinchStart pinchStartZoom
                                        pinchStartDist] in *.
    fold dist in Hdist |- *.
    replace (zoom * (dist / dist)) with zoom by (field; lra).
    rewrite Rmax_right by lra. apply Rmin_right. lra. }
  rewrite Hz'. split; [reflexivity | ].
  rewrite Hstart. cbn [pinchStart pinchStartZoom pinchStartCenter
                       pinchStartOffset fst snd].
  split; field; lra.
Qed.

Lemma loaded_untouched (w h : Z) (e : MapEngine) (p : Layer * DataURL) :
  let e' := loaded w h e p in
  (waterCtx e', assetCtx e', textCtx e') =
  (waterCtx e, assetCtx e, textCtx e) /\
  (currentTextureImg e', pathRemainder e', riverState e') =
  (currentTextureImg e, pathRemainder e, riverState e).
Proof.
  assert (Hrender : forall e0,
             let e1 := renderTextureLayer None None None e0 in
             (waterCtx e1, assetCtx e1, textCtx e1) =
             (waterCtx e0, assetCtx e0, textCtx e0) /\
             (currentTextureImg e1, pathRemainder e1, riverState e1) =
             (currentTextureImg e0, pathRemainder e0, riverState e0)).
  { intros e0.
    destruct (renderTextureLayer_frame None None None e0) as [-> | [c ->]];
      split; reflexivity. }
  unfold loaded. destruct (decode (snd p)) as [img | ]; [ | now split].
  destruct (fst p); cbn [onload].
  - destruct (mapCtx e); split; reflexivity.
  - destruct (pathCtx e); split; reflexivity.
  - destruct (Hrender (setMaskCtx (redrawn img w h (maskCtx e)) e))
      as [H1 H2].
    split; [exact H1 | exact H2].
  - destruct (Hrender (setTextureMaskCtx
                         (redrawn img w h (textureMaskCtx e)) e))
      as [H1 H2].
    split; [exact H1 | exact H2].
Qed.

(** X22. A restore touches the restored layers only.  [loadSnapshot] and
    the image loads it starts, whichever of them arrive and in whatever
    order, leave the water layer, the asset layer and the label layer as
    they are, and with them the texture image, the path remainder and the
    river state: after an undo the water layer still shows the shallow
    water of the land mask as it was before the undo. *)
Theorem restore_leaves_water (snap : Snapshot) (w h : Z)
        (order : list (Layer * DataURL)) (e : MapEngine) :
  let e' := settle w h order (fst (loadSnapshot snap w h e)) in
  waterCtx e' = waterCtx e /\ assetCtx e' = assetCtx e /\
  textCtx e' = textCtx e /\ currentTextureImg e' = currentTextureImg e /\
  pathRemainder e' = pathRemainder e /\ riverState e' = riverState e.
Proof.
  assert (Hsettle : forall e0,
             (waterCtx (settle w h order e0), assetCtx (settle w h order e0),
              textCtx (settle w h order e0)) =
             (waterCtx e0, assetCtx e0, textCtx e0) /\
             (currentTextureImg (settle w h order e0),
              pathRemainder (settle w h order e0),
              riverState (settle w h order e0)) =
             (currentTextureImg e0, pathRemainder e0, riverState e0)).
  { induction order as [ | p order IH]; intros e0; [now split | ].
    rewrite settle_cons.
    destruct (IH (loaded w h e0 p)) as [H1 H2].
    destruct (loaded_untouched w h e0 p) as [H3 H4].
    split; [now rewrite H1 | now rewrite H2]. }
  intros e'. subst e'.
  destruct (Hsettle (fst (loadSnapshot snap w h e))) as [H1 H2].
  apply pair_equal_spec in H1. destruct H1 as [H1 Ht].
  apply pair_equal_spec in H1. destruct H1 as [Hw Ha].
  apply pair_equal_spec in H2. destruct H2 as [H2 Hr].
  apply pair_equal_spec in H2. destruct H2 as [Hi Hp].
  rewrite Hw, Ha, Ht, Hi, Hp, Hr.
  unfold loadSnapshot.
  destruct (snap_textureMask snap); repeat split; reflexivity.
Qed.

(** *** The painted terrain stays inside the land mask *)

(** Two stamps in a row with the same size, overrides and rotation, as a
    terrain or a river dab makes them: the second finds the mask of the
    first in the cache, and the two images have the same alpha. *)
Lemma drawStamp_twice (ctx1 ctx2 : Context2D) (x y size : R)
      (color1 color2 : string) (opacity1 opacity2 gr gb : R)
      (ro bo : option R) (rot : R) (st : StampState) (k : nat) :
  unitPlatform -> unitStamp st ->
  let r1 := drawStamp ctx1 x y size color1 opacity1 gr gb ro bo (Some rot)
                      st k in
  let r2 := drawStamp ctx2 x y size color2 opacity2 gr gb ro bo (Some rot)
                      (snd (fst r1)) (snd r1) in
  exists a1 a2,
    unitAlpha a1 /\
    (forall px py, alpha (a2 px py) = alpha (a1 px py)) /\
    fst (fst r1) =
    withCanvas (paint (globalCompositeOperation ctx1) opacity1 a1
                      (canvas ctx1)) ctx1 /\
    fst (fst r2) =
    withCanvas (paint (globalCompositeOperation ctx2) opacity2 a2
                      (canvas ctx2)) ctx2 /\
    unitStamp (snd (fst r2)).
Proof.
  intros Hplat Hst r1 r2. subst r2 r1.
  destruct (drawStamp_spec ctx1 x y size color1 opacity1 gr gb ro bo rot st k)
    as (off & Hoff & Hdraw1).
  assert (Hgen := generate_unit size gr gb ro bo st k Hplat Hst).
  destruct (generate_key size gr gb ro bo st k) as (Ks & Kr & Kb & _).
  set (gen := generate size gr gb ro bo st k) in *.
  set (st1 := mkStamp (Some off) (Some (tinted color1 off))
                      (lastSize (fst gen)) (lastRoughness (fst gen))
                      (lastBlurWidth (fst gen))) in *.
  assert (Hhit : generate size gr gb ro bo st1 (snd gen) = (st1, snd gen)).
  { apply generate_hit; cbn; try assumption. discriminate. }
  destruct (drawStamp_spec ctx2 x y size color2 opacity2 gr gb ro bo rot
                           st1 (snd gen))
    as (off2 & Hoff2 & Hdraw2).
  rewrite Hhit in Hoff2, Hdraw2. cbn [fst snd offCanvas st1] in Hoff2, Hdraw2.
  assert (Eoff : off2 = off) by congruence. subst off2.
  rewrite Hdraw1. cbn [fst snd]. rewrite Hdraw2. cbn [fst snd].
  exists (stampImage color1 off x y rot), (stampImage color2 off x y rot).
  assert (Hoffunit : unitAlpha (pix off)).
  { unfold unitStamp in Hgen. now rewrite Hoff in Hgen. }
  split; [ | split; [ | split; [reflexivity | split; [reflexivity | ]]]].
  - intros px py. rewrite stampImage_alpha.
    destruct Hplat as [_ Hres]. apply Hres. intros u v.
    unfold getPixel. destruct (inside off u v); [apply Hoffunit | cbn; lra].
  - intros px py. now rewrite !stampImage_alpha.
  - unfold unitStamp. cbn [offCanvas]. exact Hoffunit.
Qed.

(** X23. The painted terrain stays inside the land mask.  On a platform
    whose rasteriser and resampling keep alpha between 0 and 1, with a
    brush opacity between 0 and 100 and the map layer and the land mask
    compositing with source-over, a dab in any paint mode keeps, at every
    pixel, the alpha of the map layer at or below the alpha of the land
    mask, and both between 0 and 1. *)
Theorem terrain_within_mask (x y : R) (state : AppState) (wd : World)
        (mctx : Context2D) :
  unitPlatform ->
  unitStamp (stamp wd) ->
  mapCtx (engine wd) = Some mctx ->
  globalCompositeOperation mctx = SourceOver ->
  globalCompositeOperation (maskCtx (engine wd)) = SourceOver ->
  0 <= brushBlur state <= 100 ->
  let wd' := applyPaint x y state wd in
  exists mctx',
    mapCtx (engine wd') = Some mctx' /\
    forall px py,
      0 <= alpha (pix (canvas mctx) px py) <=
      alpha (pix (canvas (maskCtx (engine wd))) px py) ->
      alpha (pix (canvas (maskCtx (engine wd))) px py) <= 1 ->
      0 <= alpha (pix (canvas mctx') px py) <=
      alpha (pix (canvas (maskCtx (engine wd'))) px py) /\
      alpha (pix (canvas (maskCtx (engine wd'))) px py) <= 1.
Proof.
  intros Hplat Hst Hmap Hgm Hgk Hop wd'. subst wd'.
  unfold applyPaint. rewrite Hmap.
  cbn [engine mapCtx maskCtx setRiverState].
  unfold paintDab.
  set (e := engine wd) in *.
  set (op := brushBlur state / 100).
  assert (Hop1 : 0 <= op <= 1) by (unfold op; lra).
  destruct (paintMode state).
  - (* terrain *)
    unfold drawToMask.
    set (rot := random (seed wd) * PI * 2).
    destruct (drawStamp_twice (maskCtx e) mctx x y (brushSize state)
                              "black" (terrainColor state) 1 op
                              (roughness state) (blurWidth state)
                              None (Some 95) rot (stamp wd) (S (seed wd))
                              Hplat Hst)
      as (a1 & a2 & Hu & Heq & H1 & H2 & _).
    destruct (drawStamp (maskCtx e) x y (brushSize state) "black" 1
                        (roughness state) (blurWidth state) None (Some 95)
                        (Some rot) (stamp wd) (S (seed wd)))
      as [[c1 s1] k1].
    cbn [fst snd] in H1, H2.
    destruct (drawStamp mctx x y (brushSize state) (terrainColor state) op
                        (roughness state) (blurWidth state) None (Some 95)
                        (Some rot) s1 k1)
      as [[c2 s2] k2].
    cbn [fst snd] in H2. subst c1 c2.
    cbn [engine].
    rewrite renderTextureLayer_mapCtx, renderTextureLayer_maskCtx.
    cbn [mapCtx maskCtx setMapCtx setMaskCtx].
    eexists. split; [reflexivity | ].
    intros px py Hb Hb1.
    rewrite Hgm, Hgk. cbn [canvas withCanvas pix paint blend].
    specialize (Hu px py). specialize (Heq px py).
    set (a := alpha (a1 px py)) in *.
    set (p := alpha (pix (canvas mctx) px py)) in *.
    set (m := alpha (pix (canvas (maskCtx e)) px py)) in *.
    cbn. rewrite Heq. fold a p m.
    assert (H0 : 0 <= op * a <= a) by nra.
    assert (Hmid : op * a + (1 - op * a) * p <= op * a + (1 - op * a) * m)
      by nra.
    assert (Hup : op * a + (1 - op * a) * m <= a + (1 - a) * m) by nra.
    repeat split; nra.
  - (* river *)
    destruct (if isOrganicRiver state
              then organicRiver x y (brushSize state) (riverState e) (seed wd)
              else (riverState e, brushSize state, seed wd))
      as [[rs fr] k0].
    unfold eraseFromMask.
    set (rot := random k0 * PI * 2).
    destruct (drawStamp_twice
                (withOperation DestinationOut (maskCtx (setRiverState rs e)))
                (withOperation DestinationOut mctx) x y fr
                "black" "black" 1 1 (roughness state) (blurWidth state)
                None (Some 100) rot (stamp wd) (S k0) Hplat Hst)
      as (a1 & a2 & Hu & Heq & H1 & H2 & _).
    destruct (drawStamp
                (withOperation DestinationOut (maskCtx (setRiverState rs e)))
                x y fr "black" 1 (roughness state) (blurWidth state) None
                (Some 100) (Some rot) (stamp wd) (S k0))
      as [[c1 s1] k1].
    cbn [fst snd] in H1, H2.
    destruct (drawStamp (withOperation DestinationOut mctx) x y fr "black" 1
                        (roughness state) (blurWidth state) None (Some 100)
                        (Some rot) s1 k1)
      as [[c2 s2] k2].
    cbn [fst snd] in H2. subst c1 c2.
    cbn [engine].
    rewrite renderTextureLayer_mapCtx, renderTextureLayer_maskCtx.
    cbn [mapCtx maskCtx setMapCtx setMaskCtx setRiverState restoreState
         canvas withCanvas withOperation globalCompositeOperation].
    eexists. split; [reflexivity | ].
    intros px py Hb Hb1.
    cbn [canvas pix paint blend].
    specialize (Hu px py). specialize (Heq px py).
    set (a := alpha (a1 px py)) in *.
    set (p := alpha (pix (canvas mctx) px py)) in *.
    set (m := alpha (pix (canvas (maskCtx e)) px py)) in *.
    cbn. rewrite Heq. fold a p m.
    repeat split; nra.
  - (* sea *)
    exists mctx. split; [exact Hmap | ]. intros px py Hb Hb1.
    fold e. lra.
  - (* texture *)
    destruct (truthy (activeTexture state)).
    + stamp_unit Hplat. cbn [engine].
      rewrite renderTextureLayer_mapCtx, renderTextureLayer_maskCtx.
      cbn [mapCtx maskCtx setTextureMaskCtx].
      exists mctx. split; [exact Hmap | ]. intros px py Hb Hb1.
    fold e. lra.
    + stamp_unit Hplat. cbn [engine mapCtx maskCtx setMapCtx].
      eexists. split; [reflexivity | ].
      intros px py Hb Hb1.
      cbn [restoreState canvas withCanvas withOperation
           globalCompositeOperation pix paint blend].
      set (p := alpha (pix (canvas mctx) px py)) in *.
      set (m := alpha (pix (canvas (maskCtx e)) px py)) in *.
      cbn. fold p.
      match goal with
      | |- 0 <= ?t <= _ /\ _ => replace t with p by ring
      end.
      lra.
  - (* path *)
    exists mctx. split; [exact Hmap | ]. intros px py Hb Hb1.
    fold e. lra.
  - (* none *)
    exists mctx. split; [exact Hmap | ]. intros px py Hb Hb1.
    fold e. lra.
Qed.

(** X24. The texture brush reveals and the texture eraser hides.  On a
    platform whose rasteriser and resampling keep alpha between 0 and 1,
    with a brush opacity between 0 and 100 and an active texture, a dab in
    texture mode on a bound map layer keeps the alpha of every pixel of
    the texture mask between 0 and 1; it never lowers it with the brush
    and never raises it with the eraser, whatever operator the context of
    the texture mask was left with. *)
Theorem texture_mask_monotone (x y : R) (state : AppState) (wd : World)
        (mctx : Context2D) :
  unitPlatform ->
  unitStamp (stamp wd) ->
  mapCtx (engine wd) = Some mctx ->
  paintMode state = texture ->
  truthy (activeTexture state) = true ->
  0 <= brushBlur state <= 100 ->
  let before := canvas (textureMaskCtx (engine wd)) in
  let after := canvas (textureMaskCtx (engine (applyPaint x y state wd))) in
  forall px py,
    0 <= alpha (pix before px py) <= 1 ->
    0 <= alpha (pix after px py) <= 1 /\
    (isTextureEraser state = false ->
     alpha (pix before px py) <= alpha (pix after px py)) /\
    (isTextureEraser state = true ->
     alpha (pix after px py) <= alpha (pix before px py)).
Proof.
  intros Hplat Hst Hmap Hmode Hactive Hop before after px py Hb.
  subst after before. unfold applyPaint. rewrite Hmap.
  cbn [engine textureMaskCtx setRiverState].
  unfold paintDab. rewrite Hmode, Hactive.
  set (op := brushBlur state / 100).
  assert (Hop1 : 0 <= op <= 1) by (unfold op; lra).
  stamp_unit Hplat. cbn [engine].
  rewrite renderTextureLayer_textureMaskCtx.
  cbn [textureMaskCtx setTextureMaskCtx restoreState canvas withCanvas
       withOperation globalCompositeOperation pix paint].
  specialize (Hu px py).
  set (sa := alpha (a px py)) in *.
  set (da := alpha (pix (canvas (textureMaskCtx (engine wd))) px py)) in *.
  assert (H0 : 0 <= op * sa <= 1) by nra.
  destruct (isTextureEraser state); cbn; fold sa da;
    repeat split; intros; try discriminate; nra.
Qed.

Lemma settle_texture_state (w h : Z) (order : list (Layer * DataURL)) :
  forall e,
    option_map drawingState (textureLayerCtx (settle w h order e)) =
    option_map drawingState (textureLayerCtx e).
Proof.
  induction order as [ | p order IH]; intros e; [reflexivity | ].
  rewrite settle_cons, IH. apply loaded_texture_state.
Qed.

(** X28. A snapshot without a texture mask hides the texture.  When a
    snapshot from before texture masks existed is restored on a texture
    mask of the size [w] by [h], with the texture layer in its initial
    drawing state, then once the image of the land mask has arrived,
    whatever else has arrived and in whatever order, the texture mask is
    transparent and so is the texture layer, whichever texture is
    loaded. *)
Theorem legacy_snapshot_hides_texture (snap : Snapshot) (w h : Z)
        (order : list (Layer * DataURL)) (e : MapEngine) (ctx : Context2D)
        (img : Image) :
  snap_textureMask snap = None ->
  textureLayerCtx e = Some ctx ->
  drawingState ctx = (1, SourceOver) ->
  width (canvas (textureMaskCtx e)) = w ->
  height (canvas (textureMaskCtx e)) = h ->
  Permutation (snd (loadSnapshot snap w h e)) order ->
  decode (snap_mask snap) = Some img ->
  let e' := settle w h order (fst (loadSnapshot snap w h e)) in
  (forall x y, getPixel (canvas (textureMaskCtx e')) x y = transparent) /\
  exists ctx',
    textureLayerCtx e' = Some ctx' /\
    forall x y, getPixel (canvas ctx') x y = transparent.
Proof.
  intros Hlegacy Hctx Hstate Hw Hh Hperm Hdec. cbv zeta.
  unfold loadSnapshot in Hperm |- *. rewrite Hlegacy in Hperm |- *.
  cbn [fst snd] in Hperm |- *.
  set (e0 := setTextureMaskCtx
               (withCanvas (clearRect 0 0 w h (canvas (textureMaskCtx e)))
                           (textureMaskCtx e)) e) in *.
  set (e' := settle w h order e0).
  set (pending := _ ++ _ ++ _) in Hperm.
  assert (Hnot : ~ In TextureMaskLayer (List.map fst order)).
  { intros Hin. apply in_map_iff in Hin. destruct Hin as ([l src] & Hl & Hin).
    cbn in Hl. subst l.
    apply (Permutation_in _ (Permutation_sym Hperm)) in Hin.
    unfold pending in Hin.
    destruct (mapCtx e); destruct (pathCtx e); cbn in Hin;
      repeat (destruct Hin as [Hin | Hin]; [discriminate | ]);
      contradiction. }
  assert (Hmask : textureMaskCtx e' = textureMaskCtx e0).
  { assert (H := settle_other TextureMaskLayer w h order Hnot e0).
    cbn [layerCtx] in H. fold e' in H. congruence. }
  assert (Hclear : forall x y,
             getPixel (canvas (textureMaskCtx e')) x y = transparent).
  { intros x y. rewrite Hmask. unfold e0.
    cbn [textureMaskCtx setTextureMaskCtx canvas withCanvas].
    unfold getPixel.
    destruct (inside _ x y) eqn:Hin; [ | reflexivity].
    apply inside_in_rect in Hin. cbn [width height clearRect] in Hin.
    rewrite Hw, Hh in Hin. cbn [pix clearRect]. now rewrite Hin. }
  split; [exact Hclear | ].
  assert (Harr : maskArrives order).
  { exists MaskLayer, (snap_mask snap), img. split; [ | split; [now left | ]].
    - apply (Permutation_in _ Hperm). unfold pending.
      apply in_or_app. right. apply in_or_app. right. now left.
    - exact Hdec. }
  assert (Hst0 : option_map drawingState (textureLayerCtx e0) =
                 Some (1, SourceOver)).
  { unfold e0. cbn [textureLayerCtx setTextureMaskCtx]. rewrite Hctx. cbn.
    now rewrite Hstate. }
  assert (Hcons := settle_texture_consistent w h order e0 Hst0
                                             (or_intror Harr)).
  fold e' in Hcons.
  assert (Hst := settle_texture_state w h order e0). fold e' in Hst.
  rewrite Hst0 in Hst.
  unfold textureConsistent in Hcons.
  destruct (textureLayerCtx e') as [ctx' | ]; [ | discriminate].
  exists ctx'. split; [reflexivity | ].
  intros x y. rewrite Hcons.
  destruct (inside (canvas ctx') x y); [ | reflexivity].
  unfold texturePixel.
  destruct (currentTextureImg e'); [ | reflexivity].
  rewrite Hclear. apply pixel_ext; cbn; ring.
Qed.

End Engine.

(** ** Properties of the colour functions *)

Section Colours.
Import Utils.
Local Open Scope Q_scope.

Lemma round_mono (x y : Q) : x <= y -> (round x <= round y)%Z.
Proof.
  intros H. unfold round. apply Qfloor_resp_le. Lqa.lra.
Qed.

Lemma round_comp (x y : Q) : x == y -> round x = round y.
Proof.
  intros H. unfold round. apply Qfloor_comp. Lqa.lra.
Qed.

Lemma round_inject (n : Z) : round (inject_Z n) = n.
Proof.
  unfold round.
  assert (H1 := Qfloor_le (inject_Z n + (1 # 2))).
  assert (H2 := Qlt_floor (inject_Z n + (1 # 2))).
  set (m := Qfloor (inject_Z n + (1 # 2))) in *.
  assert (inject_Z m < inject_Z (n + 1)).
  { rewrite inject_Z_plus. eapply Qle_lt_trans; [exact H1 | ]. 
    change (inject_Z 1) with 1. Lqa.lra. }
  assert (inject_Z n < inject_Z (m + 1)).
  { eapply Qlt_trans; [ | exact H2]. Lqa.lra. }
  rewrite <- Zlt_Qlt in *. lia.
Qed.


(** The two digits of a byte, and their value. *)
Lemma byte_digits (n : Z) :
  (0 <= n <= 255)%Z ->
  exists c1 c2,
    padStart2 (toString16 n) = String c1 (String c2 EmptyString) /\
    parseInt16 (String c1 (String c2 EmptyString)) = Some n.
Proof.
  intros Hn.
  assert (Hall :
            forallb (fun k =>
                       let m := Z.of_nat k in
                       match padStart2 (toString16 m) with
                       | String c1 (String c2 EmptyString) =>
                         match parseInt16 (String c1 (String c2 EmptyString))
                         with
                         | Some m' => (m' =? m)%Z
                         | None => false
                         end
                       | _ => false
                       end) (seq 0 256) = true)
    by (vm_compute; reflexivity).
  rewrite forallb_forall in Hall.
  specialize (Hall (Z.to_nat n)).
  rewrite Z2Nat.id in Hall by lia.
  assert (Hin : In (Z.to_nat n) (seq 0 256)) by (apply in_seq; lia).
  specialize (Hall Hin). cbv zeta in Hall.
  destruct (padStart2 (toString16 n)) as [ | c1 [ | c2 [ | c3 rest]]];
    try discriminate.
  exists c1, c2. split; [reflexivity | ].
  destruct (parseInt16 _) as [m' | ]; [ | discriminate].
  apply Z.eqb_eq in Hall. now subst.
Qed.

Lemma div_unit (x c : Q) : 0 < c -> 0 <= x <= c -> 0 <= x / c <= 1.
Proof.
  intros Hc [H0 H1]. split.
  - apply Qle_shift_div_l; Lqa.lra.
  - apply Qle_shift_div_r; Lqa.lra.
Qed.

Lemma round_byte (x : Q) : 0 <= x <= 1 -> (0 <= round (x * 255) <= 255)%Z.
Proof.
  intros [H0 H1].
  assert (Hlo := round_mono 0 (x * 255)).
  assert (Hhi := round_mono (x * 255) 255).
  change (round 0) with 0%Z in Hlo. change (round 255) with 255%Z in Hhi.
  split; [apply Hlo | apply Hhi]; Lqa.lra.
Qed.

(** The channels of [hsvToHex] for a hue that is not negative and a
    saturation and a value between 0 and 100: none exceeds the value, and
    one of them is the value. *)
Lemma hsvToRgb_range (h s v : Q) :
  0 <= h -> 0 <= s <= 100 -> 0 <= v <= 100 ->
  let '(r, g, b) := hsvToRgb h s v in
  (0 <= r <= v / 100 /\ 0 <= g <= v / 100 /\ 0 <= b <= v / 100) /\
  (r == v / 100 \/ g == v / 100 \/ b == v / 100).
Proof.
  intros Hh Hs Hv. unfold hsvToRgb.
  set (hh := h / 360). set (ss := s / 100). set (vv := v / 100).
  set (i := Qfloor (hh * 6)).
  set (f := hh * 6 - inject_Z i).
  assert (HS : 0 <= ss <= 1) by (apply div_unit; Lqa.lra).
  assert (HV : 0 <= vv <= 1) by (apply div_unit; Lqa.lra).
  assert (HH : 0 <= hh).
  { apply Qle_shift_div_l; Lqa.lra. }
  assert (Hi : (0 <= i)%Z).
  { assert (H0 := Qfloor_resp_le 0 (hh * 6)).
    change (Qfloor 0) with 0%Z in H0. apply H0. Lqa.lra. }
  assert (Hf : 0 <= f < 1).
  { unfold f. assert (H1 := Qfloor_le (hh * 6)).
    assert (H2 := Qlt_floor (hh * 6)). fold i in H1, H2.
    rewrite inject_Z_plus in H2. change (inject_Z 1) with 1 in H2.
    split; Lqa.lra. }
  assert (HfS : 0 <= f * ss <= 1) by (split; Lqa.nra).
  assert (HfS' : 0 <= (1 - f) * ss <= 1) by (split; Lqa.nra).
  assert (Hp : 0 <= vv * (1 - ss) <= vv) by (split; Lqa.nra).
  assert (Hq : 0 <= vv * (1 - f * ss) <= vv) by (split; Lqa.nra).
  assert (Ht : 0 <= vv * (1 - (1 - f) * ss) <= vv) by (split; Lqa.nra).
  assert (HVV : 0 <= vv <= vv) by (split; Lqa.lra).
  assert (Hrem : (0 <= Z.rem i 6 < 6)%Z) by (apply Z.rem_bound_pos; lia).
  assert (Hcase : (Z.rem i 6 = 0 \/ Z.rem i 6 = 1 \/ Z.rem i 6 = 2 \/
                   Z.rem i 6 = 3 \/ Z.rem i 6 = 4 \/ Z.rem i 6 = 5)%Z) by lia.
  destruct Hcase as [-> | [-> | [-> | [-> | [-> | ->]]]]];
    (split; [tauto | ]); auto using Qeq_refl.
Qed.


(** [hexToHsv] reads back the three bytes that [toHex] formats. *)
Lemma hexToHsv_toHex (r g b : Q) :
  0 <= r <= 1 -> 0 <= g <= 1 -> 0 <= b <= 1 ->
  hexToHsv ("#" ++ toHex r ++ toHex g ++ toHex b) =
  Some (rgbToHsv (round (r * 255)) (round (g * 255)) (round (b * 255))).
Proof.
  intros Hr Hg Hb. unfold toHex.
  destruct (byte_digits _ (round_byte r Hr)) as (r1 & r2 & -> & Pr).
  destruct (byte_digits _ (round_byte g Hg)) as (g1 & g2 & -> & Pg).
  destruct (byte_digits _ (round_byte b Hb)) as (b1 & b2 & -> & Pb).
  unfold hexToHsv. cbn [append substring]. now rewrite Pr, Pg, Pb.
Qed.

Lemma Qmax_inject (a b : Z) :
  Qmax (inject_Z a / 255) (inject_Z b / 255) == inject_Z (Z.max a b) / 255.
Proof.
  assert (Hdiv : forall x y : Z,
             (x <= y)%Z -> inject_Z x / 255 <= inject_Z y / 255).
  { intros x y Hxy. apply Qmult_le_compat_r; [ | discriminate].
    now rewrite <- Zle_Qle. }
  destruct (Z.max_spec a b) as [[Hlt ->] | [Hle ->]].
  - apply Q.max_r. apply Hdiv. lia.
  - apply Q.max_l. apply Hdiv. lia.
Qed.

(** The value that [hexToHsv] returns is the largest byte, rescaled. *)
Lemma rgbToHsv_v (r g b : Z) :
  v (rgbToHsv r g b) =
  inject_Z (round (inject_Z (Z.max r (Z.max g b)) / 255 * 100)).
Proof.
  unfold rgbToHsv. cbn [v]. f_equal. apply round_comp.
  rewrite <- Qmax_inject.
  assert (H := Qmax_inject g b).
  rewrite (Q.max_compat _ _ (Qeq_refl _) _ _ H). reflexivity.
Qed.

Lemma value_byte (n : Z) :
  (0 <= n <= 100)%Z ->
  round (inject_Z (round (inject_Z n / 100 * 255)) / 255 * 100) = n.
Proof.
  intros Hn.
  assert (Hall :
            forallb (fun k =>
                       let m := Z.of_nat k in
                       (round (inject_Z (round (inject_Z m / 100 * 255)) / 255
                               * 100) =? m)%Z) (seq 0 101) = true)
    by (vm_compute; reflexivity).
  rewrite forallb_forall in Hall.
  specialize (Hall (Z.to_nat n)).
  rewrite Z2Nat.id in Hall by lia.
  apply Z.eqb_eq, Hall, in_seq. lia.
Qed.


(** The value survives the round trip through the colour string. *)
Lemma value_survives (h s v : Q) (n : Z) :
  0 <= h -> 0 <= s <= 100 -> v == inject_Z n -> (0 <= n <= 100)%Z ->
  exists r g b,
    (0 <= r <= 255)%Z /\ (0 <= g <= 255)%Z /\ (0 <= b <= 255)%Z /\
    hsvToHex h s v =
    ("#" ++ padStart2 (toString16 r) ++ padStart2 (toString16 g) ++
         padStart2 (toString16 b))%string /\
    hexToHsv (hsvToHex h s v) = Some (rgbToHsv r g b) /\
    Utils.v (rgbToHsv r g b) = inject_Z n.
Proof.
  intros Hh Hs Hv Hn.
  assert (Hv' : 0 <= v <= 100).
  { rewrite Hv. split.
    - change 0 with (inject_Z 0). rewrite <- Zle_Qle. lia.
    - change 100 with (inject_Z 100). rewrite <- Zle_Qle. lia. }
  assert (Hrange := hsvToRgb_range h s v Hh Hs Hv').
  unfold hsvToHex.
  destruct (hsvToRgb h s v) as [[r g] b].
  destruct Hrange as ((Hr & Hg & Hb) & Hmax).
  assert (HV : 0 <= v / 100 <= 1) by (apply div_unit; Lqa.lra).
  set (vv := v / 100) in *.
  assert (Hr1 : 0 <= r <= 1) by (split; Lqa.lra).
  assert (Hg1 : 0 <= g <= 1) by (split; Lqa.lra).
  assert (Hb1 : 0 <= b <= 1) by (split; Lqa.lra).
  exists (round (r * 255)), (round (g * 255)), (round (b * 255)).
  split; [now apply round_byte | ].
  split; [now apply round_byte | ].
  split; [now apply round_byte | ].
  split; [reflexivity | ].
  split; [now apply hexToHsv_toHex | ].
  rewrite rgbToHsv_v. f_equal.
  set (m := round (vv * 255)).
  assert (HR : (round (r * 255) <= m)%Z) by (apply round_mono; Lqa.lra).
  assert (HG : (round (g * 255) <= m)%Z) by (apply round_mono; Lqa.lra).
  assert (HB : (round (b * 255) <= m)%Z) by (apply round_mono; Lqa.lra).
  assert (Hone : round (r * 255) = m \/ round (g * 255) = m \/
                 round (b * 255) = m).
  { destruct Hmax as [E | [E | E]]; [left | right; left | right; right];
      apply round_comp; rewrite E; reflexivity. }
  replace (Z.max (round (r * 255)) (Z.max (round (g * 255)) (round (b * 255))))
    with m by lia.
  assert (Hm : m = round (inject_Z n / 100 * 255)).
  { apply round_comp. unfold vv. rewrite Hv. reflexivity. }
  rewrite Hm. now apply value_byte.
Qed.

(** Without saturation the three channels are the value. *)
Lemma hsvToRgb_grey (h s v : Q) :
  0 <= h -> s == 0 ->
  let '(r, g, b) := hsvToRgb h s v in
  r == v / 100 /\ g == v / 100 /\ b == v / 100.
Proof.
  intros Hh Hs. unfold hsvToRgb.
  set (hh := h / 360). set (ss := s / 100). set (vv := v / 100).
  set (i := Qfloor (hh * 6)).
  set (f := hh * 6 - inject_Z i).
  assert (HH : 0 <= hh) by (apply Qle_shift_div_l; Lqa.lra).
  assert (Hi : (0 <= i)%Z).
  { assert (H0 := Qfloor_resp_le 0 (hh * 6)).
    change (Qfloor 0) with 0%Z in H0. apply H0. Lqa.lra. }
  assert (Hrem : (0 <= Z.rem i 6 < 6)%Z) by (apply Z.rem_bound_pos; lia).
  assert (Hcase : (Z.rem i 6 = 0 \/ Z.rem i 6 = 1 \/ Z.rem i 6 = 2 \/
                   Z.rem i 6 = 3 \/ Z.rem i 6 = 4 \/ Z.rem i 6 = 5)%Z) by lia.
  assert (E0 : ss == 0) by (unfold ss; rewrite Hs; reflexivity).
  destruct Hcase as [-> | [-> | [-> | [-> | [-> | ->]]]]];
    repeat split; rewrite ?E0; ring.
Qed.

Lemma rgbToHsv_grey (m : Z) :
  Utils.h (rgbToHsv m m m) = 0 /\ Utils.s (rgbToHsv m m m) = 0.
Proof.
  unfold rgbToHsv. cbn [Utils.h Utils.s].
  set (x := inject_Z m / 255).
  assert (Hmax : Qmax x (Qmax x x) == x).
  { rewrite (Q.max_l x x) by apply Qle_refl. apply Q.max_l, Qle_refl. }
  assert (Hmin : Qmin x (Qmin x x) == x).
  { rewrite (Q.min_l x x) by apply Qle_refl. apply Q.min_l, Qle_refl. }
  assert (Heq : Qeq_bool (Qmax x (Qmax x x)) (Qmin x (Qmin x x)) = true).
  { apply Qeq_bool_iff. now rewrite Hmax, Hmin. }
  rewrite Heq. cbn [negb]. split; [reflexivity | ].
  destruct (Qeq_bool (Qmax x (Qmax x x)) 0); [reflexivity | ].
  change 0 with (inject_Z (round 0)). f_equal. apply round_comp.
  rewrite Hmax, Hmin. unfold Qdiv. ring.
Qed.


Lemma round_range (lo hi : Z) (x : Q) :
  inject_Z lo <= x <= inject_Z hi ->
  inject_Z lo <= inject_Z (round x) <= inject_Z hi.
Proof.
  intros [H0 H1].
  assert (Hlo := round_mono _ _ H0). assert (Hhi := round_mono _ _ H1).
  rewrite round_inject in Hlo, Hhi.
  split; rewrite <- Zle_Qle; assumption.
Qed.

Lemma inject_range (lo hi z : Z) :
  inject_Z lo <= inject_Z z <= inject_Z hi -> (lo <= z <= hi)%Z.
Proof. rewrite <- !Zle_Qle. tauto. Qed.

Lemma div_between (a d : Q) : 0 < d -> - d <= a <= d -> -1 <= a / d <= 1.
Proof.
  intros Hd [H0 H1]. split.
  - apply Qle_shift_div_l; Lqa.lra.
  - apply Qle_shift_div_r; Lqa.lra.
Qed.

(** The components that [hexToHsv] computes from three bytes are in the
    ranges of the colour sliders. *)
Lemma rgbToHsv_range (r g b : Z) :
  (0 <= r <= 255)%Z -> (0 <= g <= 255)%Z -> (0 <= b <= 255)%Z ->
  let hsv := rgbToHsv r g b in
  0 <= Utils.h hsv <= 360 /\ 0 <= Utils.s hsv <= 100 /\
  0 <= Utils.v hsv <= 100.
Proof.
  intros Hr Hg Hb.
  assert (Hunit : forall n : Z, (0 <= n <= 255)%Z ->
                                0 <= inject_Z n / 255 <= 1).
  { intros n Hn. apply div_unit; [reflexivity | ].
    change 0 with (inject_Z 0). change 255 with (inject_Z 255).
    split; rewrite <- Zle_Qle; lia. }
  apply Hunit in Hr, Hg, Hb.
  unfold rgbToHsv. cbv zeta. cbn [Utils.h Utils.s Utils.v].
  set (R := inject_Z r / 255) in *.
  set (G := inject_Z g / 255) in *.
  set (B := inject_Z b / 255) in *.
  set (mx := Qmax R (Qmax G B)). set (mn := Qmin R (Qmin G B)).
  assert (HmxR : R <= mx) by apply Q.le_max_l.
  assert (HmxG : G <= mx).
  { eapply Qle_trans; [apply (Q.le_max_l G B) | apply Q.le_max_r]. }
  assert (HmxB : B <= mx).
  { eapply Qle_trans; [apply (Q.le_max_r G B) | apply Q.le_max_r]. }
  assert (Hmx1 : mx <= 1).
  { apply Q.max_lub; [Lqa.lra | apply Q.max_lub; Lqa.lra]. }
  assert (HmnR : mn <= R) by apply Q.le_min_l.
  assert (HmnG : mn <= G).
  { eapply Qle_trans; [apply Q.le_min_r | apply (Q.le_min_l G B)]. }
  assert (HmnB : mn <= B).
  { eapply Qle_trans; [apply Q.le_min_r | apply (Q.le_min_r G B)]. }
  assert (Hmn0 : 0 <= mn).
  { apply Q.min_glb; [Lqa.lra | apply Q.min_glb; Lqa.lra]. }
  change 0 with (inject_Z 0). change 360 with (inject_Z 360).
  change 100 with (inject_Z 100).
  split; [ | split].
  - (* hue *)
    apply round_range. change (inject_Z 0) with 0.
    change (inject_Z 360) with 360.
    destruct (negb (Qeq_bool mx mn)) eqn:Hd; [ | split; Lqa.lra].
    apply negb_true_iff, Qeq_bool_neq in Hd.
    assert (Hdpos : 0 < mx - mn).
    { destruct (Qle_lt_or_eq mn mx) as [Hlt | Heq]; [Lqa.lra | Lqa.lra | ].
      exfalso. apply Hd. now symmetry. }
    set (d := mx - mn) in *.
    assert (Hsix : forall y, 0 <= y <= 6 -> 0 <= y / 6 * 360 <= 360).
    { intros y Hy. assert (Hy6 := div_unit y 6 eq_refl Hy).
      set (z := y / 6) in *. split; Lqa.lra. }
    apply Hsix.
    destruct (Qeq_bool mx R).
    + assert (Hx := div_between (G - B) d Hdpos).
      destruct (Qle_bool B G) eqn:Hsign; cbn [negb].
      * apply Qle_bool_iff in Hsign.
        assert (H0 : 0 <= (G - B) / d)
          by (apply Qle_shift_div_l; Lqa.lra).
        set (x := (G - B) / d) in *.
        assert (-1 <= x <= 1) by (apply Hx; unfold d; split; Lqa.lra).
        split; Lqa.lra.
      * assert (Hlt : G < B).
        { apply Qnot_le_lt. intros Hle. apply Qle_bool_iff in Hle.
          congruence. }
        assert (H0 : (G - B) / d <= 0)
          by (apply Qle_shift_div_r; Lqa.lra).
        set (x := (G - B) / d) in *.
        assert (-1 <= x <= 1) by (apply Hx; unfold d; split; Lqa.lra).
        split; Lqa.lra.
    + destruct (Qeq_bool mx G).
      * assert (Hx := div_between (B - R) d Hdpos).
        set (x := (B - R) / d) in *.
        assert (-1 <= x <= 1) by (apply Hx; unfold d; split; Lqa.lra).
        split; Lqa.lra.
      * destruct (Qeq_bool mx B); [ | split; Lqa.lra].
        assert (Hx := div_between (R - G) d Hdpos).
        set (x := (R - G) / d) in *.
        assert (-1 <= x <= 1) by (apply Hx; unfold d; split; Lqa.lra).
        split; Lqa.lra.
  - (* saturation *)
    apply round_range. change (inject_Z 0) with 0.
    change (inject_Z 100) with 100.
    destruct (Qeq_bool mx 0) eqn:Hz; [split; Lqa.lra | ].
    apply Qeq_bool_neq in Hz.
    assert (Hpos : 0 < mx).
    { destruct (Qle_lt_or_eq 0 mx) as [Hlt | Heq]; [Lqa.lra | Lqa.lra | ].
      exfalso. apply Hz. now symmetry. }
    assert (Hs := div_unit (mx - mn) mx Hpos).
    set (x := (mx - mn) / mx) in *.
    assert (0 <= x <= 1) by (apply Hs; split; Lqa.lra).
    split; Lqa.lra.
  - (* value *)
    apply round_range. change (inject_Z 0) with 0.
    change (inject_Z 100) with 100. split; Lqa.lra.
Qed.


(** X15. A colour survives the trip through its string as far as its
    brightness goes.  For a hue that is not negative, a saturation between
    0 and 100 and a whole value between 0 and 100, [hsvToHex] returns [#]
    followed by three bytes of two lowercase hexadecimal digits each;
    [hexToHsv] reads these bytes back, and the value it returns is the
    value given.  Without saturation it returns hue 0 and saturation 0:
    the hue is lost. *)
Theorem hsv_value_round_trip (h s : Q) (n : Z) :
  0 <= h -> 0 <= s <= 100 -> (0 <= n <= 100)%Z ->
  exists r g b hsv,
    ((0 <= r <= 255) /\ (0 <= g <= 255) /\ (0 <= b <= 255))%Z /\
    hsvToHex h s (inject_Z n) =
    ("#" ++ padStart2 (toString16 r) ++ padStart2 (toString16 g) ++
         padStart2 (toString16 b))%string /\
    String.length (hsvToHex h s (inject_Z n)) = 7%nat /\
    hexToHsv (hsvToHex h s (inject_Z n)) = Some hsv /\
    Utils.v hsv = inject_Z n /\
    (s == 0 -> Utils.h hsv = 0 /\ Utils.s hsv = 0).
Proof.
  intros Hh Hs Hn.
  destruct (value_survives h s (inject_Z n) n Hh Hs (Qeq_refl _) Hn)
    as (r & g & b & Hr & Hg & Hb & Hhex & Hback & Hv).
  exists r, g, b, (rgbToHsv r g b).
  split; [tauto | ]. split; [exact Hhex | ].
  split.
  { rewrite Hhex.
    destruct (byte_digits r Hr) as (r1 & r2 & -> & _).
    destruct (byte_digits g Hg) as (g1 & g2 & -> & _).
    destruct (byte_digits b Hb) as (b1 & b2 & -> & _).
    reflexivity. }
  split; [exact Hback | split; [exact Hv | ]].
  intros Hs0.
  assert (Hgrey := hsvToRgb_grey h s (inject_Z n) Hh Hs0).
  assert (Hrgb : forall x, 0 <= x <= 1 ->
                           exists c1 c2, toHex x =
                                         String c1 (String c2 EmptyString) /\
                                         parseInt16 (toHex x) =
                                         Some (round (x * 255))).
  { intros x Hx. unfold toHex.
    destruct (byte_digits _ (round_byte x Hx)) as (c1 & c2 & E & P).
    exists c1, c2. rewrite E. now split. }
  assert (Hunit : 0 <= inject_Z n / 100 <= 1).
  { apply div_unit; [reflexivity | ].
    change 0 with (inject_Z 0). change 100 with (inject_Z 100).
    split; rewrite <- Zle_Qle; lia. }
  unfold hsvToHex in Hback.
  destruct (hsvToRgb h s (inject_Z n)) as [[x y] z].
  destruct Hgrey as (Ex & Ey & Ez).
  assert (Hx : 0 <= x <= 1) by (rewrite Ex; exact Hunit).
  assert (Hy : 0 <= y <= 1) by (rewrite Ey; exact Hunit).
  assert (Hz : 0 <= z <= 1) by (rewrite Ez; exact Hunit).
  rewrite (hexToHsv_toHex x y z Hx Hy Hz) in Hback.
  assert (E : rgbToHsv (round (x * 255)) (round (y * 255)) (round (z * 255)) =
              rgbToHsv r g b) by congruence.
  rewrite <- E.
  rewrite (round_comp (y * 255) (x * 255)) by (rewrite Ex, Ey; reflexivity).
  rewrite (round_comp (z * 255) (x * 255)) by (rewrite Ex, Ez; reflexivity).
  apply rgbToHsv_grey.
Qed.

(** X16. Whenever the three pairs of digits of a colour string parse as
    bytes, in either case of the letters, [hexToHsv] returns whole numbers
    in the ranges of the colour sliders: a hue from 0 to 360, a saturation
    and a value from 0 to 100. *)
Theorem hexToHsv_in_range (hex : string) (r g b : Z) :
  parseInt16 (substring 1 2 hex) = Some r ->
  parseInt16 (substring 3 2 hex) = Some g ->
  parseInt16 (substring 5 2 hex) = Some b ->
  (0 <= r <= 255)%Z -> (0 <= g <= 255)%Z -> (0 <= b <= 255)%Z ->
  exists hh ss vv : Z,
    hexToHsv hex = Some (mkHSV (inject_Z hh) (inject_Z ss) (inject_Z vv)) /\
    (0 <= hh <= 360)%Z /\ (0 <= ss <= 100)%Z /\ (0 <= vv <= 100)%Z.
Proof.
  intros Pr Pg Pb Hr Hg Hb.
  assert (Hrange := rgbToHsv_range r g b Hr Hg Hb).
  unfold hexToHsv. rewrite Pr, Pg, Pb.
  unfold rgbToHsv in *. cbv zeta in *. cbn [Utils.h Utils.s Utils.v] in Hrange.
  eexists; eexists; eexists. split; [reflexivity | ].
  destruct Hrange as (H1 & H2 & H3).
  split; [exact (inject_range 0 360 _ H1) | ].
  split; [exact (inject_range 0 100 _ H2) | exact (inject_range 0 100 _ H3)].
Qed.

(** X17. [lightenColor] raises the brightness by the amount, up to 100.
    For a colour string whose three pairs of digits parse as bytes and a
    whole amount that is not negative, the value that [hexToHsv] reads
    from the lightened colour is the value of the colour plus the amount,
    capped at 100. *)
Theorem lightenColor_value (hex : string) (r g b a : Z) :
  parseInt16 (substring 1 2 hex) = Some r ->
  parseInt16 (substring 3 2 hex) = Some g ->
  parseInt16 (substring 5 2 hex) = Some b ->
  (0 <= r <= 255)%Z -> (0 <= g <= 255)%Z -> (0 <= b <= 255)%Z ->
  (0 <= a)%Z ->
  exists hsv out hsv',
    hexToHsv hex = Some hsv /\
    lightenColor hex (inject_Z a) = Some out /\
    hexToHsv out = Some hsv' /\
    Utils.v hsv' == Qmin 100 (Utils.v hsv + inject_Z a).
Proof.
  intros Pr Pg Pb Hr Hg Hb Ha.
  assert (Hhex : hexToHsv hex = Some (rgbToHsv r g b)).
  { unfold hexToHsv. now rewrite Pr, Pg, Pb. }
  destruct (rgbToHsv_range r g b Hr Hg Hb) as (Hh & Hs & Hv).
  set (hsv := rgbToHsv r g b) in *.
  assert (Hvz : exists m, Utils.v hsv = inject_Z m) by (eexists; reflexivity).
  destruct Hvz as [m Hm]. rewrite Hm in Hv.
  apply (inject_range 0 100) in Hv.
  assert (Ha' : 0 <= inject_Z a).
  { change 0 with (inject_Z 0). now rewrite <- Zle_Qle. }
  assert (Hs' : 0 <= Qmax 0 (Utils.s hsv - inject_Z a / 2) <= 100).
  { assert (Hhalf : 0 <= inject_Z a / 2) by (apply Qle_shift_div_l; Lqa.lra).
    split; [apply Q.le_max_l | ].
    apply Q.max_lub; Lqa.lra. }
  assert (Hv' : Qmin 100 (Utils.v hsv + inject_Z a) ==
                inject_Z (Z.min 100 (m + a))).
  { rewrite Hm, <- inject_Z_plus. change 100 with (inject_Z 100).
    destruct (Z.min_spec 100 (m + a)) as [[Hlt ->] | [Hle ->]].
    - apply Q.min_l. rewrite <- Zle_Qle. lia.
    - apply Q.min_r. rewrite <- Zle_Qle. lia. }
  destruct (value_survives (Utils.h hsv) _ _ (Z.min 100 (m + a))
                           (proj1 Hh) Hs' Hv' ltac:(lia))
    as (r' & g' & b' & _ & _ & _ & _ & Hback & Hval).
  exists hsv, (hsvToHex (Utils.h hsv)
                        (Qmax 0 (Utils.s hsv - inject_Z a / 2))
                        (Qmin 100 (Utils.v hsv + inject_Z a))),
         (rgbToHsv r' g' b').
  split; [exact Hhex | ].
  split; [unfold lightenColor; now rewrite Hhex | ].
  split; [exact Hback | ].
  rewrite Hval. symmetry. exact Hv'.
Qed.

End Colours.

(** ** Properties of the tools and the hit tests *)

Lemma find_first {A : Type} (f : A -> bool) (l : list A) (a : A) :
  find f l = Some a <->
  exists before after,
    l = before ++ a :: after /\ f a = true /\
    forall b, In b before -> f b = false.
Proof.
  induction l as [ | x l IH]; cbn.
  - split; [discriminate | ].
    intros (before & after & E & _). now destruct before.
  - destruct (f x) eqn:Hx.
    + split.
      * intros H. injection H as <-.
        exists [], l. repeat split; [exact Hx | contradiction].
      * intros (before & after & E & Ha & Hb).
        destruct before as [ | y before].
        -- cbn in E. congruence.
        -- cbn in E. injection E as <- _.
           rewrite (Hb x) in Hx by now left. discriminate.
    + rewrite IH. split.
      * intros (before & after & -> & Ha & Hb).
        exists (x :: before), after. repeat split; [exact Ha | ].
        intros b [<- | Hin]; [exact Hx | now apply Hb].
      * intros (before & after & E & Ha & Hb).
        destruct before as [ | y before].
        -- cbn in E. injection E as -> _. congruence.
        -- cbn in E. injection E as <- ->.
           exists before, after. repeat split; [exact Ha | ].
           intros b Hin. apply Hb. now right.
Qed.

Lemma find_none_iff {A : Type} (f : A -> bool) (l : list A) :
  find f l = None <-> forall a, In a l -> f a = false.
Proof.
  split.
  - intros H a Hin. now apply (find_none f l H).
  - intros H. destruct (find f l) as [a | ] eqn:E; [ | reflexivity].
    apply find_some in E. destruct E as [Hin Ha].
    rewrite (H a Hin) in Ha. discriminate.
Qed.

(** X25. A pointer press picks the topmost asset but the first label.
    [findAsset] returns an asset of the list whose scaled box contains the
    point and after which no asset of the list does, so the one drawn last
    among those under the pointer; [findLabel] returns a label within
    three times its size of the point before which no label of the list is,
    so the one drawn first among those near the pointer.  Each returns
    nothing exactly when no asset, or no label, passes its test. *)
Theorem pointer_hit_tests (px py : R) (assets : list Asset.MapAsset)
        (labels : list Label.MapLabel) :
  (forall a,
      findAsset px py assets = Some a <->
      exists below above,
        assets = below ++ a :: above /\ overAsset px py a = true /\
        forall b, In b above -> overAsset px py b = false) /\
  (findAsset px py assets = None <->
   forall a, In a assets -> overAsset px py a = false) /\
  (forall l,
      findLabel px py labels = Some l <->
      exists below above,
        labels = below ++ l :: above /\ nearLabel px py l = true /\
        forall b, In b below -> nearLabel px py b = false) /\
  (findLabel px py labels = None <->
   forall l, In l labels -> nearLabel px py l = false).
Proof.
  split; [ | split; [ | split]].
  - intros a. unfold findAsset. rewrite find_first. split.
    + intros (before & after & E & Ha & Hb).
      exists (rev after), (rev before). split.
      * rewrite <- (rev_involutive assets), E, rev_app_distr. cbn.
        now rewrite <- app_assoc.
      * split; [exact Ha | ]. intros b Hin. apply Hb. now apply in_rev.
    + intros (below & above & E & Ha & Hb).
      exists (rev above), (rev below). split.
      * rewrite E, rev_app_distr. cbn. now rewrite <- app_assoc.
      * split; [exact Ha | ]. intros b Hin. apply Hb. now apply in_rev.
  - unfold findAsset. rewrite find_none_iff. split.
    + intros H a Hin. apply H. now apply in_rev in Hin.
    + intros H a Hin. apply H. now apply in_rev.
  - intros l. unfold findLabel. rewrite find_first. split.
    + intros (before & after & E & Hl & Hb). now exists before, after.
    + intros (below & above & E & Hl & Hb). now exists below, above.
  - unfold findLabel. apply find_none_iff.
Qed.

Lemma Tool_eqb_eq (a b : Tool.ToolType) : Tool.eqb a b = true <-> a = b.
Proof. destruct a, b; cbn; split; intros H; congruence. Qed.

(** X26. The tool and the paint mode.  [setTool] keeps the paint mode
    equal to [getPaintMode] of the active tool: choosing the active tool
    again (other than the move tool) only toggles the drawer, and any other
    choice sets both and clears the three selections.  [handleLoad] resets
    the tool to sculpt but takes the paint mode from the file, so after a
    load the two agree exactly when the file has no paint mode or has the
    terrain mode; a map saved by [handleSaveFile] with any other paint mode
    loads with the sculpt tool and that other mode. *)
Theorem tool_and_paint_mode (t : Tool.ToolType) (s : ToolState)
        (isDrawerOpen : bool) (data : SavedToolState) :
  (inSync s -> inSync (fst (setTool t s isDrawerOpen))) /\
  (fst (setTool t s isDrawerOpen) = s /\
   snd (setTool t s isDrawerOpen) = negb isDrawerOpen \/
   fst (setTool t s isDrawerOpen) =
   mkToolState t (getPaintMode t) None None None /\
   snd (setTool t s isDrawerOpen) = true) /\
  inSync INITIAL_TOOL_STATE /\
  activeTool (handleLoad data) = Tool.sculpt /\
  (inSync (handleLoad data) <->
   savedPaintMode data = None \/ savedPaintMode data = Some terrain) /\
  (toolPaintMode s <> terrain -> ~ inSync (handleLoad (handleSaveFile s))).
Proof.
  split; [ | split; [ | split; [ | split; [ | split]]]].
  - intros Hs. unfold setTool.
    destruct (Tool.eqb (activeTool s) t && negb (Tool.eqb t Tool.move));
      [exact Hs | reflexivity].
  - unfold setTool.
    destruct (Tool.eqb (activeTool s) t && negb (Tool.eqb t Tool.move));
      [left | right]; split; reflexivity.
  - reflexivity.
  - reflexivity.
  - unfold inSync, handleLoad. cbn.
    destruct (savedPaintMode data) as [m | ].
    + split.
      * intros ->. now right.
      * intros [H | H]; [discriminate | congruence].
    + split; [now left | reflexivity].
  - intros Hm. unfold inSync, handleLoad, handleSaveFile. cbn. exact Hm.
Qed.

(** ** Properties of curved labels *)

Lemma sumWidths_app (l1 l2 : list R) :
  sumWidths (l1 ++ l2) = sumWidths l1 + sumWidths l2.
Proof.
  unfold sumWidths.
  induction l1 as [ | a l1 IH]; cbn [List.app fold_right]; [ring | ].
  rewrite IH. ring.
Qed.

Lemma sumWidths_rev (l : list R) : sumWidths (rev l) = sumWidths l.
Proof.
  induction l as [ | a l IH]; [reflexivity | ].
  cbn [rev]. rewrite sumWidths_app, IH. unfold sumWidths. cbn. ring.
Qed.

Lemma charAngles_app (k c : R) (l1 l2 : list R) :
  charAngles k c (l1 ++ l2) =
  charAngles k c l1 ++ charAngles k (c + sumWidths l1 * k) l2.
Proof.
  revert c. induction l1 as [ | a l1 IH]; intros c.
  - cbn [List.app charAngles]. f_equal. unfold sumWidths. cbn. ring.
  - cbn [List.app charAngles]. rewrite IH. f_equal. f_equal. f_equal.
    unfold sumWidths. cbn. ring.
Qed.

Lemma charAngles_length (k c : R) (l : list R) :
  List.length (charAngles k c l) = List.length l.
Proof.
  revert c. induction l as [ | a l IH]; intros c; [reflexivity | ].
  cbn. f_equal. apply IH.
Qed.

Lemma charAngles_mirror (k : R) (ws : list R) :
  forall c,
    charAngles k (- (c + sumWidths ws * k)) (rev ws) =
    rev (List.map Ropp (charAngles k c ws)).
Proof.
  induction ws as [ | a ws IH]; intros c; [reflexivity | ].
  cbn [rev charAngles List.map]. rewrite charAngles_app.
  replace (- (c + sumWidths (a :: ws) * k))
    with (- (c + a * k + sumWidths ws * k))
    by (unfold sumWidths; cbn; ring).
  rewrite IH. f_equal. cbn [charAngles]. f_equal.
  rewrite sumWidths_rev. field.
Qed.

(** X27. A curved label is centred on its anchor.  When the widths of
    the characters add up to the width of the whole text, the rotations at
    which [drawLabels] draws the characters of a curved label are
    symmetric about zero: the text read backwards is laid out at the
    opposite rotations in the opposite order.  In any case the character
    that follows the characters [before] is drawn at the rotation
    [(sum of before + its width / 2 - totalWidth / 2) / radius]. *)
Theorem curved_label_centred (curvature totalWidth : R) (charWidths : list R) :
  let anglePerPixel := 1 / (1000 / (curvature / 10)) in
  (forall before w after,
      charWidths = before ++ w :: after ->
      nth_error (curvedAngles curvature totalWidth charWidths)
                (List.length before) =
      Some ((sumWidths before + w / 2 - totalWidth / 2) * anglePerPixel)) /\
  (totalWidth = sumWidths charWidths ->
   curvedAngles curvature totalWidth (rev charWidths) =
   rev (List.map Ropp (curvedAngles curvature totalWidth charWidths))).
Proof.
  intros anglePerPixel. unfold curvedAngles. fold anglePerPixel.
  clearbody anglePerPixel. split.
  - intros before w after ->. rewrite charAngles_app.
    rewrite nth_error_app2 by (rewrite charAngles_length; apply Nat.le_refl).
    rewrite charAngles_length, Nat.sub_diag. cbn. f_equal. field.
  - intros Htotal.
    rewrite <- charAngles_mirror. f_equal. rewrite Htotal. field.
Qed.

(** ** The path loop in binary64 *)

Section Binary64Path.

Import PrimFloat.
Local Open Scope float_scope.
#[local] Set Warnings "-inexact-float".

(** A loop that is left within some number of turns is left, with the
    same marks and the same distance, within any larger number. *)
Lemma pathLoop_more_fuel (fuel : nat) :
  forall x1 y1 nx ny dist spacing currentDist r,
    Binary64.pathLoop fuel x1 y1 nx ny dist spacing currentDist = Some r ->
    Binary64.pathLoop (S fuel) x1 y1 nx ny dist spacing currentDist = Some r.
Proof.
  induction fuel as [ | fuel IH];
    intros x1 y1 nx ny dist spacing currentDist r Hloop.
  - discriminate.
  - cbn [Binary64.pathLoop] in Hloop.
    change (Binary64.pathLoop (S (S fuel)) x1 y1 nx ny dist spacing
                              currentDist)
      with (if leb currentDist dist then
              match Binary64.pathLoop (S fuel) x1 y1 nx ny dist spacing
                                      (currentDist + spacing) with
              | Some (marks, final) =>
                Some ((x1 + nx * currentDist, y1 + ny * currentDist) :: marks,
                      final)
              | None => None
              end
            else Some ([], currentDist)).
    destruct (leb currentDist dist); [ | exact Hloop].
    destruct (Binary64.pathLoop fuel x1 y1 nx ny dist spacing
                                (currentDist + spacing))
      as [[marks final] | ] eqn:E; [ | discriminate].
    rewrite (IH _ _ _ _ _ _ _ _ E). exact Hloop.
Qed.

(** C3, in binary64.  With a 7-pixel brush and a path spacing of 0.3 the
    spacing is 2.1, and the remainder 0 lies between 0 and the spacing.
    The stroke from [(0, 0)] to [(8.4, 0)], drawn by one call from the
    remainder 0, places five marks, the last of them at the end of the
    stroke, and leaves the remainder 2.0999999999999996.  Cut at
    [(4.2, 0)] into two segments of the length 4.2, which is not below
    0.5, the first call places three marks and leaves 2.1000000000000005,
    and the second call places one mark and leaves 8.9e-16: the mark at
    the end of the stroke is missing and the remainder differs by a whole
    spacing.  [Math.hypot] is only required to be exact along the
    horizontal axis. *)
Theorem split_stroke_loses_mark (hypot : float -> float -> float) :
  (forall d, hypot d 0 = abs d) ->
  let draw := Binary64.drawPathSegment hypot 10 in
  let spacing := Binary64.max1 (7 * 0.3) in
  spacing = 2.1 /\
  leb 0 0 = true /\ leb 0 spacing = true /\
  ltb (hypot (4.2 - 0) (0 - 0)) 0.5 = false /\
  ltb (hypot (8.4 - 4.2) (0 - 0)) 0.5 = false /\
  exists whole first second,
    draw 0 0 8.4 0 7 0.3 0 = Some whole /\
    draw 0 0 4.2 0 7 0.3 0 = Some first /\
    draw 4.2 0 8.4 0 7 0.3 (snd first) = Some second /\
    fst whole =
    [(0, 0); (2.1, 0); (4.2, 0); (6.3000000000000007, 0); (8.4, 0)] /\
    fst first ++ fst second =
    [(0, 0); (2.1, 0); (4.2, 0); (6.3000000000000007, 0)] /\
    fst first ++ fst second <> fst whole /\
    snd whole = 2.0999999999999996 /\
    snd first = 2.1000000000000005 /\
    snd second = 8.8817841970012523e-16 /\
    snd second <> snd whole.
Proof.
  intros Hhypot draw spacing. subst draw spacing.
  unfold Binary64.drawPathSegment.
  replace (8.4 - 0) with 8.4 by reflexivity.
  replace (4.2 - 0) with 4.2 by reflexivity.
  replace (8.4 - 4.2) with 4.2 by reflexivity.
  replace (0 - 0) with 0 by reflexivity.
  rewrite !Hhypot.
  split; [reflexivity | ].
  split; [reflexivity | ].
  split; [reflexivity | ].
  split; [reflexivity | ].
  split; [reflexivity | ].
  eexists _, _, _.
  split; [vm_compute; reflexivity | ].
  split; [vm_compute; reflexivity | ].
  cbn [snd].
  split; [vm_compute; reflexivity | ].
  cbn [fst snd app].
  split; [reflexivity | ].
  split; [reflexivity | ].
  split; [discriminate | ].
  split; [reflexivity | ].
  split; [reflexivity | ].
  split; [reflexivity | ].
  intros Heq. apply (f_equal (fun v => ltb v 1)) in Heq.
  vm_compute in Heq. discriminate.
Qed.

(** C10, in binary64.  With a 7-pixel brush and a path spacing of 0.3 the
    spacing is 2.1.  From the remainder 0, which lies between 0 and the
    spacing, the call for the segment from [(0, 0)] to [(4.2, 0)], whose
    length 4.2 is not below 0.5, leaves the remainder 2.1000000000000005,
    which is above the spacing.  [Math.hypot] is only required to be exact
    along the horizontal axis. *)
Theorem remainder_exceeds_spacing (hypot : float -> float -> float) :
  (forall d, hypot d 0 = abs d) ->
  let spacing := Binary64.max1 (7 * 0.3) in
  let before := 0 in
  spacing = 2.1 /\
  leb 0 before = true /\ leb before spacing = true /\
  ltb (hypot (4.2 - 0) (0 - 0)) 0.5 = false /\
  exists marks after,
    Binary64.drawPathSegment hypot 10 0 0 4.2 0 7 0.3 before =
    Some (marks, after) /\
    after = 2.1000000000000005 /\
    ltb spacing after = true.
Proof.
  intros Hhypot spacing before. subst spacing before.
  replace (4.2 - 0) with 4.2 by reflexivity.
  replace (0 - 0) with 0 by reflexivity.
  unfold Binary64.drawPathSegment.
  replace (4.2 - 0) with 4.2 by reflexivity.
  replace (0 - 0) with 0 by reflexivity.
  rewrite !Hhypot.
  split; [reflexivity | ].
  split; [reflexivity | ].
  split; [reflexivity | ].
  split; [reflexivity | ].
  eexists _, _.
  split; [vm_compute; reflexivity | ].
  split; reflexivity.
Qed.

Lemma split_stroke_loses_mark_witness :
  let draw := Binary64.drawPathSegment Binary64.hypotPlain 10 in
  exists whole first second,
    draw 0 0 8.4 0 7 0.3 0 = Some whole /\
    draw 0 0 4.2 0 7 0.3 0 = Some first /\
    draw 4.2 0 8.4 0 7 0.3 (snd first) = Some second /\
    List.length (fst whole) = 5%nat /\
    List.length (fst first ++ fst second) = 4%nat /\
    ltb 2 (snd whole) = true /\
    ltb (snd second) 0.001 = true.
Proof.
  destruct (split_stroke_loses_mark Binary64.hypotPlain)
    as (_ & _ & _ & _ & _ & whole & first & second & Hw & Hf & Hs & Mw &
        Mfs & _ & Rw & _ & Rs & _).
  - intros d. reflexivity.
  - exists whole, first, second.
    split; [exact Hw | split; [exact Hf | split; [exact Hs | ]]].
    rewrite Mw, Mfs, Rw, Rs. repeat split.
Defined.

Lemma remainder_exceeds_spacing_witness :
  exists marks after,
    Binary64.drawPathSegment Binary64.hypotPlain 10 0 0 4.2 0 7 0.3 0 =
    Some (marks, after) /\
    ltb (Binary64.max1 (7 * 0.3)) after = true.
Proof.
  destruct (remainder_exceeds_spacing Binary64.hypotPlain)
    as (_ & _ & _ & _ & marks & after & Hdraw & _ & Habove).
  - intros d. reflexivity.
  - exists marks, after. split; [exact Hdraw | exact Habove].
Defined.

End Binary64Path.

(** ** The properties at sample inputs *)

Lemma hypot_ge_abs (dx dy : R) : Rabs dx <= JS.hypot dx dy.
Proof.
  unfold JS.hypot. rewrite <- sqrt_Rsqr_abs.
  apply sqrt_le_1_alt. unfold Rsqr.
  generalize (Rle_0_sqr dy). unfold Rsqr. lra.
Qed.

Lemma river_width_smoothing_witness :
  let rs := riverState (engine Sample.world0) in
  let rs' :=
    riverState
      (engine (applyPaint Sample.random Sample.css_rgb Sample.rasterize
                          Sample.resample 10 10 (Sample.state river 100)
                          Sample.world0)) in
  currentWidthFactor rs' =
  currentWidthFactor rs +
  0.15 * (targetWidthFactor rs' - currentWidthFactor rs).
Proof.
  apply (river_width_smoothing Sample.random Sample.css_rgb Sample.rasterize
                               Sample.resample 10 10 (Sample.state river 100)
                               Sample.world0 (freshContext 720 360));
    reflexivity.
Defined.


Lemma dirty_rect_equivalence_witness :
  same_layer
    (textureLayerCtx (renderTextureLayer (Some 360) (Some 180) (Some 360)
                                         Sample.textured))
    (textureLayerCtx (renderTextureLayer None None None Sample.textured)).
Proof.
  eapply (proj1 (dirty_rect_equivalence 360 180 360 Sample.textured
                                        _ eq_refl _ _ _ _)).
  Unshelve. all: cbn; lra.
Defined.

Lemma terrain_rotation_coupling_witness :
  let e := engine Sample.world0 in
  let e' := engine (applyPaint Sample.random Sample.css_rgb Sample.rasterize
                               Sample.resample 100 100
                               (Sample.state terrain 100) Sample.world0) in
  exists off map',
    offCanvas (fst (generate Sample.random Sample.rasterize 15 0 50 None
                             (Some 95) StochasticStamp0 1)) = Some off /\
    (forall px py,
      painted 1 (stampImage Sample.css_rgb Sample.resample "black" off
                            100 100 (Sample.random 0 * PI * 2)) px py <->
      painted (100 / 100)
              (stampImage Sample.css_rgb Sample.resample "#2d5a27" off
                          100 100 (Sample.random 0 * PI * 2)) px py) /\
    mapCtx e' = Some map' /\
    (alpha (pix (canvas (maskCtx e)) 100%Z 100%Z) <
     alpha (pix (canvas (maskCtx e')) 100%Z 100%Z) <->
     alpha (pix (canvas (freshContext 720 360)) 100%Z 100%Z) <
     alpha (pix (canvas map') 100%Z 100%Z)).
Proof.
  destruct (terrain_rotation_coupling
              Sample.random Sample.css_rgb Sample.rasterize Sample.resample
              100 100 (Sample.state terrain 100) Sample.world0
              (freshContext 720 360) eq_refl eq_refl)
    as (off & Hoff & _ & _ & Hsame & Hregion).
  - cbn. lra.
  - destruct (Hregion eq_refl eq_refl) as (map' & Hmap' & Hpx).
    exists off, map'.
    split; [exact Hoff | split; [exact Hsame | split; [exact Hmap' | ]]].
    apply (Hpx 100%Z 100%Z); cbn; lra.
Defined.

Lemma unbound_calls_are_noops_witness :
  let wd := mkWorld newMapEngine StochasticStamp0 0 in
  applyPaint Sample.random Sample.css_rgb Sample.rasterize Sample.resample
             100 100 (Sample.state terrain 100) wd = wd /\
  drawPathSegment Sample.rasterize 0 0 100 0 (Sample.state terrain 100)
                  (engine wd) = engine wd /\
  updateShallowWater Sample.shadow "#38bdf8" true (engine wd) = engine wd /\
  getSnapshot Sample.DataURL Sample.toDataURL (engine wd) = JS.Returned None.
Proof.
  apply (unbound_calls_are_noops Sample.random Sample.css_rgb Sample.rasterize
                                 Sample.resample Sample.shadow
                                 Sample.DataURL Sample.toDataURL).
  repeat split.
Defined.

(** ** The dotted path of the specification

    Brush size 10 and spacing factor 2.5: along a straight segment of 100
    pixels the dots are 25 pixels apart, from the start to the end of the
    segment, and the remainder left for the next segment is 25. *)

Lemma pathLoop_step (fuel : nat) (mark : R -> Shape)
      (dist spacing currentDist : R) :
  currentDist <= dist ->
  pathLoop (S fuel) mark dist spacing currentDist =
  (mark currentDist ::
     fst (pathLoop fuel mark dist spacing (currentDist + spacing)),
   snd (pathLoop fuel mark dist spacing (currentDist + spacing))).
Proof.
  intros H. cbn [pathLoop].
  destruct (Rle_dec currentDist dist) as [_ | Hn]; [ | contradiction].
  now destruct (pathLoop fuel mark dist spacing (currentDist + spacing)).
Qed.

Lemma pathLoop_done (fuel : nat) (mark : R -> Shape)
      (dist spacing currentDist : R) :
  dist < currentDist ->
  pathLoop fuel mark dist spacing currentDist = ([], currentDist).
Proof.
  intros H. destruct fuel as [ | fuel]; [reflexivity | ].
  cbn [pathLoop].
  destruct (Rle_dec currentDist dist) as [Hle | _]; [lra | reflexivity].
Qed.

Example dotted_path_scenario :
  let state := mkAppState path "#2d5a27" None false "#2d5a27" "#ffffff"
                          2.5 dots 10 100 50 40 false in
  map markPosition (fst (segmentMarks 0 0 100 0 state 0)) =
  [(0, 0); (25, 0); (50, 0); (75, 0); (100, 0)] /\
  snd (segmentMarks 0 0 100 0 state 0) = 25.
Proof.
  intros state.
  assert (Hdist : JS.hypot (100 - 0) (0 - 0) = 100).
  { unfold JS.hypot.
    replace ((100 - 0) * (100 - 0) + (0 - 0) * (0 - 0)) with (100 * 100)
      by lra.
    apply sqrt_square. lra. }
  assert (Hsp : Rmax 1 (brushSize state * pathSpacing state) = 25).
  { unfold state. cbn [brushSize pathSpacing]. rewrite Rmax_right; lra. }
  unfold segmentMarks. rewrite Hdist, Hsp.
  set (mark := pathMark state 0 0 ((100 - 0) / 100) ((0 - 0) / 100)
                        (JS.atan2 (0 - 0) (100 - 0))).
  replace (pathFuel 100 0) with 101%nat.
  2:{ unfold pathFuel.
      rewrite <- (tech_up (100 - 0) 101); [reflexivity | lra | lra]. }
  do 5 (rewrite pathLoop_step by lra; cbn [fst snd]).
  rewrite pathLoop_done by lra.
  unfold mark, pathMark, state. cbn [fst snd map pathStyle markPosition].
  split; [ | lra].
  repeat (f_equal; try lra).
Qed.

(** ** A terrain dab at brush opacity 0 *)

Lemma floor_IZR (x : R) (z : Z) : x = IZR z -> JS.floor x = z.
Proof.
  intros ->. unfold JS.floor.
  rewrite <- (tech_up (IZR z) (z + 1)).
  - lia.
  - rewrite plus_IZR. lra.
  - rewrite plus_IZR. lra.
Qed.

Lemma ceil_IZR (x : R) (z : Z) : x = IZR z -> JS.ceil x = z.
Proof.
  intros ->. unfold JS.ceil.
  rewrite (floor_IZR (- IZR z) (- z)).
  - lia.
  - now rewrite opp_IZR.
Qed.

(** The stamp mask that the sample platform generates for the smooth
    15-pixel brush: a white disc on a 75 by 75 canvas. *)
Lemma sample_generate (k : nat) :
  generate Sample.random Sample.rasterize 15 0 50 None (Some 95)
           StochasticStamp0 k =
  (mkStamp (Some (paint SourceOver 1
                        (Sample.rasterize (Circle (IZR 75 / 2) (IZR 75 / 2) 15)
                                          (Color "white"))
                        (blank 75 75)))
           None 15 0 95, k).
Proof.
  unfold generate, same_key, StochasticStamp0.
  cbn [offCanvas tintCanvas lastSize lastRoughness lastBlurWidth JS.orElse].
  destruct (Req_dec_T 15 0) as [H | _]; [lra | ].
  unfold redraw.
  destruct (Rlt_dec 0 0) as [H | _]; [lra | ].
  destruct (Rlt_dec 95 95) as [H | _]; [lra | ].
  rewrite (ceil_IZR ((15 * 1.5 + 15) * 2) 75) by lra.
  reflexivity.
Qed.

Lemma generate_cache_witness :
  let first := generate Sample.random Sample.rasterize 15 0 50 None (Some 95)
                        StochasticStamp0 0 in
  let again := generate Sample.random Sample.rasterize 15 0 50 None (Some 95)
                        (fst first) (snd first) in
  let larger := generate Sample.random Sample.rasterize 20 0 50 None (Some 95)
                         (fst first) (snd first) in
  again = first /\
  lastSize (fst larger) = 20 /\
  snd larger = snd first /\
  offCanvas (fst larger) =
  Some (paint SourceOver 1
              (Sample.rasterize (Circle (IZR 100 / 2) (IZR 100 / 2) 20)
                                (Color "white"))
              (blank 100 100)).
Proof.
  split.
  - apply (proj1 (generate_cache Sample.random Sample.rasterize
                                 15 0 50 None (Some 95) 15 0 50 None (Some 95)
                                 StochasticStamp0 0)).
    repeat split.
  - destruct (proj2 (generate_cache Sample.random Sample.rasterize
                                    15 0 50 None (Some 95)
                                    20 0 50 None (Some 95)
                                    StochasticStamp0 0))
      as (_ & Hsize & _ & _ & _ & shape & style & Hoff & Hsmooth & _ & Hhard).
    + cbn. lra.
    + destruct Hsmooth as (Hshape & Hseed & _); [cbn; lra | ].
      rewrite (Hhard ltac:(cbn; lra)), Hshape in Hoff.
      rewrite (ceil_IZR ((20 * 1.5 + 20) * 2) 100) in Hoff by lra.
      split; [exact Hsize | split; [exact Hseed | exact Hoff]].
Defined.

(** At brush opacity 0 a terrain dab of the smooth 15-pixel brush at
    [(37.5, 37.5)] on the sample platform makes the land mask opaque at the
    pixel [(37, 37)], where it was transparent, and leaves the map layer
    transparent everywhere: land is added that the map layer does not
    show. *)
Lemma terrain_dab_at_zero_opacity :
  let wd' := applyPaint Sample.random Sample.css_rgb Sample.rasterize
                        Sample.resample (75 / 2) (75 / 2)
                        (Sample.state terrain 0) Sample.world0 in
  getPixel (canvas (maskCtx (engine Sample.world0))) 37 37 = transparent /\
  alpha (getPixel (canvas (maskCtx (engine wd'))) 37 37) = 1 /\
  exists map',
    mapCtx (engine wd') = Some map' /\
    forall px py, getPixel (canvas map') px py = transparent.
Proof.
  intros wd'.
  destruct (applyPaint_terrain
              Sample.random Sample.css_rgb Sample.rasterize Sample.resample
              (75 / 2) (75 / 2) (Sample.state terrain 0) Sample.world0
              (freshContext 720 360) eq_refl eq_refl)
    as (off & Hoff & _ & _ & Hmask & Hmap).
  fold wd' in Hmask, Hmap.
  unfold Sample.state in Hoff.
  cbn [brushSize roughness blurWidth Sample.world0 stamp seed] in Hoff.
  rewrite sample_generate in Hoff. cbn [fst offCanvas] in Hoff.
  injection Hoff as Hoff. subst off.
  split; [reflexivity | split].
  - rewrite Hmask.
    unfold getPixel.
    replace (inside _ 37 37) with true by reflexivity.
    cbn [canvas withCanvas paint pix].
    replace (globalCompositeOperation (maskCtx (engine Sample.world0)))
      with SourceOver by reflexivity.
    unfold blend. cbn [alpha plus scale].
    rewrite stampImage_alpha.
    unfold Sample.resample. cbn [width height paint blank].
    rewrite (floor_IZR (75 / 2 + - (75 / 2)) 0) by lra.
    unfold getPixel.
    replace (inside _ (37 - 0) (37 - 0)) with true by reflexivity.
    cbn [pix paint]. unfold Sample.rasterize.
    destruct (Rle_dec _ _) as [_ | Hn].
    + unfold blend. cbn. lra.
    + exfalso. apply Hn. cbn. lra.
  - eexists. split; [exact Hmap | ].
    intros px py. unfold getPixel.
    destruct (inside _ px py); [ | reflexivity].
    cbn [canvas withCanvas paint pix freshContext blank globalCompositeOperation].
    unfold Sample.state. cbn [brushBlur].
    apply pixel_ext; unfold blend, empty, transparent;
      cbn [red green blue alpha plus scale]; lra.
Qed.

(** The stamp of the smooth 15-pixel brush, dabbed at [(37.5, 37.5)] on
    the sample platform, is opaque at the pixel [(37, 37)], whatever the
    colour and the rotation. *)
Lemma sample_stamp_alpha (color : string) (rot : R) :
  alpha (stampImage Sample.css_rgb Sample.resample color
                    (paint SourceOver 1
                           (Sample.rasterize
                              (Circle (IZR 75 / 2) (IZR 75 / 2) 15)
                              (Color "white"))
                           (blank 75 75))
                    (75 / 2) (75 / 2) rot 37%Z 37%Z) = 1.
Proof.
  rewrite stampImage_alpha.
  unfold Sample.resample. cbn [width height paint blank].
  rewrite (floor_IZR (75 / 2 + - (75 / 2)) 0) by lra.
  unfold getPixel.
  replace (inside _ (37 - 0) (37 - 0)) with true by reflexivity.
  cbn [pix paint]. unfold Sample.rasterize.
  destruct (Rle_dec _ _) as [_ | Hn].
  - unfold blend. cbn. lra.
  - exfalso. apply Hn. cbn. lra.
Qed.

(** Two terrain dabs of the smooth 15-pixel brush at brush opacity 50, one
    on the other at [(37.5, 37.5)] on the sample platform.  The first
    makes the land mask opaque at the pixel [(37, 37)] and the map layer
    half opaque; the second finds the stamp in the cache, leaves the land
    mask as it is at that pixel and raises the alpha of the map layer to
    three quarters: the map layer gains colour where the land mask gains
    nothing. *)
Lemma terrain_dab_over_land :
  let dab := applyPaint Sample.random Sample.css_rgb Sample.rasterize
                        Sample.resample (75 / 2) (75 / 2)
                        (Sample.state terrain 50) in
  let wd1 := dab Sample.world0 in
  let wd2 := dab wd1 in
  alpha (getPixel (canvas (maskCtx (engine wd1))) 37 37) = 1 /\
  alpha (getPixel (canvas (maskCtx (engine wd2))) 37 37) = 1 /\
  exists map1 map2,
    mapCtx (engine wd1) = Some map1 /\
    mapCtx (engine wd2) = Some map2 /\
    alpha (getPixel (canvas map1) 37 37) = 1 / 2 /\
    alpha (getPixel (canvas map2) 37 37) = 3 / 4.
Proof.
  intros dab wd1 wd2.
  destruct (applyPaint_terrain
              Sample.random Sample.css_rgb Sample.rasterize Sample.resample
              (75 / 2) (75 / 2) (Sample.state terrain 50) Sample.world0
              (freshContext 720 360) eq_refl eq_refl)
    as (off & Hoff & Hcache & _ & Hmask1 & Hmap1).
  destruct (applyPaint_terrain_stamp
              Sample.random Sample.css_rgb Sample.rasterize Sample.resample
              (75 / 2) (75 / 2) (Sample.state terrain 50) Sample.world0
              (freshContext 720 360) eq_refl eq_refl)
    as (Ks & Kr & Kb & Knone).
  fold dab wd1 in Hcache, Hmask1, Hmap1, Ks, Kr, Kb, Knone.
  unfold Sample.state in Hoff.
  cbn [brushSize roughness blurWidth Sample.world0 stamp seed] in Hoff.
  rewrite sample_generate in Hoff. cbn [fst offCanvas] in Hoff.
  injection Hoff as Hoff. subst off.
  destruct (applyPaint_terrain
              Sample.random Sample.css_rgb Sample.rasterize Sample.resample
              (75 / 2) (75 / 2) (Sample.state terrain 50) wd1
              _ Hmap1 eq_refl)
    as (off2 & Hoff2 & _ & _ & Hmask2 & Hmap2).
  fold dab wd2 in Hmask2, Hmap2.
  rewrite (generate_hit Sample.random Sample.rasterize
                        (brushSize (Sample.state terrain 50))
                        (roughness (Sample.state terrain 50))
                        (blurWidth (Sample.state terrain 50))
                        None (Some 95) (stamp wd1) (S (seed wd1))
                        Ks Kr Kb Knone) in Hoff2.
  cbn [fst] in Hoff2. rewrite Hcache in Hoff2.
  injection Hoff2 as Hoff2. subst off2.
  assert (Hin : forall c, width c = 720%Z -> height c = 360%Z ->
                          inside c 37 37 = true).
  { intros c Hw Hh. unfold inside. rewrite Hw, Hh. reflexivity. }
  assert (A1 : alpha (getPixel (canvas (maskCtx (engine wd1))) 37 37) = 1).
  { rewrite Hmask1. unfold getPixel. rewrite Hin by reflexivity.
    cbn [canvas withCanvas paint pix].
    replace (globalCompositeOperation (maskCtx (engine Sample.world0)))
      with SourceOver by reflexivity.
    unfold blend. cbn [alpha plus scale].
    rewrite sample_stamp_alpha. cbn. lra. }
  assert (Hpix1 : alpha (pix (canvas (maskCtx (engine wd1))) 37%Z 37%Z) = 1).
  { unfold getPixel in A1. rewrite Hin in A1; [exact A1 | | ];
      rewrite Hmask1; reflexivity. }
  split; [exact A1 | split].
  - rewrite Hmask2. unfold getPixel.
    rewrite Hin by (rewrite Hmask1; reflexivity).
    cbn [canvas withCanvas paint pix].
    replace (globalCompositeOperation (maskCtx (engine wd1)))
      with SourceOver by (rewrite Hmask1; reflexivity).
    unfold blend. cbn [alpha plus scale].
    rewrite sample_stamp_alpha, Hpix1. lra.
  - eexists _, _. split; [exact Hmap1 | split; [exact Hmap2 | ]].
    assert (B1 : alpha (pix (paint SourceOver (50 / 100)
                      (stampImage Sample.css_rgb Sample.resample
                         (terrainColor (Sample.state terrain 50))
                         (paint SourceOver 1
                            (Sample.rasterize
                               (Circle (IZR 75 / 2) (IZR 75 / 2) 15)
                               (Color "white")) (blank 75 75))
                         (75 / 2) (75 / 2)
                         (Sample.random (seed Sample.world0) * PI * 2))
                      (canvas (freshContext 720 360))) 37%Z 37%Z) = 1 / 2).
    { cbn [paint pix]. unfold blend. cbn [alpha plus scale].
      rewrite sample_stamp_alpha. cbn. lra. }
    split.
    + unfold getPixel. rewrite Hin by reflexivity.
      cbn [canvas withCanvas brushBlur Sample.state
           globalCompositeOperation freshContext].
      exact B1.
    + unfold getPixel. rewrite Hin by reflexivity.
      cbn [canvas withCanvas brushBlur Sample.state
           globalCompositeOperation freshContext].
      cbn [paint pix]. unfold blend. cbn [alpha plus scale].
      rewrite !sample_stamp_alpha. cbn. lra.
Qed.

(** C6, as the claim has it, fails twice over on the sample platform: at
    brush opacity 0 the land mask gains a region and the map layer none,
    and over painted land the map layer gains colour and the land mask
    nothing. *)
Lemma terrain_dab_regions_differ :
  (let wd' := applyPaint Sample.random Sample.css_rgb Sample.rasterize
                         Sample.resample (75 / 2) (75 / 2)
                         (Sample.state terrain 0) Sample.world0 in
   getPixel (canvas (maskCtx (engine Sample.world0))) 37 37 = transparent /\
   alpha (getPixel (canvas (maskCtx (engine wd'))) 37 37) = 1 /\
   exists map',
     mapCtx (engine wd') = Some map' /\
     forall px py, getPixel (canvas map') px py = transparent) /\
  (let dab := applyPaint Sample.random Sample.css_rgb Sample.rasterize
                         Sample.resample (75 / 2) (75 / 2)
                         (Sample.state terrain 50) in
   let wd1 := dab Sample.world0 in
   let wd2 := dab wd1 in
   alpha (getPixel (canvas (maskCtx (engine wd1))) 37 37) = 1 /\
   alpha (getPixel (canvas (maskCtx (engine wd2))) 37 37) = 1 /\
   exists map1 map2,
     mapCtx (engine wd1) = Some map1 /\
     mapCtx (engine wd2) = Some map2 /\
     alpha (getPixel (canvas map1) 37 37) = 1 / 2 /\
     alpha (getPixel (canvas map2) 37 37) = 3 / 4).
Proof.
  split; [exact terrain_dab_at_zero_opacity | exact terrain_dab_over_land].
Qed.

(** ** Capture and restore after a path stroke at half opacity *)

Lemma sample_lossless :
  lossless Sample.DataURL Sample.toDataURL Sample.decode.
Proof.
  intros c. exists c. split; [reflexivity | ].
  repeat split.
Qed.

(** A one-pixel segment drawn with the 15-pixel dotted brush at brush
    opacity 50 places one dot, at the start of the segment, and leaves the
    global alpha of the path context at one half. *)
Lemma sample_path_segment :
  exists cx cy remainder,
    cx = 0 /\ cy = 0 /\
    drawPathSegment Sample.rasterize 0 0 1 0 (Sample.state path 50)
                    Sample.engine0 =
    setPath (mkCtx (paint SourceOver (50 / 100)
                          (Sample.rasterize (Circle cx cy (15 / 2))
                                            (Color "#ffffff"))
                          (blank 720 360))
                   (50 / 100) SourceOver (Color "#ffffff"))
            remainder Sample.engine0.
Proof.
  assert (Hdist : JS.hypot (1 - 0) (0 - 0) = 1).
  { unfold JS.hypot.
    replace ((1 - 0) * (1 - 0) + (0 - 0) * (0 - 0)) with 1 by lra.
    apply sqrt_1. }
  unfold drawPathSegment.
  change (pathCtx Sample.engine0) with (Some (freshContext 720 360)).
  rewrite Hdist.
  destruct (Rlt_dec 1 0.5) as [H | _]; [lra | ].
  unfold segmentMarks. rewrite Hdist.
  change (pathRemainder Sample.engine0) with 0.
  set (spacing := Rmax 1 (brushSize (Sample.state path 50) *
                          pathSpacing (Sample.state path 50))).
  assert (Hsp : 37 <= spacing).
  { apply Rle_trans with (15 * 2.5); [lra | apply Rmax_r]. }
  set (mark := pathMark (Sample.state path 50) 0 0 ((1 - 0) / 1) ((0 - 0) / 1)
                        (JS.atan2 (0 - 0) (1 - 0))).
  rewrite (pathLoop_fuel mark 1 spacing) with (fuel' := 2%nat).
  - cbn [pathLoop].
    destruct (Rle_dec 0 1) as [_ | H]; [ | lra].
    destruct (Rle_dec (0 + spacing) 1) as [H | _]; [lra | ].
    exists (0 + (1 - 0) / 1 * 0), (0 + (0 - 0) / 1 * 0), (0 + spacing - 1).
    split; [lra | split; [lra | ]].
    reflexivity.
  - lra.
  - apply pathFuel_enough.
  - cbn. lra.
Qed.

(** C9 at a failing input.  On the sample platform, whose data URLs are
    lossless, a path stroke at brush opacity 50 leaves the path layer with
    alpha one half at the pixel [(0, 0)]; capturing the engine and restoring
    that snapshot, with all four images loaded, leaves alpha one quarter
    there: the path layer is redrawn at the global alpha that the stroke
    left on its context. *)
Theorem restore_fades_path_layer :
  let e1 := drawPathSegment Sample.rasterize 0 0 1 0 (Sample.state path 50)
                            Sample.engine0 in
  exists snap pth pth',
    getSnapshot Sample.DataURL Sample.toDataURL e1 = JS.Returned (Some snap) /\
    pathCtx e1 = Some pth /\
    pathCtx (settle Sample.DataURL Sample.decode 720 360
                    (snd (loadSnapshot Sample.DataURL snap 720 360 e1))
                    (fst (loadSnapshot Sample.DataURL snap 720 360 e1))) =
    Some pth' /\
    alpha (getPixel (canvas pth) 0 0) = 1 / 2 /\
    alpha (getPixel (canvas pth') 0 0) = 1 / 4.
Proof.
  intros e1.
  destruct sample_path_segment as (cx & cy & remainder & Hcx & Hcy & He1).
  fold e1 in He1. subst cx cy.
  set (pth := mkCtx (paint SourceOver (50 / 100)
                           (Sample.rasterize (Circle 0 0 (15 / 2))
                                             (Color "#ffffff"))
                           (blank 720 360))
                    (50 / 100) SourceOver (Color "#ffffff")) in *.
  assert (Hpix : alpha (getPixel (canvas pth) 0 0) = 1 / 2).
  { unfold getPixel.
    replace (inside (canvas pth) 0 0) with true by reflexivity.
    unfold pth. cbn [canvas paint pix blank]. unfold Sample.rasterize.
    destruct (Rle_dec _ _) as [_ | Hn].
    - unfold blend, empty, transparent. cbn [alpha plus scale]. lra.
    - exfalso. apply Hn. cbn. lra. }
  assert (Hsnap : getSnapshot Sample.DataURL Sample.toDataURL e1 =
                  JS.Returned
                    (Some (mkSnapshot Sample.DataURL
                             (Sample.toDataURL (blank 720 360))
                             (Sample.toDataURL
                                (canvas (maskCtx Sample.engine0)))
                             (Some (Sample.toDataURL
                                      (canvas (textureMaskCtx Sample.engine0))))
                             (Sample.toDataURL (canvas pth))))).
  { rewrite He1. reflexivity. }
  edestruct (restore_layer Sample.DataURL Sample.toDataURL Sample.decode
                           PathLayer e1 (freshContext 720 360) pth pth)
    with (w := 720%Z) (h := 360%Z)
    as (pth' & Hpth' & _ & Hrestored);
    [ exact sample_lossless
    | rewrite He1; reflexivity
    | rewrite He1; reflexivity
    | rewrite He1; reflexivity
    | reflexivity
    | unfold pth; cbn [canvas width height paint blank]; lia
    | unfold pth; cbn [canvas width height paint blank]; lia
    | exact Hsnap
    | apply Permutation_refl
    | ].
  eexists. exists pth, pth'.
  split; [exact Hsnap | ].
  split; [rewrite He1; reflexivity | ].
  split; [exact Hpth' | ].
  split; [exact Hpix | ].
  rewrite Hrestored. cbn [alpha scale]. rewrite Hpix.
  unfold pth. cbn [globalAlpha]. lra.
Qed.

(** ** The further properties at sample inputs *)

Lemma generate_random_draws_witness :
  snd (generate Sample.random Sample.rasterize 15 40 50 None None
                StochasticStamp0 0) = (0 + 14)%nat.
Proof.
  destruct (generate_random_draws Sample.random Sample.rasterize
                                  15 40 50 None None StochasticStamp0 0)
    as (_ & _ & H).
  apply H.
  - cbn. intros (H15 & _). lra.
  - cbn. lra.
Defined.

Lemma rough_outline_in_canvas_witness :
  exists pts style,
    offCanvas (fst (generate Sample.random Sample.rasterize 15 40 50 None None
                             StochasticStamp0 0)) =
    Some (paint SourceOver 1 (Sample.rasterize (Polygon pts) style)
                (blank (JS.ceil ((15 * 1.5 + 15) * 2))
                       (JS.ceil ((15 * 1.5 + 15) * 2)))) /\
    Forall (fun p =>
              0 <= fst p <= IZR (JS.ceil ((15 * 1.5 + 15) * 2)) /\
              0 <= snd p <= IZR (JS.ceil ((15 * 1.5 + 15) * 2)) /\
              exists a rho,
                15 / 4 <= rho <= 7 * 15 / 4 /\
                p = (IZR (JS.ceil ((15 * 1.5 + 15) * 2)) / 2 + cos a * rho,
                     IZR (JS.ceil ((15 * 1.5 + 15) * 2)) / 2 + sin a * rho))
           pts.
Proof.
  apply (rough_outline_in_canvas Sample.random Sample.rasterize
                                 15 40 50 None None StochasticStamp0 0).
  - lra.
  - cbn. lra.
  - intros n. unfold Sample.random. lra.
  - cbn. intros (H15 & _). lra.
Defined.

Lemma organic_river_range_witness :
  let rs' :=
    riverState
      (engine (applyPaint Sample.random Sample.css_rgb Sample.rasterize
                          Sample.resample 10 10 (Sample.state river 100)
                          Sample.world0)) in
  0.6 <= currentWidthFactor rs' <= 1.1 /\
  0.6 <= targetWidthFactor rs' <= 1.1.
Proof.
  destruct (organic_river_range
              Sample.random Sample.css_rgb Sample.rasterize Sample.resample
              10 10 (Sample.state river 100) Sample.world0
              (freshContext 720 360) eq_refl eq_refl eq_refl)
    as (H & _ & _).
  - intros n. unfold Sample.random. lra.
  - apply H; cbn; lra.
Defined.

Lemma dab_frame_witness :
  let wd' := applyPaint Sample.random Sample.css_rgb Sample.rasterize
                        Sample.resample 10 20 (Sample.state terrain 100)
                        Sample.world0 in
  lastX (riverState (engine wd')) = 10 /\
  lastY (riverState (engine wd')) = 20.
Proof.
  destruct (dab_frame Sample.random Sample.css_rgb Sample.rasterize
                      Sample.resample 10 20 (Sample.state terrain 100)
                      Sample.world0)
    as (_ & H & _).
  apply H. discriminate.
Defined.

Lemma path_segment_frame_witness :
  exists ctx',
    pathCtx (drawPathSegment Sample.rasterize 0 0 100 0
                             (Sample.state path 50) Sample.engine0) =
    Some ctx' /\
    fillStyle ctx' = Color "#ffffff" /\
    globalAlpha ctx' = 50 / 100 /\
    globalCompositeOperation ctx' = SourceOver /\
    width (canvas ctx') = 720%Z /\
    height (canvas ctx') = 360%Z.
Proof.
  destruct (path_segment_frame Sample.rasterize 0 0 100 0
                               (Sample.state path 50) Sample.engine0)
    as (_ & H).
  apply (H (freshContext 720 360)).
  - reflexivity.
  - eapply Rle_trans; [ | apply hypot_ge_abs].
    unfold Rabs. destruct (Rcase_abs _); lra.
Defined.

Lemma reachable_invariant_witness :
  wellFormed 720 360
    (engine (applyPaint Sample.random Sample.css_rgb Sample.rasterize
                        Sample.resample 10 20 (Sample.state terrain 100)
                        Sample.world0)).
Proof.
  apply (reachable_invariant Sample.random Sample.css_rgb Sample.rasterize
                             Sample.resample Sample.shadow Sample.DataURL
                             Sample.decode).
  apply reach_paint. apply reach_init.
Defined.

Lemma getSnapshot_reachable_witness :
  exists snap,
    getSnapshot Sample.DataURL Sample.toDataURL
                (updateShallowWater Sample.shadow "#38bdf8" true
                                    Sample.engine0) =
    JS.Returned (Some snap).
Proof.
  apply (getSnapshot_reachable
           Sample.random Sample.css_rgb Sample.rasterize Sample.resample
           Sample.shadow Sample.DataURL Sample.toDataURL Sample.decode
           720 360
           (mkWorld (updateShallowWater Sample.shadow "#38bdf8" true
                                        Sample.engine0)
                    StochasticStamp0 0)).
  apply (reach_step Sample.random Sample.css_rgb Sample.rasterize
                    Sample.resample Sample.shadow Sample.DataURL Sample.decode
                    720 360 Sample.world0).
  - apply reach_init.
  - apply step_water.
Defined.

Lemma restore_reachable_witness :
  exists snap,
    getSnapshot Sample.DataURL Sample.toDataURL Sample.engine0 =
    JS.Returned (Some snap) /\
    let loading := loadSnapshot Sample.DataURL snap 720 360 Sample.engine0 in
    let e' := settle Sample.DataURL Sample.decode 720 360 (snd loading)
                     (fst loading) in
    forall l,
    exists ctx ctx',
      layerCtx l Sample.engine0 = Some ctx /\
      layerCtx l e' = Some ctx' /\
      forall x y,
        getPixel (canvas ctx') x y =
        match l with
        | PathLayer => scale (globalAlpha ctx) (getPixel (canvas ctx) x y)
        | _ => getPixel (canvas ctx) x y
        end.
Proof.
  eexists. split; [reflexivity | ].
  apply (restore_reachable
           Sample.random Sample.css_rgb Sample.rasterize Sample.resample
           Sample.shadow Sample.DataURL Sample.toDataURL Sample.decode
           720 360 Sample.world0).
  - apply reach_init.
  - exact sample_lossless.
  - reflexivity.
  - apply Permutation.Permutation_refl.
Defined.

Lemma restore_texture_consistent_witness :
  textureConsistent
    (settle Sample.DataURL Sample.decode 720 360
            [(MaskLayer, blank 720 360)] Sample.engine0).
Proof.
  apply (restore_texture_consistent Sample.DataURL Sample.decode 720 360
                                    [(MaskLayer, blank 720 360)]
                                    Sample.engine0 _ eq_refl eq_refl).
  exists MaskLayer, (blank 720 360), (blank 720 360).
  split; [now left | split; [now left | reflexivity]].
Defined.

Lemma texture_off_and_on_witness :
  let off := setGlobalTexture None Sample.textured in
  maskCtx off = maskCtx Sample.textured /\
  textureMaskCtx off = textureMaskCtx Sample.textured /\
  exists c0 c1 c2,
    textureLayerCtx off = Some c0 /\
    (forall x y, getPixel (canvas c0) x y = transparent) /\
    textureLayerCtx (setGlobalTexture (Some (blank 8 8)) off) = Some c1 /\
    textureLayerCtx (setGlobalTexture (Some (blank 8 8)) Sample.textured) =
    Some c2 /\
    same_pixels (canvas c1) (canvas c2).
Proof.
  apply (texture_off_and_on Sample.textured _ (blank 8 8) eq_refl eq_refl).
Defined.

Lemma shallow_water_from_scratch_witness :
  exists c1 c2 c3,
    waterCtx (updateShallowWater Sample.shadow "#38bdf8" true Sample.engine0) =
    Some c1 /\
    waterCtx (updateShallowWater Sample.shadow "#38bdf8" true Sample.textured) =
    Some c2 /\
    waterCtx (updateShallowWater Sample.shadow "#38bdf8" true
                (updateShallowWater Sample.shadow "#38bdf8" true
                                    Sample.engine0)) = Some c3 /\
    same_pixels (canvas c2) (canvas c1) /\
    same_pixels (canvas c3) (canvas c1) /\
    (true = false -> forall x y, getPixel (canvas c1) x y = transparent).
Proof.
  apply (shallow_water_from_scratch Sample.shadow "#38bdf8" true
                                    Sample.engine0 Sample.textured
                                    _ _ eq_refl eq_refl eq_refl eq_refl).
Defined.

Lemma export_shows_top_layer_witness :
  exists c,
    exportImage Sample.css_rgb "#1e3a8a" None Sample.engine0 = Some c /\
    width c = 720%Z /\ height c = 360%Z /\
    pix c 10%Z 10%Z = solid Sample.css_rgb "#1e3a8a".
Proof.
  destruct (export_shows_top_layer Sample.css_rgb "#1e3a8a" None
                                   Sample.engine0 (freshContext 720 360)
                                   eq_refl)
    as (c & Hc & Hw & Hh & _ & Hocean).
  exists c. split; [exact Hc | split; [exact Hw | split; [exact Hh | ]]].
  apply Hocean.
  - reflexivity.
  - unfold inside. rewrite Hw, Hh. reflexivity.
  - intros a Ha. cbn in Ha.
    repeat (destruct Ha as [<- | Ha]; [reflexivity | ]). contradiction.
Defined.

Lemma sample_unitPlatform : unitPlatform Sample.rasterize Sample.resample.
Proof.
  split.
  - intros sh st px py. unfold Sample.rasterize.
    destruct sh; cbn; try lra.
    destruct (Rle_dec _ _); cbn; lra.
  - intros chan w h tx ty rot dx dy px py Hchan. apply Hchan.
Defined.

Lemma mask_mutation_discipline_witness :
  let paintAt := applyPaint Sample.random Sample.css_rgb Sample.rasterize
                            Sample.resample 100 100 in
  let e := engine Sample.world0 in
  let textured := engine (paintAt (Sample.state texture 100) Sample.world0) in
  let land := engine (paintAt (Sample.state terrain 50) Sample.world0) in
  maskCtx textured = maskCtx e /\
  textureMaskCtx land = textureMaskCtx e /\
  alpha (pix (canvas (maskCtx e)) 100%Z 100%Z) <=
  alpha (pix (canvas (maskCtx land)) 100%Z 100%Z) <= 1.
Proof.
  split; [ | split].
  - apply (proj1 (mask_mutation_discipline
                    Sample.random Sample.css_rgb Sample.rasterize
                    Sample.resample Sample.shadow
                    100 100 (Sample.state texture 100)
                    Sample.world0)); discriminate.
  - apply (proj1 (proj2 (mask_mutation_discipline
                           Sample.random Sample.css_rgb Sample.rasterize
                           Sample.resample Sample.shadow
                           100 100 (Sample.state terrain 50)
                           Sample.world0))).
    intros [Hmode _]. discriminate.
  - destruct (mask_mutation_discipline
                Sample.random Sample.css_rgb Sample.rasterize
                Sample.resample Sample.shadow
                100 100 (Sample.state terrain 50) Sample.world0)
      as (_ & _ & _ & _ & _ & Hmono).
    destruct (Hmono sample_unitPlatform I (freshContext 720 360) eq_refl
                    100%Z 100%Z) as [Hland _].
    apply Hland; [cbn; lra | reflexivity | reflexivity].
Defined.

Lemma land_mask_monotone_witness :
  let before := canvas (maskCtx Sample.engine0) in
  let wd' := applyPaint Sample.random Sample.css_rgb Sample.rasterize
                        Sample.resample 100 100 (Sample.state terrain 0)
                        Sample.world0 in
  let after := canvas (maskCtx (engine wd')) in
  unitStamp (stamp wd') /\
  0 <= alpha (pix after 100%Z 100%Z) <= 1 /\
  alpha (pix before 100%Z 100%Z) <= alpha (pix after 100%Z 100%Z).
Proof.
  destruct (land_mask_monotone
              Sample.random Sample.css_rgb Sample.rasterize Sample.resample
              100 100 (Sample.state terrain 0) Sample.world0
              (freshContext 720 360) sample_unitPlatform I eq_refl eq_refl)
    as [Hstamp Hpx].
  split; [exact Hstamp | ].
  destruct (Hpx 100%Z 100%Z) as (H1 & H2 & _).
  - cbn. lra.
  - split; [exact H1 | now apply H2].
Defined.

Lemma hsv_value_round_trip_witness :
  exists r g b hsv,
    ((0 <= r <= 255) /\ (0 <= g <= 255) /\ (0 <= b <= 255))%Z /\
    Utils.hsvToHex 120 50 (inject_Z 50) =
    ("#" ++ Utils.padStart2 (Utils.toString16 r) ++
         Utils.padStart2 (Utils.toString16 g) ++
         Utils.padStart2 (Utils.toString16 b))%string /\
    String.length (Utils.hsvToHex 120 50 (inject_Z 50)) = 7%nat /\
    Utils.hexToHsv (Utils.hsvToHex 120 50 (inject_Z 50)) = Some hsv /\
    Utils.v hsv = inject_Z 50 /\
    ((50 == 0)%Q -> Utils.h hsv = 0%Q /\ Utils.s hsv = 0%Q).
Proof.
  apply (hsv_value_round_trip 120 50 50).
  - discriminate.
  - split; discriminate.
  - lia.
Defined.

Lemma hexToHsv_in_range_witness :
  exists hh ss vv : Z,
    Utils.hexToHsv "#2d5a27" =
    Some (Utils.mkHSV (inject_Z hh) (inject_Z ss) (inject_Z vv)) /\
    (0 <= hh <= 360)%Z /\ (0 <= ss <= 100)%Z /\ (0 <= vv <= 100)%Z.
Proof.
  apply (hexToHsv_in_range "#2d5a27" 45 90 39); try reflexivity; lia.
Defined.

Lemma lightenColor_value_witness :
  exists hsv out hsv',
    Utils.hexToHsv "#2d5a27" = Some hsv /\
    Utils.lightenColor "#2d5a27" (inject_Z 40) = Some out /\
    Utils.hexToHsv out = Some hsv' /\
    (Utils.v hsv' == Qmin 100 (Utils.v hsv + inject_Z 40))%Q.
Proof.
  apply (lightenColor_value "#2d5a27" 45 90 39 40); try reflexivity; lia.
Defined.

Lemma history_within_limit_witness :
  let hist := @mkHistory Sample.DataURL unit [] [] in
  @withinLimit Sample.DataURL unit
    (@saveHistory Sample.DataURL Sample.toDataURL unit [] tt Sample.engine0
                  hist) /\
  @withinLimit Sample.DataURL unit
    (fst (@handleUndo Sample.DataURL Sample.toDataURL unit [] tt
                      Sample.engine0 hist)) /\
  @withinLimit Sample.DataURL unit
    (fst (@handleRedo Sample.DataURL Sample.toDataURL unit [] tt
                      Sample.engine0 hist)) /\
  @redoStack Sample.DataURL unit
    (@saveHistory Sample.DataURL Sample.toDataURL unit [] tt Sample.engine0
                  hist) = [].
Proof.
  apply (@history_within_limit Sample.DataURL Sample.toDataURL unit [] tt
                               Sample.engine0
                               (@mkHistory Sample.DataURL unit [] [])).
  unfold withinLimit. cbn. lia.
Defined.

Lemma undo_then_redo_witness :
  let hist := @saveHistory Sample.DataURL Sample.toDataURL unit [] tt
                           Sample.engine0
                           (@mkHistory Sample.DataURL unit [] []) in
  exists snap,
    getSnapshot Sample.DataURL Sample.toDataURL Sample.textured =
    JS.Returned (Some snap) /\
    let undone := @handleUndo Sample.DataURL Sample.toDataURL unit [] tt
                              Sample.textured hist in
    let redone := @handleRedo Sample.DataURL Sample.toDataURL unit [] tt
                              Sample.engine0 (fst undone) in
    exists older prev,
      @undoStack Sample.DataURL unit hist = older ++ [prev] /\
      snd undone = Some prev /\
      @undoStack Sample.DataURL unit (fst undone) = older /\
      snd redone = Some (@mkEntry Sample.DataURL unit snap [] tt) /\
      @redoStack Sample.DataURL unit (fst redone) =
      @redoStack Sample.DataURL unit hist.
Proof.
  intros hist. eexists. split; [reflexivity | ].
  apply (@undo_then_redo Sample.DataURL Sample.toDataURL unit [] [] tt tt
                         Sample.textured Sample.engine0 hist).
  - discriminate.
  - reflexivity.
  - discriminate.
Defined.

Lemma floor_unique (x : R) (z : Z) :
  IZR z <= x < IZR z + 1 -> JS.floor x = z.
Proof.
  intros Hx. unfold JS.floor.
  rewrite <- (tech_up x (z + 1)).
  - lia.
  - rewrite plus_IZR. lra.
  - rewrite plus_IZR. lra.
Qed.

Lemma floor_mono (x y : R) : x <= y -> (JS.floor x <= JS.floor y)%Z.
Proof.
  intros Hxy. unfold JS.floor.
  destruct (archimed x) as [Hx1 Hx2]. destruct (archimed y) as [Hy1 Hy2].
  assert (H : (up x - 1 < up y)%Z).
  { apply lt_IZR. rewrite minus_IZR. lra. }
  lia.
Qed.

(** The sample rounding is monotone and leaves the integers as they
    are. *)
Lemma sample_round64_mono (u v : R) :
  u <= v -> Sample.round64 u <= Sample.round64 v.
Proof.
  intros Huv. unfold Sample.round64.
  assert (H : (JS.floor (u * 4096 + 1 / 2) <= JS.floor (v * 4096 + 1 / 2))%Z)
    by (apply floor_mono; lra).
  apply IZR_le in H. lra.
Qed.

Lemma sample_round64_Z (z : Z) : Sample.round64 (IZR z) = IZR z.
Proof.
  unfold Sample.round64.
  rewrite (floor_unique (IZR z * 4096 + 1 / 2) (z * 4096)).
  - rewrite mult_IZR. field.
  - rewrite mult_IZR. lra.
Qed.

Lemma paintAssets_scatter_witness :
  let settings := mkAssetBrush 5 30 100 100 true in
  let now := fun _ : nat => 1793563200000 in
  let result := paintAssets Sample.random Sample.round64 settings [0%nat]
                            ["tree.png"%string] now 100 100 1000 0 in
  (result = None <->
   [0%nat] = [] \/ density settings = 0 \/ 1000 < 50 / density settings) /\
  forall batch k',
    result = Some (batch, k') ->
    List.length batch = Z.to_nat (JS.ceil (density settings / 2)) /\
    k' = (0 + 6 * List.length batch)%nat /\
    Forall (fun a =>
              JS.hypot (Asset.x a - 100) (Asset.y a - 100) <=
              brushRadius settings /\
              0.1 <= Asset.scale a /\ Asset.rotation a = 0) batch /\
    forall i j a b,
      nth_error batch i = Some a -> nth_error batch j = Some b ->
      (i < j)%nat -> Asset.id a <= Asset.id b.
Proof.
  intros settings now.
  destruct (paintAssets_scatter Sample.random Sample.round64 settings [0%nat]
                                ["tree.png"%string] now 100 100 1000 0)
    as [Hnone Hbatch].
  - intros n. unfold Sample.random. lra.
  - cbn. lra.
  - split; [exact Hnone | ].
    intros batch k' Hres.
    destruct (Hbatch batch k' Hres) as (H1 & H2 & H3 & H4).
    split; [exact H1 | split; [exact H2 | split; [exact H3 | ]]].
    apply H4.
    + intros i j Hij. unfold now. lra.
    + exact sample_round64_mono.
    + intros i. unfold now. rewrite INR_IZR_INZ, <- plus_IZR.
      apply sample_round64_Z.
Defined.

(** Two assets of one batch with one identifier.  At the time
    1793563200000, with the sample rounding, the random numbers 0.99999
    for the first asset and 0.00001 for the second give both assets of a
    batch of two the identifier 1793563200001. *)
Lemma asset_ids_coincide :
  let random := fun k : nat =>
                  if Nat.eqb k 4 then 99999 / 100000
                  else if Nat.eqb k 10 then 1 / 100000 else 1 / 2 in
  let settings := mkAssetBrush 3 30 100 100 true in
  exists a b k',
    paintAssets random Sample.round64 settings [0%nat] ["tree.png"%string]
                (fun _ => 1793563200000) 100 100 1000 0 =
    Some ([a; b], k') /\
    Asset.id a = 1793563200001 /\ Asset.id b = 1793563200001.
Proof.
  intros random settings. unfold paintAssets.
  cbn [density settings].
  destruct (Req_dec_T 3 0) as [H | _]; [lra | ].
  destruct (Rlt_dec 1000 (50 / 3)) as [H | _]; [lra | ].
  assert (Hcount : JS.ceil (3 / 2) = 2%Z).
  { unfold JS.ceil. rewrite (floor_unique (- (3 / 2)) (-2)); [reflexivity | ].
    lra. }
  rewrite Hcount.
  change (Z.to_nat 2) with 2%nat. cbn [seq List.map].
  eexists _, _, _. split; [reflexivity | ].
  unfold scatterAsset. cbn [Asset.id random Nat.add Nat.mul Nat.eqb INR].
  replace (1793563200000 + 0) with (IZR 1793563200000) by lra.
  replace (1793563200000 + 1) with (IZR 1793563200001) by lra.
  rewrite !sample_round64_Z.
  unfold Sample.round64.
  rewrite (floor_unique ((1793563200000 + 99999 / 100000) * 4096 + 1 / 2)
                        7346434867204096) by lra.
  rewrite (floor_unique ((1793563200001 + 1 / 100000) * 4096 + 1 / 2)
                        7346434867204096) by lra.
  split; lra.
Qed.

Lemma pinch_zoom_anchor_witness :
  let '(newZoom, (newOx, newOy)) :=
    pinchMove (pinchStart 1 0 0 (0, 0) (100, 0)) (0, 0) (100, 0) in
  newZoom = 1 /\ newOx = 0 /\ newOy = 0.
Proof.
  generalize (pinch_zoom_anchor (pinchStart 1 0 0 (0, 0) (100, 0))
                                (0, 0) (100, 0)).
  destruct (pinchMove (pinchStart 1 0 0 (0, 0) (100, 0)) (0, 0) (100, 0))
    as [newZoom [newOx newOy]].
  intros (_ & _ & _ & H). apply H.
  - reflexivity.
  - cbn [pinchStart pinchStartDist fst snd].
    eapply Rlt_le_trans; [ | apply hypot_ge_abs].
    unfold Rabs. destruct (Rcase_abs _); lra.
  - lra.
Defined.

Lemma terrain_within_mask_witness :
  let wd' := applyPaint Sample.random Sample.css_rgb Sample.rasterize
                        Sample.resample 100 100 (Sample.state terrain 50)
                        Sample.world0 in
  exists mctx',
    mapCtx (engine wd') = Some mctx' /\
    0 <= alpha (pix (canvas mctx') 100%Z 100%Z) <=
    alpha (pix (canvas (maskCtx (engine wd'))) 100%Z 100%Z) /\
    alpha (pix (canvas (maskCtx (engine wd'))) 100%Z 100%Z) <= 1.
Proof.
  destruct (terrain_within_mask
              Sample.random Sample.css_rgb Sample.rasterize Sample.resample
              100 100 (Sample.state terrain 50) Sample.world0
              (freshContext 720 360) sample_unitPlatform I eq_refl eq_refl
              eq_refl)
    as (mctx' & Hmap & Hpx).
  - cbn. lra.
  - exists mctx'. split; [exact Hmap | ].
    apply (Hpx 100%Z 100%Z); cbn; lra.
Defined.

Lemma texture_mask_monotone_witness :
  let state := mkAppState texture "#2d5a27" (Some "grass.png"%string) false
                          "#2d5a27" "#ffffff" 2.5 dots 15 50 50 0 true in
  let before := canvas (textureMaskCtx (engine Sample.world0)) in
  let after :=
    canvas (textureMaskCtx
              (engine (applyPaint Sample.random Sample.css_rgb
                                  Sample.rasterize Sample.resample 100 100
                                  state Sample.world0))) in
  0 <= alpha (pix after 100%Z 100%Z) <= 1 /\
  alpha (pix before 100%Z 100%Z) <= alpha (pix after 100%Z 100%Z).
Proof.
  destruct (texture_mask_monotone
              Sample.random Sample.css_rgb Sample.rasterize Sample.resample
              100 100
              (mkAppState texture "#2d5a27" (Some "grass.png"%string) false
                          "#2d5a27" "#ffffff" 2.5 dots 15 50 50 0 true)
              Sample.world0 (freshContext 720 360)
              sample_unitPlatform I eq_refl eq_refl eq_refl)
    with (px := 100%Z) (py := 100%Z) as (H1 & H2 & _).
  - cbn. lra.
  - cbn. lra.
  - split; [exact H1 | now apply H2].
Defined.

Lemma tool_and_paint_mode_witness :
  let s := fst (setTool Tool.river INITIAL_TOOL_STATE false) in
  inSync s /\ ~ inSync (handleLoad (handleSaveFile s)).
Proof.
  intros s.
  destruct (tool_and_paint_mode Tool.river INITIAL_TOOL_STATE false
                                (handleSaveFile s))
    as (Hsync & _ & Hinit & _).
  split; [exact (Hsync Hinit) | ].
  destruct (tool_and_paint_mode Tool.river s false (handleSaveFile s))
    as (_ & _ & _ & _ & _ & Hload).
  apply Hload. discriminate.
Defined.

Lemma curved_label_centred_witness :
  curvedAngles 50 30 (rev [10; 20]) =
  rev (List.map Ropp (curvedAngles 50 30 [10; 20])).
Proof.
  apply (proj2 (curved_label_centred 50 30 [10; 20])).
  unfold sumWidths. cbn. lra.
Defined.

Lemma legacy_snapshot_hides_texture_witness :
  let snap := mkSnapshot Sample.DataURL (blank 720 360) (blank 720 360) None
                         (blank 720 360) in
  let loading := loadSnapshot Sample.DataURL snap 720 360 Sample.textured in
  let e' := settle Sample.DataURL Sample.decode 720 360 (snd loading)
                   (fst loading) in
  (forall x y, getPixel (canvas (textureMaskCtx e')) x y = transparent) /\
  exists ctx',
    textureLayerCtx e' = Some ctx' /\
    forall x y, getPixel (canvas ctx') x y = transparent.
Proof.
  apply (legacy_snapshot_hides_texture
           Sample.DataURL Sample.decode
           (mkSnapshot Sample.DataURL (blank 720 360) (blank 720 360) None
                       (blank 720 360))
           720 360 _ Sample.textured _ (blank 720 360)
           eq_refl eq_refl eq_refl eq_refl eq_refl
           (Permutation_refl _) eq_refl).
Defined.
